(** * Order lifecycle and swap execution (Abokiv2sol)

    A shallow embedding of [src/services/jupiterService.ts],
    [src/services/orderManger.ts] and [src/types/index.ts], followed by the
    properties of the order state machine, fee accounting, persistence and
    swap execution.

    Conventions of the embedding.
    - A TypeScript [number] is a rational, [null] or [NaN], and the
      arithmetic on it is exact, as the source's is on whole numbers of
      magnitude up to [2 ** 53]; a property that depends on a sum, a
      product or a quotient says for which values it is stated.  The order
      counter and [parseInt] round to the nearest double.
    - The platform and the libraries raise [Error] objects; the wallet,
      which the source types [any], may reject with any value.
    - The outcome of every awaited collaborator is supplied by a [World]
      record.  A method is first defined as one run from its call to its
      completion; the calls that suspend at an [await] while others run
      are defined after it, from the two halves of the same method.
    - Mutations made before a [throw] stay in place, as in JavaScript. *)

From Stdlib Require Import ZArith NArith QArith Qround List String Ascii Bool Lia.
From Stdlib Require Import Decimal DecimalString DecimalPos DecimalN.
From Stdlib Require Import Sorted Permutation Lqa.
Import ListNotations.

Local Open Scope string_scope.
Local Open Scope Z_scope.

(* ===================================================================== *)
(** * The JavaScript runtime, as far as the sources rely on it            *)
(* ===================================================================== *)

Module JS.

(** ** Exceptions *)

Record Error : Type := mkError { message : string }.

Inductive res (A : Type) : Type :=
| Ok (a : A)
| Throw (e : Error).
Arguments Ok {A} a.
Arguments Throw {A} e.

Definition bind_res {A B : Type} (c : res A) (k : A -> res B) : res B :=
  match c with
  | Ok a => k a
  | Throw e => Throw e
  end.

(** [try { body } catch (error) { handler }] *)
Definition try_catch {A : Type} (body : res A) (handler : Error -> res A) : res A :=
  match body with
  | Ok a => Ok a
  | Throw e => handler e
  end.

Definition throw_new_Error {A : Type} (msg : string) : res A :=
  Throw (mkError msg).

(** A value that is thrown, or that a promise is rejected with, where the
    source has no say in it: an [Error] object, [null] or [undefined], or
    a value that has no [message]. *)
Inductive Thrown : Type :=
| an_Error (e : Error)
| nullish
| without_message.

(** What a call on a value typed [any] comes to. *)
Inductive Settled (A : Type) : Type :=
| resolves (a : A)
| rejects (v : Thrown).
Arguments resolves {A} a.
Arguments rejects {A} v.

Definition settled_of {A : Type} (r : res A) : Settled A :=
  match r with
  | Ok a => resolves a
  | Throw e => rejects (an_Error e)
  end.

Definition bind_settled {A B : Type} (c : Settled A) (k : A -> Settled B)
    : Settled B :=
  match c with
  | resolves a => k a
  | rejects v => rejects v
  end.

(** [try { body } catch (error) { handler }] around such a call. *)
Definition try_catch_any {A : Type} (body : Settled A)
    (handler : Thrown -> res A) : res A :=
  match body with
  | resolves a => Ok a
  | rejects v => handler v
  end.

(** [error.message]: [undefined] on a value that has none; reading a
    property of [null] or [undefined] raises a [TypeError]. *)
Definition message_of (error : Thrown) : res (option string) :=
  match error with
  | an_Error e => Ok (Some (message e))
  | nullish =>
      throw_new_Error "Cannot read properties of undefined (reading 'message')"
  | without_message => Ok None
  end.

(** ** Numbers

    [Null] is the value a [number]-typed property holds once
    [JSON.stringify] has met [NaN] there; [ToNumber(null)] is [0]. *)

Inductive number : Type :=
| NaN
| Null
| Num (q : Q).

Definition of_Z (z : Z) : number := Num (inject_Z z).

(** [ToNumber]: [None] stands for [NaN]. *)
Definition numeric (n : number) : option Q :=
  match n with
  | NaN => None
  | Null => Some 0%Q
  | Num q => Some q
  end.

(** The arithmetic of the sources, without the rounding of doubles: it
    gives the source's result wherever the operands and the result are
    whole numbers of magnitude at most [2 ** 53].  The properties that
    rest on a result are stated for such values. *)
Definition number_mul (a b : number) : number :=
  match numeric a, numeric b with
  | Some x, Some y => Num (x * y)
  | _, _ => NaN
  end.

(** A quotient by zero is infinite or [NaN] in JavaScript; both are
    rendered [NaN] here.  The sources only ever divide by [10000]. *)
Definition number_div (a b : number) : number :=
  match numeric a, numeric b with
  | Some x, Some y => if Qeq_bool y 0 then NaN else Num (x / y)
  | _, _ => NaN
  end.

Definition number_sub (a b : number) : number :=
  match numeric a, numeric b with
  | Some x, Some y => Num (x - y)
  | _, _ => NaN
  end.

(** [a <= b] and [a > b]; a comparison with [NaN] is [false]. *)
Definition number_le (a b : number) : bool :=
  match numeric a, numeric b with
  | Some x, Some y => Qle_bool x y
  | _, _ => false
  end.

Definition number_gt (a b : number) : bool :=
  match numeric a, numeric b with
  | Some x, Some y => negb (Qle_bool x y)
  | _, _ => false
  end.



(** ** Truthiness *)

Definition truthy_number (n : number) : bool :=
  match n with
  | Num q => negb (Qeq_bool q 0)
  | _ => false
  end.

Definition truthy_string (s : string) : bool :=
  negb (String.eqb s EmptyString).

(** An optional string: [undefined] is falsy, like the empty string. *)
Definition truthy_opt_string (o : option string) : bool :=
  match o with
  | Some s => truthy_string s
  | None => false
  end.

(** [o || dflt] on an optional string. *)
Definition or_string (o : option string) (dflt : string) : string :=
  match o with
  | Some s => if truthy_string s then s else dflt
  | None => dflt
  end.

(** ** Strings *)

(** [Number.prototype.toString] on integers. *)
Definition N_toString (n : N) : string :=
  NilZero.string_of_uint (N.to_uint n).

Definition Z_toString (z : Z) : string :=
  if z <? 0 then String "-" (N_toString (Z.abs_N z))
  else N_toString (Z.abs_N z).

Fixpoint repeat_char (c : ascii) (n : nat) : string :=
  match n with
  | O => EmptyString
  | S n' => String c (repeat_char c n')
  end.

(** [s.padStart(targetLength, c)] with a one-character filler. *)
Definition padStart (targetLength : nat) (c : ascii) (s : string) : string :=
  repeat_char c (targetLength - String.length s) ++ s.

(** [s.split(sep)] with a one-character separator: the result is never
    empty. *)
Fixpoint split_on (sep : ascii) (s : string) : list string :=
  match s with
  | EmptyString => [EmptyString]
  | String c s' =>
      if Ascii.eqb c sep then EmptyString :: split_on sep s'
      else match split_on sep s' with
           | [] => [String c EmptyString]
           | piece :: rest => String c piece :: rest
           end
  end.

(** The ASCII members of [StrWhiteSpaceChar]. *)
Definition is_white_space (c : ascii) : bool :=
  let n := N_of_ascii c in
  ((9 <=? n) && (n <=? 13) || (n =? 32))%N.

Fixpoint trim_start (s : string) : string :=
  match s with
  | EmptyString => EmptyString
  | String c s' => if is_white_space c then trim_start s' else s
  end.

(** The value of [c] as a digit of the given radix (10 or 16). *)
Definition digit_value (radix : N) (c : ascii) : option N :=
  let n := N_of_ascii c in
  let v :=
    if ((48 <=? n) && (n <=? 57))%N then Some (n - 48)%N
    else if ((97 <=? n) && (n <=? 122))%N then Some (n - 87)%N
    else if ((65 <=? n) && (n <=? 90))%N then Some (n - 55)%N
    else None in
  match v with
  | Some d => if (d <? radix)%N then Some d else None
  | None => None
  end.

(** The value of the longest prefix of [s] made of digits; [acc] is [None]
    until a first digit has been read. *)
Fixpoint scan_digits (radix : N) (s : string) (acc : option N) : option N :=
  match s with
  | EmptyString => acc
  | String c s' =>
      match digit_value radix c with
      | Some d =>
          scan_digits radix s'
            (Some (radix * match acc with Some a => a | None => 0 end + d)%N)
      | None => acc
      end
  end.

Definition strip_sign (s : string) : bool * string :=
  match s with
  | String c s' =>
      if Ascii.eqb c "-" then (true, s')
      else if Ascii.eqb c "+" then (false, s')
      else (false, s)
  | EmptyString => (false, s)
  end.

Definition strip_hex_prefix (s : string) : N * string :=
  match s with
  | String c0 (String c1 s') =>
      if Ascii.eqb c0 "0" && (Ascii.eqb c1 "x" || Ascii.eqb c1 "X")
      then (16%N, s') else (10%N, s)
  | _ => (10%N, s)
  end.

(** The number that stands for the integer [z]: [z] itself up to
    [2 ** 53] in magnitude; beyond it the nearest integer with a mantissa
    of 53 bits, the one with the even mantissa when two are equally near. *)
Definition nearest_double (z : Z) : Z :=
  let a := Z.abs z in
  if a <? 2 ^ 53 then z
  else
    let e := Z.log2 a - 52 in
    let q := Z.shiftr a e in
    let r := a - Z.shiftl q e in
    let half := Z.shiftl 1 (e - 1) in
    let q' :=
      if r <? half then q
      else if half <? r then q + 1
      else if Z.even q then q else q + 1 in
    Z.sgn z * Z.shiftl q' e.

(** The mathematical value [parseInt(s)] reads, without a radix; [None]
    stands for [NaN]. *)
Definition parseIntZ (s : string) : option Z :=
  let '(negative, s1) := strip_sign (trim_start s) in
  let '(radix, s2) := strip_hex_prefix s1 in
  match scan_digits radix s2 None with
  | Some n => Some (if negative then - Z.of_N n else Z.of_N n)
  | None => None
  end.

(** [parseInt(s)]: the number nearest to the value read. *)
Definition parseInt (s : string) : number :=
  match parseIntZ s with
  | Some z => of_Z (nearest_double z)
  | None => NaN
  end.

(** [parseInt(x) || 0] where [x] may be [undefined]: an integer. *)
Definition parseInt_or_0 (x : option string) : Z :=
  match x with
  | Some s => match parseIntZ s with Some z => nearest_double z | None => 0 end
  | None => 0
  end.

(** [Math.max(0, ...zs)] on integers. *)
Definition Math_max_0 (zs : list Z) : Z := fold_right Z.max 0 zs.

(** ** [Map<string, V>]: keyed, in insertion order *)

Definition Map (V : Type) : Type := list (string * V).

Definition Map_empty {V : Type} : Map V := [].

Fixpoint Map_get {V : Type} (k : string) (m : Map V) : option V :=
  match m with
  | [] => None
  | (k', v) :: m' => if String.eqb k k' then Some v else Map_get k m'
  end.

(** [m.set(k, v)]: an existing key keeps its place, a new one goes last. *)
Fixpoint Map_set {V : Type} (k : string) (v : V) (m : Map V) : Map V :=
  match m with
  | [] => [(k, v)]
  | (k', v') :: m' =>
      if String.eqb k k' then (k, v) :: m' else (k', v') :: Map_set k v m'
  end.

Definition Map_keys {V : Type} (m : Map V) : list string := map fst m.
Definition Map_values {V : Type} (m : Map V) : list V := map snd m.
Definition Map_entries {V : Type} (m : Map V) : list (string * V) := m.

(** [new Map(entries)] *)
Definition Map_of_entries {V : Type} (es : list (string * V)) : Map V :=
  fold_left (fun m kv => Map_set (fst kv) (snd kv) m) es Map_empty.

(** ** Values of type [any] that travel as JSON *)

#[local] Unset Elimination Schemes.
Inductive json : Type :=
| JNull
| JBool (b : bool)
| JNum (q : Q)
| JStr (s : string)
| JArr (items : list json)
| JObj (fields : list (string * json)).
#[local] Set Elimination Schemes.

End JS.

Import JS.

(* ===================================================================== *)
(** * [src/types/index.ts]                                                *)
(* ===================================================================== *)

Module Types.

Inductive OrderStatus : Type :=
| PENDING
| FULFILLED
| FAILED
| REFUNDED
| CANCELLED.

(** The string value of each enum member. *)
Definition OrderStatus_value (s : OrderStatus) : string :=
  match s with
  | PENDING => "pending"
  | FULFILLED => "fulfilled"
  | FAILED => "failed"
  | REFUNDED => "refunded"
  | CANCELLED => "cancelled"
  end.

(** [a === b] on statuses. *)
Definition OrderStatus_eqb (a b : OrderStatus) : bool :=
  match a, b with
  | PENDING, PENDING | FULFILLED, FULFILLED | FAILED, FAILED
  | REFUNDED, REFUNDED | CANCELLED, CANCELLED => true
  | _, _ => false
  end.

Record SwapInfo : Type := mkSwapInfo {
  ammKey : string;
  label : string;
  si_inputMint : string;
  si_outputMint : string;
  si_inAmount : string;
  si_outAmount : string;
  feeAmount : string;
  feeMint : string
}.

Record RouteStep : Type := mkRouteStep {
  swapInfo : SwapInfo;
  percent : number
}.

Record JupiterQuote : Type := mkJupiterQuote {
  inputMint : string;
  inAmount : string;
  outputMint : string;
  outAmount : string;
  otherAmountThreshold : string;
  swapMode : string;
  slippageBps : number;
  platformFee : json;
  priceImpactPct : string;
  routePlan : list RouteStep;
  contextSlot : number;
  timeTaken : number
}.

Record SwapTransaction : Type := mkSwapTransaction {
  swapTransaction : string;
  lastValidBlockHeight : number;
  prioritizationFeeLamports : number;
  computeUnitLimit : number;
  prioritizationType : json;
  dynamicSlippageReport : json;
  simulationError : json
}.

Record Order : Type := mkOrder {
  id : string;
  inputToken : string;
  outputToken : string;
  inputAmount : number;
  expectedOutputAmount : number;
  actualOutputAmount : option number;
  rate : string;
  creator : string;
  refundAddress : string;
  liquidityProvider : string;
  status : OrderStatus;
  timestamp : number;
  quote : JupiterQuote;
  transactionSignature : option string;
  errorMessage : option string;
  protocolFee : number;
  priceImpact : string
}.

Record OrderCreationParams : Type := mkOrderCreationParams {
  p_inputToken : string;
  p_outputToken : string;
  p_inputAmount : number;
  p_rate : option string;
  p_liquidityProvider : string;
  p_refundAddress : option string
}.

Record PriorityLevelWithMaxLamports : Type := mkPriorityLevel {
  maxLamports : number;
  priorityLevel : string;
  global : option bool
}.

Record PriorityFeeConfig : Type := mkPriorityFeeConfig {
  priorityLevelWithMaxLamports : option PriorityLevelWithMaxLamports;
  jitoTipLamports : option number
}.

Record TransactionResult : Type := mkTransactionResult {
  signature : string;
  success : bool;
  error : option string;
  outputAmount : option string
}.

(** Field assignments [order.f = v]. *)

Definition set_status (v : OrderStatus) (o : Order) : Order :=
  mkOrder o.(id) o.(inputToken) o.(outputToken) o.(inputAmount)
    o.(expectedOutputAmount) o.(actualOutputAmount) o.(rate) o.(creator)
    o.(refundAddress) o.(liquidityProvider) v o.(timestamp) o.(quote)
    o.(transactionSignature) o.(errorMessage) o.(protocolFee) o.(priceImpact).

Definition set_errorMessage (v : option string) (o : Order) : Order :=
  mkOrder o.(id) o.(inputToken) o.(outputToken) o.(inputAmount)
    o.(expectedOutputAmount) o.(actualOutputAmount) o.(rate) o.(creator)
    o.(refundAddress) o.(liquidityProvider) o.(status) o.(timestamp) o.(quote)
    o.(transactionSignature) v o.(protocolFee) o.(priceImpact).

Definition set_transactionSignature (v : option string) (o : Order) : Order :=
  mkOrder o.(id) o.(inputToken) o.(outputToken) o.(inputAmount)
    o.(expectedOutputAmount) o.(actualOutputAmount) o.(rate) o.(creator)
    o.(refundAddress) o.(liquidityProvider) o.(status) o.(timestamp) o.(quote)
    v o.(errorMessage) o.(protocolFee) o.(priceImpact).

Definition set_actualOutputAmount (v : option number) (o : Order) : Order :=
  mkOrder o.(id) o.(inputToken) o.(outputToken) o.(inputAmount)
    o.(expectedOutputAmount) v o.(rate) o.(creator)
    o.(refundAddress) o.(liquidityProvider) o.(status) o.(timestamp) o.(quote)
    o.(transactionSignature) o.(errorMessage) o.(protocolFee) o.(priceImpact).

Definition set_quote (v : JupiterQuote) (o : Order) : Order :=
  mkOrder o.(id) o.(inputToken) o.(outputToken) o.(inputAmount)
    o.(expectedOutputAmount) o.(actualOutputAmount) o.(rate) o.(creator)
    o.(refundAddress) o.(liquidityProvider) o.(status) o.(timestamp) v
    o.(transactionSignature) o.(errorMessage) o.(protocolFee) o.(priceImpact).

Definition set_expectedOutputAmount (v : number) (o : Order) : Order :=
  mkOrder o.(id) o.(inputToken) o.(outputToken) o.(inputAmount)
    v o.(actualOutputAmount) o.(rate) o.(creator)
    o.(refundAddress) o.(liquidityProvider) o.(status) o.(timestamp) o.(quote)
    o.(transactionSignature) o.(errorMessage) o.(protocolFee) o.(priceImpact).

Definition set_priceImpact (v : string) (o : Order) : Order :=
  mkOrder o.(id) o.(inputToken) o.(outputToken) o.(inputAmount)
    o.(expectedOutputAmount) o.(actualOutputAmount) o.(rate) o.(creator)
    o.(refundAddress) o.(liquidityProvider) o.(status) o.(timestamp) o.(quote)
    o.(transactionSignature) o.(errorMessage) o.(protocolFee) v.

End Types.
Import Types.

(* ===================================================================== *)
(** * The collaborators: network, quote service, wallet, clock, storage   *)
(* ===================================================================== *)

(** [PublicKey] of [@solana/web3.js], seen through [toString()]. *)
Record PublicKey : Type := mkPublicKey { toBase58 : string }.

Record VersionedTransaction : Type := mkVersionedTransaction {
  recentBlockhash : string;
  serialized : string
}.

(** A wallet adapter: [publicKey] is [null] while disconnected.  The
    source types the wallet [any]: what [signTransaction] rejects with is
    up to the wallet. *)
Record Wallet : Type := mkWallet {
  publicKey : option PublicKey;
  signTransaction : VersionedTransaction -> Settled VersionedTransaction
}.

(** The query string of [GET /quote]; a number stands for its rendering. *)
Record QuoteQuery : Type := mkQuoteQuery {
  qq_inputMint : string;
  qq_outputMint : string;
  qq_amount : number;
  qq_slippageBps : number;
  qq_restrictIntermediateTokens : string;
  qq_platformFeeBps : option number
}.

(** The body of [POST /swap]. *)
Record SwapRequest : Type := mkSwapRequest {
  quoteResponse : JupiterQuote;
  userPublicKey : string;
  dynamicComputeUnitLimit : bool;
  dynamicSlippage : bool;
  sr_prioritizationFeeLamports : PriorityFeeConfig;
  feeAccount : option string;
  destinationTokenAccount : option string
}.

(** What [fetch] resolves to: [response.ok] with the outcome of
    [response.json()], or a failure status with the outcome of
    [response.json()] read at its [error] property. *)
Inductive Response (A : Type) : Type :=
| response_ok (body : res A)
| response_not_ok (status : Z) (errorData_error : res (option string)).
Arguments response_ok {A} body.
Arguments response_not_ok {A} status errorData_error.

Record SendOptions : Type := mkSendOptions {
  maxRetries : number;
  skipPreflight : bool
}.

Record ConfirmStrategy : Type := mkConfirmStrategy {
  cs_signature : string;
  cs_blockhash : string;
  cs_lastValidBlockHeight : number
}.

(** [CONFIG] of [@/utils/constants], which the repository keeps outside
    the modelled sources: its values are left open. *)
Record Config : Type := mkConfig {
  RPC_ENDPOINT : string;
  JUPITER_API_BASE : string;
  DEFAULT_SLIPPAGE : number;
  MAX_RETRIES : number;
  PRIORITY_LEVEL : string;
  PROTOCOL_FEE_BPS : number;
  TREASURY_WALLET : string
}.

Record World : Type := mkWorld {
  CONFIG : Config;
  (** the [n]-th reading of [Date.now()] during the call *)
  Date_now : nat -> Z;
  (** [new PublicKey(s)] *)
  new_PublicKey : string -> res PublicKey;
  (** [getAssociatedTokenAddress(mint, owner)] *)
  getAssociatedTokenAddress : PublicKey -> PublicKey -> res PublicKey;
  fetch_quote : QuoteQuery -> res (Response JupiterQuote);
  fetch_swap : SwapRequest -> res (Response SwapTransaction);
  (** [VersionedTransaction.deserialize(Buffer.from(s, 'base64'))] *)
  deserialize : string -> res VersionedTransaction;
  sendTransaction : VersionedTransaction -> SendOptions -> res string;
  (** [confirmTransaction(strategy, commitment)]: the JSON text of
      [value.err], [None] when it is [null] *)
  confirmTransaction : ConfirmStrategy -> string -> res (option string)
}.

Declare Scope res_scope.
Delimit Scope res_scope with res.
Notation "x <~ c ;; k" := (bind_res c (fun x => k))
  (at level 61, c at next level, right associativity) : res_scope.
Local Open Scope res_scope.

(* ===================================================================== *)
(** * [src/services/jupiterService.ts]                                    *)
(* ===================================================================== *)

Module JupiterService.

(** [n.toString()] raises on [null]. *)
Definition toString_defined (n : number) : res unit :=
  match n with
  | Null => throw_new_Error "Cannot read properties of null (reading 'toString')"
  | _ => Ok tt
  end.

Definition validateQuote (quote : JupiterQuote) : res unit :=
  if negb (truthy_string quote.(inputMint)) || negb (truthy_string quote.(outputMint))
  then throw_new_Error "Invalid quote: missing mint addresses"
  else if negb (truthy_string quote.(inAmount))
          || negb (truthy_string quote.(outAmount))
  then throw_new_Error "Invalid quote: missing amounts"
  else Ok tt.   (* the price-impact check only writes a warning *)

Definition getQuote (w : World) (inputMint outputMint : string)
    (amount slippageBps : number) (platformFeeBps : option number)
    : res JupiterQuote :=
  try_catch
    (_ <~ toString_defined amount ;;
     _ <~ toString_defined slippageBps ;;
     let params :=
       mkQuoteQuery inputMint outputMint amount slippageBps "true"
         (match platformFeeBps with
          | Some f => if truthy_number f && number_gt f (of_Z 0)
                      then Some f else None
          | None => None
          end) in
     response <~ fetch_quote w params ;;
     match response with
     | response_not_ok status body =>
         errorData_error <~ body ;;
         throw_new_Error
           (or_string errorData_error
              ("HTTP error! status: " ++ Z_toString status))
     | response_ok body =>
         quote <~ body ;;
         _ <~ validateQuote quote ;;
         Ok quote
     end)
    (fun error => throw_new_Error ("Failed to get quote: " ++ message error)).

Record SwapOptions : Type := mkSwapOptions {
  o_feeAccount : option PublicKey;
  o_destinationTokenAccount : option PublicKey;
  o_priorityFeeConfig : option PriorityFeeConfig;
  o_dynamicSlippage : option bool;
  o_dynamicComputeUnitLimit : option bool
}.

Definition default_priority (w : World) : PriorityFeeConfig :=
  mkPriorityFeeConfig
    (Some (mkPriorityLevel (of_Z 1000000) w.(CONFIG).(PRIORITY_LEVEL) (Some false)))
    None.

Definition createSwapTransaction (w : World) (quote : JupiterQuote)
    (userPublicKey : option PublicKey) (options : SwapOptions)
    : res SwapTransaction :=
  try_catch
    (user <~ match userPublicKey with
             | Some pk => Ok pk.(toBase58)
             | None => throw_new_Error
                         "Cannot read properties of null (reading 'toString')"
             end ;;
     let swapRequest :=
       mkSwapRequest quote user
         (match options.(o_dynamicComputeUnitLimit) with Some b => b | None => true end)
         (match options.(o_dynamicSlippage) with Some b => b | None => true end)
         (match options.(o_priorityFeeConfig) with
          | Some c => c
          | None => default_priority w
          end)
         (option_map toBase58 options.(o_feeAccount))
         (option_map toBase58 options.(o_destinationTokenAccount)) in
     response <~ fetch_swap w swapRequest ;;
     match response with
     | response_not_ok status body =>
         errorData_error <~ body ;;
         throw_new_Error
           (or_string errorData_error
              ("HTTP error! status: " ++ Z_toString status))
     | response_ok body => body
     end)
    (fun error =>
       throw_new_Error ("Failed to create swap transaction: " ++ message error)).

Definition executeSwap (w : World) (wallet : Wallet)
    (swapTransaction : SwapTransaction) : res TransactionResult :=
  try_catch_any
    (bind_settled
       (settled_of (deserialize w swapTransaction.(Types.swapTransaction)))
       (fun transaction =>
     bind_settled (wallet.(signTransaction) transaction)
       (fun signedTransaction =>
     settled_of
       (signature <~ sendTransaction w signedTransaction
                       (mkSendOptions w.(CONFIG).(MAX_RETRIES) true) ;;
        confirmation_value_err <~
          confirmTransaction w
            (mkConfirmStrategy signature transaction.(recentBlockhash)
               swapTransaction.(lastValidBlockHeight))
            "confirmed" ;;
        match confirmation_value_err with
        | Some err => throw_new_Error ("Transaction failed: " ++ err)
        | None => Ok (mkTransactionResult signature true None None)
        end))))
    (fun error =>
       error_message <~ message_of error ;;
       Ok (mkTransactionResult EmptyString false error_message None)).

Record OrderSwapParams : Type := mkOrderSwapParams {
  os_inputMint : string;
  os_outputMint : string;
  os_inputAmount : number;
  os_liquidityProvider : string;
  os_treasuryWallet : string;
  os_platformFeeBps : number
}.

Definition executeOrderSwap (w : World) (wallet : Wallet)
    (order : OrderSwapParams) : res TransactionResult :=
  try_catch
    (quote <~ getQuote w order.(os_inputMint) order.(os_outputMint)
                order.(os_inputAmount) w.(CONFIG).(DEFAULT_SLIPPAGE)
                (Some order.(os_platformFeeBps)) ;;
     inputMintKey <~ new_PublicKey w order.(os_inputMint) ;;
     treasuryKey <~ new_PublicKey w order.(os_treasuryWallet) ;;
     treasuryTokenAccount <~ getAssociatedTokenAddress w inputMintKey treasuryKey ;;
     outputMintKey <~ new_PublicKey w order.(os_outputMint) ;;
     lpKey <~ new_PublicKey w order.(os_liquidityProvider) ;;
     lpTokenAccount <~ getAssociatedTokenAddress w outputMintKey lpKey ;;
     swapTransaction <~
       createSwapTransaction w quote wallet.(publicKey)
         (mkSwapOptions (Some treasuryTokenAccount) (Some lpTokenAccount)
            None None None) ;;
     result <~ executeSwap w wallet swapTransaction ;;
     Ok (mkTransactionResult result.(signature) result.(success)
           result.(error) (Some quote.(outAmount))))
    (fun error =>
       Ok (mkTransactionResult EmptyString false (Some (message error)) None)).

End JupiterService.

(* ===================================================================== *)
(** * [localStorage] and the JSON text of the collection                  *)
(* ===================================================================== *)

Module Storage.

(** What [JSON.stringify] makes of a number: [NaN] becomes [null]. *)
Definition number_toJSON (n : number) : number :=
  match n with
  | NaN => Null
  | _ => n
  end.

Definition RouteStep_toJSON (r : RouteStep) : RouteStep :=
  mkRouteStep r.(swapInfo) (number_toJSON r.(percent)).

Definition JupiterQuote_toJSON (q : JupiterQuote) : JupiterQuote :=
  mkJupiterQuote q.(inputMint) q.(inAmount) q.(outputMint) q.(outAmount)
    q.(otherAmountThreshold) q.(swapMode) (number_toJSON q.(slippageBps))
    q.(platformFee) q.(priceImpactPct) (map RouteStep_toJSON q.(routePlan))
    (number_toJSON q.(contextSlot)) (number_toJSON q.(timeTaken)).

(** The order read back from its JSON text; a property that is
    [undefined] is left out of the text and is [undefined] again. *)
Definition Order_toJSON (o : Order) : Order :=
  mkOrder o.(id) o.(inputToken) o.(outputToken)
    (number_toJSON o.(inputAmount)) (number_toJSON o.(expectedOutputAmount))
    (option_map number_toJSON o.(actualOutputAmount)) o.(rate) o.(creator)
    o.(refundAddress) o.(liquidityProvider) o.(status)
    (number_toJSON o.(timestamp)) (JupiterQuote_toJSON o.(quote))
    o.(transactionSignature) o.(errorMessage)
    (number_toJSON o.(protocolFee)) o.(priceImpact).

(** A parsed JSON document, as far as the manager tells documents apart:
    [null]; an array of [[id, order]] pairs; any other document, on which
    [new Map(...)] raises.  Documents whose pairs do not hold orders are
    not represented. *)
Inductive Document : Type :=
| DocNull
| DocEntries (es : list (string * Order))
| DocOther.

(** A string handed to [JSON.parse].  A text is represented by the
    document it denotes: [JSON.parse(JSON.stringify(d))] gives [d] back
    for every document [d]. *)
Inductive Text : Type :=
| EmptyText
| Unparseable
| JSONText (d : Document).

Definition JSON_parse (t : Text) : res Document :=
  match t with
  | JSONText d => Ok d
  | _ => throw_new_Error "Unexpected end of JSON input"
  end.

(** [JSON.stringify] of an array of [[id, order]] pairs. *)
Definition JSON_stringify (es : list (string * Order)) : Text :=
  JSONText (DocEntries (map (fun kv => (fst kv, Order_toJSON (snd kv))) es)).

(** [new Map(doc)] *)
Definition new_Map (d : Document) : res (Map Order) :=
  match d with
  | DocNull => Ok Map_empty
  | DocEntries es => Ok (Map_of_entries es)
  | DocOther => throw_new_Error "object is not iterable"
  end.

(** [doc.length] *)
Definition length_of (d : Document) : res nat :=
  match d with
  | DocNull => throw_new_Error "Cannot read properties of null (reading 'length')"
  | DocEntries es => Ok (List.length es)
  | DocOther => Ok O
  end.

(** The browser: whether [window] is defined, the item stored under
    ['jupiter_orders'], and what [localStorage.setItem] does with a text:
    it raises when the storage does not take it, as on an exceeded quota. *)
Record Browser : Type := mkBrowser {
  window_defined : bool;
  jupiter_orders : option Text;
  setItem : Text -> res unit
}.

Definition truthy_text (t : Text) : bool :=
  match t with
  | EmptyText => false
  | _ => true
  end.

End Storage.
Import Storage.

(* ===================================================================== *)
(** * [src/services/orderManger.ts]                                       *)
(* ===================================================================== *)

Module OrderManager.

(** The fields of the class; the quote service is reached through the
    [World]. *)
Record Manager : Type := mkManager {
  orders : Map Order;
  protocolFeeBps : number;
  treasuryWallet : string;
  orderIdCounter : Z
}.

Definition State : Type := (Manager * Browser)%type.

(** A method: it reads and writes the state and returns or raises. *)
Definition M (A : Type) : Type := State -> res A * State.

Definition ret {A : Type} (a : A) : M A := fun s => (Ok a, s).

Definition bind {A B : Type} (c : M A) (k : A -> M B) : M B :=
  fun s =>
    match c s with
    | (Ok a, s') => k a s'
    | (Throw e, s') => (Throw e, s')
    end.

Definition throw {A : Type} (e : Error) : M A := fun s => (Throw e, s).

Definition lift {A : Type} (r : res A) : M A := fun s => (r, s).

(** [try { body } catch (error) { handler }]: the handler starts from the
    state the body left. *)
Definition try_catchM {A : Type} (body : M A) (handler : Error -> M A) : M A :=
  fun s =>
    match body s with
    | (Ok a, s') => (Ok a, s')
    | (Throw e, s') => handler e s'
    end.

Definition this : M Manager := fun s => (Ok (fst s), s).

Definition with_orders (m : Map Order) (mgr : Manager) : Manager :=
  mkManager m mgr.(protocolFeeBps) mgr.(treasuryWallet) mgr.(orderIdCounter).

Definition with_orderIdCounter (c : Z) (mgr : Manager) : Manager :=
  mkManager mgr.(orders) mgr.(protocolFeeBps) mgr.(treasuryWallet) c.

(** [this.orders = m] *)
Definition set_orders (m : Map Order) : M unit :=
  fun s => (Ok tt, (with_orders m (fst s), snd s)).

(** [this.orderIdCounter = c] *)
Definition set_orderIdCounter (c : Z) : M unit :=
  fun s => (Ok tt, (with_orderIdCounter c (fst s), snd s)).

Declare Scope method_scope.
Delimit Scope method_scope with method.
Notation "x <- c ;; k" := (bind c (fun x => k))
  (at level 61, c at next level, right associativity) : method_scope.
Notation "c ;;; k" := (bind c (fun _ => k))
  (at level 61, right associativity) : method_scope.
Local Open Scope method_scope.

(** An assignment [order.f = v] to the object stored under [orderId]:
    [this.orders.get] hands out the stored object itself, so the write
    is seen through the collection at once. *)
Definition assign (orderId : string) (f : Order -> Order) : M unit :=
  mgr <- this ;;
  match Map_get orderId mgr.(orders) with
  | Some order => set_orders (Map_set orderId (f order) mgr.(orders))
  | None => ret tt
  end.

(** [this.orders.set(orderId, order)] for the object already stored there. *)
Definition store_back (orderId : string) : M unit := assign orderId (fun o => o).

Definition persistOrders : M unit :=
  try_catchM
    (fun s =>
       if (snd s).(window_defined)
       then
         let ordersArray := Map_entries (fst s).(orders) in
         match (snd s).(setItem) (JSON_stringify ordersArray) with
         | Ok _ =>
             (Ok tt, (fst s, mkBrowser true (Some (JSON_stringify ordersArray))
                               (snd s).(setItem)))
         | Throw e => (Throw e, s)
         end
       else (Ok tt, s))
    (fun _ => ret tt).   (* the error is only logged *)

(** [c + 1] as a number: from [2 ** 53] on the sum is rounded, and at
    [2 ** 53] itself it is [c] again. *)
Definition incremented (c : Z) : Z := nearest_double (c + 1).

Definition generateOrderId (w : World) : M string :=
  mgr <- this ;;
  set_orderIdCounter (incremented mgr.(orderIdCounter)) ;;;
  mgr' <- this ;;
  ret ("order_" ++ Z_toString (Date_now w 0) ++ "_"
         ++ padStart 4 "0" (Z_toString mgr'.(orderIdCounter))).

Definition validateOrderParams (w : World) (params : OrderCreationParams)
    : res unit :=
  if negb (truthy_string params.(p_inputToken))
     || negb (truthy_string params.(p_outputToken))
  then throw_new_Error "Input and output tokens are required"
  else if String.eqb params.(p_inputToken) params.(p_outputToken)
  then throw_new_Error "Input and output tokens cannot be the same"
  else if negb (truthy_number params.(p_inputAmount))
          || number_le params.(p_inputAmount) (of_Z 0)
  then throw_new_Error "Input amount must be greater than 0"
  else if negb (truthy_string params.(p_liquidityProvider))
  then throw_new_Error "Liquidity provider address is required"
  else
    (_ <~ try_catch (new_PublicKey w params.(p_liquidityProvider))
            (fun _ => throw_new_Error "Invalid liquidity provider address") ;;
     if truthy_opt_string params.(p_refundAddress)
     then
       _ <~ try_catch
              (new_PublicKey w (or_string params.(p_refundAddress) EmptyString))
              (fun _ => throw_new_Error "Invalid refund address") ;;
       Ok tt
     else Ok tt)%res.

(** [userPublicKey] is [None] for a caller that passes [null], as a
    disconnected wallet's [publicKey] is: the TypeScript type does not
    keep it out at run time. *)
Definition createOrder (w : World) (params : OrderCreationParams)
    (userPublicKey : option PublicKey) : M string :=
  try_catchM
    (lift (validateOrderParams w params) ;;;
     mgr <- this ;;
     (if negb (truthy_string mgr.(treasuryWallet))
      then throw (mkError "Treasury wallet not configured")
      else ret tt) ;;;
     quote <- lift (JupiterService.getQuote w params.(p_inputToken)
                      params.(p_outputToken) params.(p_inputAmount)
                      (of_Z 50) (Some mgr.(protocolFeeBps))) ;;
     let protocolFee :=
       number_div (number_mul params.(p_inputAmount) mgr.(protocolFeeBps))
         (of_Z 10000) in
     orderId <- generateOrderId w ;;
     creator <- lift (match userPublicKey with
                      | Some pk => Ok pk.(toBase58)
                      | None => throw_new_Error
                                  "Cannot read properties of null (reading 'toString')"
                      end) ;;
     let order :=
       mkOrder orderId params.(p_inputToken) params.(p_outputToken)
         params.(p_inputAmount) (parseInt quote.(outAmount)) None
         (or_string params.(p_rate) "Market Rate")
         creator
         (or_string params.(p_refundAddress) creator)
         params.(p_liquidityProvider) PENDING (of_Z (Date_now w 1)) quote
         None None protocolFee quote.(priceImpactPct) in
     mgr' <- this ;;
     set_orders (Map_set orderId order mgr'.(orders)) ;;;
     persistOrders ;;;
     ret orderId)
    (fun error => throw (mkError ("Failed to create order: " ++ message error))).

Definition executeOrder (w : World) (orderId : string) (wallet : Wallet)
    : M unit :=
  mgr <- this ;;
  match Map_get orderId mgr.(orders) with
  | None => throw (mkError "Order not found")
  | Some order =>
      if negb (OrderStatus_eqb order.(status) PENDING)
      then throw (mkError ("Order is not in pending status. Current status: "
                             ++ OrderStatus_value order.(status)))
      else
        try_catchM
          (result <- lift (JupiterService.executeOrderSwap w wallet
                             (JupiterService.mkOrderSwapParams
                                order.(inputToken) order.(outputToken)
                                order.(inputAmount) order.(liquidityProvider)
                                mgr.(treasuryWallet) mgr.(protocolFeeBps))) ;;
           (if result.(success)
            then
              assign orderId (set_transactionSignature (Some result.(signature))) ;;;
              assign orderId
                (set_actualOutputAmount
                   (Some (if truthy_opt_string result.(outputAmount)
                          then parseInt (or_string result.(outputAmount) EmptyString)
                          else order.(expectedOutputAmount)))) ;;;
              assign orderId (set_status FULFILLED)
            else
              assign orderId (set_status FAILED) ;;;
              assign orderId
                (set_errorMessage
                   (Some (or_string result.(error) "Unknown execution error"))) ;;;
              throw (mkError (or_string result.(error) "Swap execution failed"))) ;;;
           store_back orderId ;;;
           persistOrders)
          (fun error =>
             assign orderId (set_status FAILED) ;;;
             assign orderId (set_errorMessage (Some (message error))) ;;;
             store_back orderId ;;;
             persistOrders ;;;
             throw error)
  end.

Definition cancelOrder (orderId : string) (userPublicKey : PublicKey) : M unit :=
  mgr <- this ;;
  match Map_get orderId mgr.(orders) with
  | None => throw (mkError "Order not found")
  | Some order =>
      if negb (String.eqb order.(creator) userPublicKey.(toBase58))
      then throw (mkError "Unauthorized: Only order creator can cancel")
      else if negb (OrderStatus_eqb order.(status) PENDING)
      then throw (mkError ("Cannot cancel order with status: "
                             ++ OrderStatus_value order.(status)))
      else
        assign orderId (set_status CANCELLED) ;;;
        store_back orderId ;;;
        persistOrders
  end.

Definition getOrder (orderId : string) (mgr : Manager) : option Order :=
  Map_get orderId mgr.(orders).

Definition updateOrderQuote (w : World) (orderId : string) : M unit :=
  mgr <- this ;;
  match Map_get orderId mgr.(orders) with
  | None => throw (mkError "Cannot update quote for non-pending order")
  | Some order =>
      if negb (OrderStatus_eqb order.(status) PENDING)
      then throw (mkError "Cannot update quote for non-pending order")
      else
        try_catchM
          (newQuote <- lift (JupiterService.getQuote w order.(inputToken)
                               order.(outputToken) order.(inputAmount)
                               (of_Z 50) (Some mgr.(protocolFeeBps))) ;;
           assign orderId (set_quote newQuote) ;;;
           assign orderId (set_expectedOutputAmount (parseInt newQuote.(outAmount))) ;;;
           assign orderId (set_priceImpact newQuote.(priceImpactPct)) ;;;
           store_back orderId ;;;
           persistOrders)
          (fun error => throw error)
  end.

(** [5 * 60 * 1000] *)
Definition QUOTE_EXPIRY_TIME : number := of_Z (5 * 60 * 1000).

Definition requires_attention (now : number) (order : Order) : bool :=
  if OrderStatus_eqb order.(status) FAILED then true
  else if OrderStatus_eqb order.(status) PENDING
          && number_gt (number_sub now order.(timestamp)) QUOTE_EXPIRY_TIME
  then true
  else false.

Definition getOrdersRequiringAttention (w : World) (mgr : Manager) : list Order :=
  let now := of_Z (Date_now w 0) in
  filter (requires_attention now) (Map_values mgr.(orders)).

(** The [id => parseInt(id.split('_')[2]) || 0] of [loadPersistedOrders]. *)
Definition id_suffix (id : string) : Z :=
  parseInt_or_0 (nth_error (split_on "_" id) 2).

Definition loadPersistedOrders : M unit :=
  try_catchM
    (fun s =>
       if (snd s).(window_defined)
       then
         match (snd s).(jupiter_orders) with
         | Some stored =>
             if truthy_text stored
             then
               (ordersArray <- lift (JSON_parse stored) ;;
                loaded <- lift (new_Map ordersArray) ;;
                set_orders loaded ;;;
                let maxId := Math_max_0 (map id_suffix (Map_keys loaded)) in
                set_orderIdCounter maxId) s
             else (Ok tt, s)
         | None => (Ok tt, s)
         end
       else (Ok tt, s))
    (fun _ => set_orders Map_empty).

(** [new OrderManager(rpcEndpoint, protocolFeeBps, treasuryWallet)] in a
    browser; the two last arguments default to [CONFIG]'s values. *)
Definition constructor (w : World) (protocolFeeBps : option number)
    (treasuryWallet : option string) (b : Browser) : State :=
  let fresh :=
    mkManager Map_empty
      (match protocolFeeBps with
       | Some f => f
       | None => w.(CONFIG).(PROTOCOL_FEE_BPS)
       end)
      (match treasuryWallet with
       | Some t => t
       | None => w.(CONFIG).(TREASURY_WALLET)
       end)
      0 in
  snd (loadPersistedOrders (fresh, b)).

Definition exportOrders (mgr : Manager) : Text :=
  JSON_stringify (Map_entries mgr.(orders)).

Definition importOrders (ordersJson : Text) : M unit :=
  try_catchM
    (ordersArray <- lift (JSON_parse ordersJson) ;;
     imported <- lift (new_Map ordersArray) ;;
     set_orders imported ;;;
     persistOrders ;;;
     _ <- lift (length_of ordersArray) ;;
     ret tt)
    (fun _ => throw (mkError "Invalid orders data format")).

Definition clearAllOrders : M unit :=
  set_orders Map_empty ;;;
  set_orderIdCounter 0 ;;;
  persistOrders.

(** ** Sequences of calls *)

(** The three mutators of an existing order. *)
Inductive Operation : Type :=
| ExecuteOrder (w : World) (orderId : string) (wallet : Wallet)
| CancelOrder (orderId : string) (userPublicKey : PublicKey)
| UpdateOrderQuote (w : World) (orderId : string).

Definition perform (op : Operation) : M unit :=
  match op with
  | ExecuteOrder w orderId wallet => executeOrder w orderId wallet
  | CancelOrder orderId userPublicKey => cancelOrder orderId userPublicKey
  | UpdateOrderQuote w orderId => updateOrderQuote w orderId
  end.

(** ** Calls that overlap

    An [async] method runs without interruption up to its [await] and,
    once the awaited promise has settled, from there to its end; in
    between, other calls run.  [executeOrder] and [updateOrderQuote] await
    once, after their check of the order and with the order object in
    hand; [cancelOrder] awaits nothing.  What the two write after the
    [await] they write to that object: it is the one stored under
    [orderId], since none of the three calls ever stores another object
    under an id in use. *)

(** A call that is waiting, with what its [await] will give it. *)
Inductive Suspended : Type :=
| awaiting_swap (orderId : string) (awaited : res TransactionResult)
| awaiting_quote (orderId : string) (awaited : res JupiterQuote).

(** [executeOrder] up to its [await]: the check, and the swap is under
    way with the order as it is now. *)
Definition executeOrder_begins (w : World) (orderId : string) (wallet : Wallet)
    (s : State) : res Suspended :=
  match Map_get orderId (fst s).(orders) with
  | None => Throw (mkError "Order not found")
  | Some order =>
      if negb (OrderStatus_eqb order.(status) PENDING)
      then Throw (mkError ("Order is not in pending status. Current status: "
                             ++ OrderStatus_value order.(status)))
      else
        Ok (awaiting_swap orderId
              (JupiterService.executeOrderSwap w wallet
                 (JupiterService.mkOrderSwapParams
                    order.(inputToken) order.(outputToken)
                    order.(inputAmount) order.(liquidityProvider)
                    (fst s).(treasuryWallet) (fst s).(protocolFeeBps))))
  end.

(** [executeOrder] from its [await] on: the status is not read again. *)
Definition executeOrder_resumes (orderId : string)
    (awaited : res TransactionResult) : M unit :=
  try_catchM
    (result <- lift awaited ;;
     (if result.(success)
      then
        assign orderId (set_transactionSignature (Some result.(signature))) ;;;
        assign orderId
          (fun order =>
             set_actualOutputAmount
               (Some (if truthy_opt_string result.(outputAmount)
                      then parseInt (or_string result.(outputAmount) EmptyString)
                      else order.(expectedOutputAmount)))
               order) ;;;
        assign orderId (set_status FULFILLED)
      else
        assign orderId (set_status FAILED) ;;;
        assign orderId
          (set_errorMessage
             (Some (or_string result.(error) "Unknown execution error"))) ;;;
        throw (mkError (or_string result.(error) "Swap execution failed"))) ;;;
     store_back orderId ;;;
     persistOrders)
    (fun error =>
       assign orderId (set_status FAILED) ;;;
       assign orderId (set_errorMessage (Some (message error))) ;;;
       store_back orderId ;;;
       persistOrders ;;;
       throw error).

Definition updateOrderQuote_begins (w : World) (orderId : string) (s : State)
    : res Suspended :=
  match Map_get orderId (fst s).(orders) with
  | None => Throw (mkError "Cannot update quote for non-pending order")
  | Some order =>
      if negb (OrderStatus_eqb order.(status) PENDING)
      then Throw (mkError "Cannot update quote for non-pending order")
      else
        Ok (awaiting_quote orderId
              (JupiterService.getQuote w order.(inputToken)
                 order.(outputToken) order.(inputAmount)
                 (of_Z 50) (Some (fst s).(protocolFeeBps))))
  end.

Definition updateOrderQuote_resumes (orderId : string)
    (awaited : res JupiterQuote) : M unit :=
  try_catchM
    (newQuote <- lift awaited ;;
     assign orderId (set_quote newQuote) ;;;
     assign orderId (set_expectedOutputAmount (parseInt newQuote.(outAmount))) ;;;
     assign orderId (set_priceImpact newQuote.(priceImpactPct)) ;;;
     store_back orderId ;;;
     persistOrders)
    (fun error => throw error).

Definition resume (c : Suspended) : M unit :=
  match c with
  | awaiting_swap orderId awaited => executeOrder_resumes orderId awaited
  | awaiting_quote orderId awaited => updateOrderQuote_resumes orderId awaited
  end.

(** What happens next: a call starts and runs to its [await] (to its end,
    for [cancelOrder]), or the [n]-th of the waiting calls resumes and
    runs to its end. *)
Inductive Event : Type :=
| Starts (op : Operation)
| Resumes (n : nat).

Fixpoint without_nth {A : Type} (n : nat) (l : list A) : list A :=
  match l, n with
  | [], _ => []
  | _ :: rest, O => rest
  | x :: rest, S n' => x :: without_nth n' rest
  end.

(** The manager with its storage, and the calls that are waiting. *)
Definition Running : Type := (State * list Suspended)%type.

(** The result is what the caller has got so far: the error, when the
    call raised; nothing yet, when it has just been suspended. *)
Definition happen (ev : Event) (st : Running) : res unit * Running :=
  match ev with
  | Starts (ExecuteOrder w orderId wallet) =>
      match executeOrder_begins w orderId wallet (fst st) with
      | Ok c => (Ok tt, (fst st, snd st ++ [c])%list)
      | Throw e => (Throw e, st)
      end
  | Starts (UpdateOrderQuote w orderId) =>
      match updateOrderQuote_begins w orderId (fst st) with
      | Ok c => (Ok tt, (fst st, snd st ++ [c])%list)
      | Throw e => (Throw e, st)
      end
  | Starts (CancelOrder orderId userPublicKey) =>
      (fst (cancelOrder orderId userPublicKey (fst st)),
       (snd (cancelOrder orderId userPublicKey (fst st)), snd st))
  | Resumes n =>
      match nth_error (snd st) n with
      | Some c =>
          (fst (resume c (fst st)),
           (snd (resume c (fst st)), without_nth n (snd st)))
      | None => (Ok tt, st)
      end
  end.

Definition happens (evs : list Event) (st : Running) : Running :=
  fold_left (fun st ev => snd (happen ev st)) evs st.

(** Calls made after a restart: the three mutators and [createOrder]. *)
Inductive Call : Type :=
| Create (w : World) (params : OrderCreationParams)
    (userPublicKey : option PublicKey)
| Mutate (op : Operation).

Definition call (c : Call) (s : State) : State :=
  match c with
  | Create w params userPublicKey => snd (createOrder w params userPublicKey s)
  | Mutate op => snd (perform op s)
  end.

Definition calls (cs : list Call) (s : State) : State :=
  fold_left (fun s c => call c s) cs s.

(** Everything that changes a manager: the four calls above,
    [importOrders] and [clearAllOrders]. *)
Inductive Request : Type :=
| Call_of (c : Call)
| ImportOrders (ordersJson : Text)
| ClearAllOrders.

Definition request (r : Request) (s : State) : State :=
  match r with
  | Call_of c => call c s
  | ImportOrders ordersJson => snd (importOrders ordersJson s)
  | ClearAllOrders => snd (clearAllOrders s)
  end.


End OrderManager.

(* ===================================================================== *)
(** * Vocabulary of the statements                                        *)
(* ===================================================================== *)

Module Spec.
Import OrderManager.

(** Strings made of the given characters only. *)
Fixpoint string_forall (P : ascii -> bool) (s : string) : bool :=
  match s with
  | EmptyString => true
  | String c s' => P c && string_forall P s'
  end.

Definition is_digit (c : ascii) : bool :=
  ((48 <=? N_of_ascii c) && (N_of_ascii c <=? 57))%N.

Definition not_underscore (c : ascii) : bool := negb (Ascii.eqb c "_").

(** The value an accumulator of [scan_digits] stands for. *)
Definition acc_value (acc : option N) : N :=
  match acc with
  | Some a => a
  | None => 0
  end.

(** The state once the stored order [orderId] has become [o]. *)
Definition updated (orderId : string) (o : Order) (s : State) : State :=
  (with_orders (Map_set orderId o (fst s).(orders)) (fst s), snd s).

(** What [persistOrders] leaves in the browser: the text of the
    collection, unless there is no [window] or the storage refuses it. *)
Definition persisted (s : State) : State :=
  if (snd s).(window_defined)
  then match (snd s).(setItem) (JSON_stringify (Map_entries (fst s).(orders))) with
       | Ok _ =>
           (fst s, mkBrowser true
                     (Some (JSON_stringify (Map_entries (fst s).(orders))))
                     (snd s).(setItem))
       | Throw _ => s
       end
  else s.


(** The three writes of [updateOrderQuote]. *)
Definition requote (q : JupiterQuote) (o : Order) : Order :=
  set_priceImpact q.(priceImpactPct)
    (set_expectedOutputAmount (parseInt q.(outAmount)) (set_quote q o)).

(** The argument [executeOrder] hands to [executeOrderSwap]. *)
Definition swap_params (mgr : Manager) (order : Order)
    : JupiterService.OrderSwapParams :=
  JupiterService.mkOrderSwapParams order.(inputToken) order.(outputToken)
    order.(inputAmount) order.(liquidityProvider)
    mgr.(treasuryWallet) mgr.(protocolFeeBps).

(** The writes of [executeOrder] on success and on failure. *)
Definition fulfilled_by (r : TransactionResult) (o : Order) : Order :=
  set_status FULFILLED
    (set_actualOutputAmount
       (Some (if truthy_opt_string r.(outputAmount)
              then parseInt (or_string r.(outputAmount) EmptyString)
              else o.(expectedOutputAmount)))
       (set_transactionSignature (Some r.(signature)) o)).

Definition failed_with (msg : string) (o : Order) : Order :=
  set_errorMessage (Some msg) (set_status FAILED o).

(** The two shapes of a [TransactionResult]. *)
Definition is_confirmation (sig : string) (r : TransactionResult) : Prop :=
  r.(signature) = sig /\ r.(success) = true /\ r.(error) = None.

Definition is_failure (r : TransactionResult) : Prop :=
  r.(signature) = EmptyString /\ r.(success) = false
  /\ exists msg, r.(error) = Some msg.

(** A failure whose [error] may be [undefined]: the one [executeSwap]
    reports when the wallet rejected with a value that has no [message]. *)
Definition is_rejection (r : TransactionResult) : Prop :=
  r.(signature) = EmptyString /\ r.(success) = false.

(** The wallet rejects the decoded transaction with [v]. *)
Definition wallet_rejects (w : World) (wallet : Wallet)
    (stx : SwapTransaction) (v : Thrown) : Prop :=
  exists tx,
    deserialize w stx.(swapTransaction) = Ok tx
    /\ wallet.(signTransaction) tx = rejects v.

(** Every stage of [executeSwap] went through: the payload decoded, the
    wallet signed, the network accepted the transaction and confirmed it
    with no execution error. *)
Definition swap_confirmed (w : World) (wallet : Wallet)
    (stx : SwapTransaction) (sig : string) : Prop :=
  exists tx signed,
    deserialize w stx.(swapTransaction) = Ok tx
    /\ wallet.(signTransaction) tx = resolves signed
    /\ sendTransaction w signed (mkSendOptions w.(CONFIG).(MAX_RETRIES) true)
       = Ok sig
    /\ confirmTransaction w
         (mkConfirmStrategy sig tx.(recentBlockhash) stx.(lastValidBlockHeight))
         "confirmed" = Ok None.

(** Every stage of [executeOrderSwap] went through, on the quote [q]
    fetched during the call. *)
Definition order_swap_confirmed (w : World) (wallet : Wallet)
    (p : JupiterService.OrderSwapParams) (q : JupiterQuote) (sig : string)
    : Prop :=
  JupiterService.getQuote w p.(JupiterService.os_inputMint)
    p.(JupiterService.os_outputMint) p.(JupiterService.os_inputAmount)
    w.(CONFIG).(DEFAULT_SLIPPAGE) (Some p.(JupiterService.os_platformFeeBps))
  = Ok q
  /\ exists inKey trKey feeAccount outKey lpKey lpAccount stx,
      new_PublicKey w p.(JupiterService.os_inputMint) = Ok inKey
      /\ new_PublicKey w p.(JupiterService.os_treasuryWallet) = Ok trKey
      /\ getAssociatedTokenAddress w inKey trKey = Ok feeAccount
      /\ new_PublicKey w p.(JupiterService.os_outputMint) = Ok outKey
      /\ new_PublicKey w p.(JupiterService.os_liquidityProvider) = Ok lpKey
      /\ getAssociatedTokenAddress w outKey lpKey = Ok lpAccount
      /\ JupiterService.createSwapTransaction w q wallet.(publicKey)
           (JupiterService.mkSwapOptions (Some feeAccount) (Some lpAccount)
              None None None) = Ok stx
      /\ swap_confirmed w wallet stx sig.

(** The stages of [executeOrderSwap] before [executeSwap] went through:
    the quote [q] was fetched and the transaction [stx] built from it. *)
Definition order_swap_built (w : World) (wallet : Wallet)
    (p : JupiterService.OrderSwapParams) (q : JupiterQuote)
    (stx : SwapTransaction) : Prop :=
  JupiterService.getQuote w p.(JupiterService.os_inputMint)
    p.(JupiterService.os_outputMint) p.(JupiterService.os_inputAmount)
    w.(CONFIG).(DEFAULT_SLIPPAGE) (Some p.(JupiterService.os_platformFeeBps))
  = Ok q
  /\ exists inKey trKey feeAccount outKey lpKey lpAccount,
      new_PublicKey w p.(JupiterService.os_inputMint) = Ok inKey
      /\ new_PublicKey w p.(JupiterService.os_treasuryWallet) = Ok trKey
      /\ getAssociatedTokenAddress w inKey trKey = Ok feeAccount
      /\ new_PublicKey w p.(JupiterService.os_outputMint) = Ok outKey
      /\ new_PublicKey w p.(JupiterService.os_liquidityProvider) = Ok lpKey
      /\ getAssociatedTokenAddress w outKey lpKey = Ok lpAccount
      /\ JupiterService.createSwapTransaction w q wallet.(publicKey)
           (JupiterService.mkSwapOptions (Some feeAccount) (Some lpAccount)
              None None None) = Ok stx.

(** The failure [executeOrderSwap] reports: it carries a message, unless
    the wallet rejected the built transaction with a value that has none. *)
Definition order_swap_failure (w : World) (wallet : Wallet)
    (p : JupiterService.OrderSwapParams) (r : TransactionResult) : Prop :=
  is_rejection r
  /\ (is_failure r
      \/ (r.(error) = None
          /\ exists q stx, order_swap_built w wallet p q stx
                           /\ wallet_rejects w wallet stx without_message)).

(** The identifier, the record and the state that [createOrder] produces
    from the quote it fetched. *)
Definition next_id (w : World) (mgr : Manager) : string :=
  "order_" ++ Z_toString (Date_now w 0) ++ "_"
    ++ padStart 4 "0" (Z_toString (incremented mgr.(orderIdCounter))).

Definition creation_quote (w : World) (params : OrderCreationParams)
    (mgr : Manager) : res JupiterQuote :=
  JupiterService.getQuote w params.(p_inputToken) params.(p_outputToken)
    params.(p_inputAmount) (of_Z 50) (Some mgr.(protocolFeeBps)).

Definition new_order (w : World) (params : OrderCreationParams)
    (userPublicKey : PublicKey) (mgr : Manager) (q : JupiterQuote) : Order :=
  mkOrder (next_id w mgr) params.(p_inputToken) params.(p_outputToken)
    params.(p_inputAmount) (parseInt q.(outAmount)) None
    (or_string params.(p_rate) "Market Rate")
    userPublicKey.(toBase58)
    (or_string params.(p_refundAddress) userPublicKey.(toBase58))
    params.(p_liquidityProvider) PENDING (of_Z (Date_now w 1)) q
    None None
    (number_div (number_mul params.(p_inputAmount) mgr.(protocolFeeBps))
       (of_Z 10000))
    q.(priceImpactPct).

Definition created (w : World) (params : OrderCreationParams)
    (userPublicKey : PublicKey) (q : JupiterQuote) (s : State) : State :=
  persisted
    (with_orders
       (Map_set (next_id w (fst s)) (new_order w params userPublicKey (fst s) q)
          (fst s).(orders))
       (with_orderIdCounter (incremented (fst s).(orderIdCounter)) (fst s)),
     snd s).

(** The state [createOrder] leaves when it raises after [generateOrderId]:
    the counter has moved, nothing is stored. *)
Definition advanced (s : State) : State :=
  (with_orderIdCounter (incremented (fst s).(orderIdCounter)) (fst s), snd s).

(** The largest count up to which every integer is a number of its own:
    [2 ** 53]. *)
Definition MAX_SAFE : Z := 2 ^ 53.

(** The call passes a key. *)
Definition has_key (c : Call) : Prop :=
  match c with
  | Create _ _ None => False
  | _ => True
  end.

(** The counter is at least the third component of every stored id. *)
Definition ids_bounded (mgr : Manager) : Prop :=
  0 <= mgr.(orderIdCounter)
  /\ forall k, In k (Map_keys mgr.(orders)) -> id_suffix k <= mgr.(orderIdCounter).



(** Numbers that [JSON.stringify] writes as they are. *)
Definition is_number (n : number) : bool :=
  match n with
  | NaN => false
  | _ => true
  end.

Definition quote_numbers (q : JupiterQuote) : bool :=
  is_number q.(slippageBps) && is_number q.(contextSlot)
  && is_number q.(timeTaken)
  && forallb (fun r => is_number r.(percent)) q.(routePlan).

(** No numeric property of the order is [NaN]. *)
Definition order_numbers (o : Order) : bool :=
  is_number o.(inputAmount) && is_number o.(expectedOutputAmount)
  && match o.(actualOutputAmount) with Some n => is_number n | None => true end
  && is_number o.(timestamp) && is_number o.(protocolFee)
  && quote_numbers o.(quote).

(** The order a waiting call will write to. *)
Definition waiting_on (c : Suspended) : string :=
  match c with
  | awaiting_swap orderId _ => orderId
  | awaiting_quote orderId _ => orderId
  end.

(** No waiting call will write to [orderId]. *)
Definition none_waiting_on (orderId : string) (cs : list Suspended) : Prop :=
  Forall (fun c => waiting_on c <> orderId) cs.

(** The order an operation acts on. *)
Definition target (op : Operation) : string :=
  match op with
  | ExecuteOrder _ orderId _ => orderId
  | CancelOrder orderId _ => orderId
  | UpdateOrderQuote _ orderId => orderId
  end.

End Spec.

(* ===================================================================== *)
(** * Sample data                                                         *)
(* ===================================================================== *)

Module Samples.
Import OrderManager.
Import Spec.

Definition SOL : string := "So11111111111111111111111111111111111111112".
Definition USDC : string := "EPjFWdd5AufqSSqeM2qN1xzybapC8G4wEGGkZwyTDt1v".
Definition alice : PublicKey :=
  mkPublicKey "9xQeWvG816bUx9EPjHmaT23yvVM2ZWbrrpZb9PusVFin".
Definition bob : PublicKey :=
  mkPublicKey "4Nd1mBQtrMJVYVfKf2PJy9NZUZdTAsp7D4xWLs4gDB4T".
Definition provider : string := "7dHbWXmci3dT8UFYWYZweBLXgycu7Y3iL6trKn1Y7ARj".
Definition treasury : string := "3Kz9QeBNqq3fPRmdvNm1Rz4xLGueDDxTr3DPT4cYmBhL".

Definition quote_of (out : string) : JupiterQuote :=
  mkJupiterQuote SOL "1000000" USDC out out "ExactIn" (of_Z 50) JNull "0.01"
    [mkRouteStep (mkSwapInfo "amm" "Orca" SOL USDC "1000000" out "25" SOL)
       (of_Z 100)]
    (of_Z 250000000) (Num (3 # 1000)).

Definition swap_payload : SwapTransaction :=
  mkSwapTransaction "AQAAAA==" (of_Z 260000000) (of_Z 5000) (of_Z 200000)
    JNull JNull JNull.

Definition config : Config :=
  mkConfig "https://api.devnet.solana.com" "https://lite-api.jup.ag/swap/v1"
    (of_Z 50) (of_Z 3) "veryHigh" (of_Z 100) treasury.

(** Addresses of 32 to 44 characters are accepted. *)
Definition accept_address (s : string) : res PublicKey :=
  if (32 <=? String.length s)%nat && (String.length s <=? 44)%nat
  then Ok (mkPublicKey s)
  else throw_new_Error "Invalid public key input".

(** A world where the quote service answers with [out] as output amount
    and the network reports [err] at confirmation. *)
Definition world (out : string) (err : option string) : World :=
  mkWorld config (fun n => 1700000000000 + Z.of_nat n)
    accept_address
    (fun mint owner => Ok (mkPublicKey (owner.(toBase58) ++ "/" ++ mint.(toBase58))))
    (fun _ => Ok (response_ok (Ok (quote_of out))))
    (fun _ => Ok (response_ok (Ok swap_payload)))
    (fun s =>
       Ok (mkVersionedTransaction "GHtXQBsoZHVnNFa9YevAzFr17DJjgHXk3ycTKD5xD3Zi" s))
    (fun _ _ => Ok "5VERv8NMvzbJMEkV8xnrLkEaWRtSz9CosKDYjCJjBRnb")
    (fun _ _ => Ok err).

Definition calm : World := world "2500000" None.
Definition reverting : World :=
  world "2500000" (Some "{InstructionError:[2,{Custom:6001}]}").
Definition garbled : World := world "n/a" None.

Definition wallet : Wallet := mkWallet (Some alice) (fun tx => resolves tx).

(** Wallets whose user turns the request down: the promise is rejected
    with nothing, with an [Error], or with a bare code. *)
Definition dismissive : Wallet := mkWallet (Some alice) (fun _ => rejects nullish).
Definition declining : Wallet :=
  mkWallet (Some alice)
    (fun _ => rejects (an_Error (mkError "User rejected the request."))).
Definition terse : Wallet :=
  mkWallet (Some alice) (fun _ => rejects without_message).

Definition params_of (amount : Z) : OrderCreationParams :=
  mkOrderCreationParams SOL USDC (of_Z amount) None provider None.

Definition browser : Browser := mkBrowser true None (fun _ => Ok tt).

(** The same browser once its storage takes nothing more. *)
Definition full (b : Browser) : Browser :=
  mkBrowser b.(window_defined) b.(jupiter_orders)
    (fun _ => throw_new_Error "The quota has been exceeded.").

Definition fresh : State := (mkManager Map_empty (of_Z 100) treasury 0, browser).

(** One order created, of one million units. *)
Definition one_pending : State :=
  snd (createOrder calm (params_of 1000000) (Some alice) fresh).
Definition first_id : string := "order_1700000000000_0001".

(** The same order in a browser whose storage is full. *)
Definition one_pending_full : State := (fst one_pending, full (snd one_pending)).

(** The same order once executed. *)
Definition one_fulfilled : State := snd (executeOrder calm first_id wallet one_pending).

(** An order whose quote carried an output amount that is not a number. *)
Definition one_garbled : State :=
  snd (createOrder garbled (params_of 1000000) (Some alice) fresh).

(** A browser holding a collection whose only id ends in [0005]. *)
Definition fifth_id : string := "order_1699999999999_0005".

Definition fifth_order : Order :=
  mkOrder fifth_id SOL USDC (of_Z 1000000) (of_Z 2500000) (Some (of_Z 2490000))
    "Market Rate" alice.(toBase58) alice.(toBase58) provider FULFILLED
    (of_Z 1699999999999) (quote_of "2500000")
    (Some "5VERv8NMvzbJMEkV8xnrLkEaWRtSz9CosKDYjCJjBRnb") None
    (of_Z 10000) "0.01".


(** A browser holding an order whose id carries the largest count that
    is a number of its own. *)
Definition last_id : string := "order_1700000000000_9007199254740992".
Definition stored_last : Browser :=
  mkBrowser true (Some (JSONText (DocEntries [(last_id, fifth_order)])))
    (fun _ => Ok tt).

End Samples.

(* ===================================================================== *)
(** * The rest of the order manager and of the quote client               *)
(* ===================================================================== *)

Module Arrays.

(** [a + b] on numbers, exact like the product and the quotient: the
    source's sum wherever the terms and the sum are whole numbers of
    magnitude at most [2 ** 53]. *)
Definition number_add (a b : number) : number :=
  match numeric a, numeric b with
  | Some x, Some y => Num (x + y)
  | _, _ => NaN
  end.

(** One step of a stable sort: [x], which came before the elements of
    [l], goes behind those it compares greater than.  A comparison that
    yields [NaN] counts as [0]. *)
Fixpoint insert_sorted {A : Type} (compare : A -> A -> number) (x : A)
    (l : list A) : list A :=
  match l with
  | [] => [x]
  | y :: l' =>
      if number_gt (compare x y) (of_Z 0)
      then y :: insert_sorted compare x l'
      else x :: l
  end.

(** [xs.sort(compare)].  The sort is stable, so a consistent comparison
    determines its result; with a comparison that is not consistent
    ECMAScript leaves the order open, and only the fact that the result
    is a permutation carries over. *)
Definition Array_sort {A : Type} (compare : A -> A -> number) (xs : list A)
    : list A :=
  fold_right (insert_sorted compare) [] xs.

(** [xs.reduce((sum, x) => sum + f(x), 0)] *)
Definition reduce_sum {A : Type} (f : A -> number) (xs : list A) : number :=
  fold_left (fun sum x => number_add sum (f x)) xs (of_Z 0).

End Arrays.
Import Arrays.

Module Listings.
Import OrderManager.

(** [(a, b) => b.timestamp - a.timestamp] *)
Definition newest_first (a b : Order) : number :=
  number_sub b.(timestamp) a.(timestamp).

Definition getUserOrders (userPublicKey : PublicKey) (mgr : Manager)
    : list Order :=
  let userAddress := userPublicKey.(toBase58) in
  Array_sort newest_first
    (filter (fun order => String.eqb order.(creator) userAddress)
       (Map_values mgr.(orders))).

Definition getAllOrders (mgr : Manager) : list Order :=
  Array_sort newest_first (Map_values mgr.(orders)).

Definition getOrdersByStatus (status : OrderStatus) (mgr : Manager)
    : list Order :=
  Array_sort newest_first
    (filter (fun order => OrderStatus_eqb order.(Types.status) status)
       (Map_values mgr.(orders))).

Record OrderStats : Type := mkOrderStats {
  total : nat;
  pending : nat;
  fulfilled : nat;
  failed : nat;
  cancelled : nat;
  totalVolume : number
}.

Definition has_status (st : OrderStatus) (o : Order) : bool :=
  OrderStatus_eqb o.(status) st.

Definition getOrderStats (mgr : Manager) : OrderStats :=
  let orders := Map_values mgr.(orders) in
  mkOrderStats
    (List.length orders)
    (List.length (filter (has_status PENDING) orders))
    (List.length (filter (has_status FULFILLED) orders))
    (List.length (filter (has_status FAILED) orders))
    (List.length (filter (has_status CANCELLED) orders))
    (reduce_sum inputAmount (filter (has_status FULFILLED) orders)).

Definition getTotalFeesCollected (mgr : Manager) : number :=
  reduce_sum protocolFee
    (filter (has_status FULFILLED) (Map_values mgr.(orders))).

(** The loop of [refreshPendingQuotes]: the [k]-th call of
    [updateOrderQuote] meets the world [ws k]; an error is logged and the
    loop goes on. *)
Fixpoint refresh_each (ws : nat -> World) (k : nat)
    (pendingOrders : list Order) : M unit :=
  match pendingOrders with
  | [] => ret tt
  | order :: rest =>
      bind (try_catchM (updateOrderQuote (ws k) order.(id)) (fun _ => ret tt))
        (fun _ => refresh_each ws (S k) rest)
  end.

Definition refreshPendingQuotes (ws : nat -> World) : M unit :=
  bind this (fun mgr => refresh_each ws O (getOrdersByStatus PENDING mgr)).

End Listings.

Module Balances.

(** The two balance look-ups of the network connection. *)
Record Connection : Type := mkConnection {
  getBalance : PublicKey -> res number;
  (** [getTokenAccountBalance(account)], read at [value.amount] *)
  getTokenAccountBalance : PublicKey -> res string
}.

Definition NATIVE_MINT : string := "So11111111111111111111111111111111111111112".

Definition getTokenBalance (w : World) (connection : Connection)
    (walletAddress tokenMint : PublicKey) : res number :=
  try_catch
    (if String.eqb tokenMint.(toBase58) NATIVE_MINT
     then getBalance connection walletAddress
     else
       tokenAccount <~ getAssociatedTokenAddress w tokenMint walletAddress ;;
       amount <~ getTokenAccountBalance connection tokenAccount ;;
       Ok (parseInt amount))
    (fun _ => Ok (of_Z 0)).

End Balances.

(* ===================================================================== *)
(** * Further vocabulary                                                  *)
(* ===================================================================== *)

Module Terms.
Import OrderManager.
Import Spec.
Import Listings.

(** The amount [validateOrderParams] lets through: a number above zero. *)
Definition positive_amount (n : number) : Prop :=
  exists a, n = Num a /\ (0 < a)%Q.

(** [new PublicKey(s)] does not raise. *)
Definition address_accepted (w : World) (s : string) : Prop :=
  exists key, new_PublicKey w s = Ok key.

(** A fee rate that [getQuote] forwards to the quote service. *)
Definition forwarded_fee (f : number) : bool :=
  truthy_number f && number_gt f (of_Z 0).

(** The query [createOrder] and [updateOrderQuote] send. *)
Definition pricing_query (inputToken outputToken : string) (amount fee : number)
    : QuoteQuery :=
  mkQuoteQuery inputToken outputToken amount (of_Z 50) "true"
    (if forwarded_fee fee then Some fee else None).

(** The counter equals the highest number carried by a stored id. *)
Definition counter_tight (mgr : Manager) : Prop :=
  mgr.(orderIdCounter) = Math_max_0 (map id_suffix (Map_keys mgr.(orders))).

(** The browser holds what [persistOrders] writes for this manager. *)
Definition in_sync (s : State) : Prop :=
  (snd s).(window_defined) = true
  /\ (snd s).(jupiter_orders)
     = Some (JSON_stringify (Map_entries (fst s).(orders))).

(** A new manager built over the browser of [s], with the fee rate and
    treasury of [s]. *)
Definition restart (w : World) (s : State) : State :=
  constructor w (Some (fst s).(protocolFeeBps)) (Some (fst s).(treasuryWallet))
    (snd s).

(** [b] is no newer than [a]. *)
Definition not_newer (a b : Order) : Prop :=
  number_le b.(timestamp) a.(timestamp) = true.

(** Two numbers with the same value. *)
Definition same_value (a b : number) : Prop :=
  match numeric a, numeric b with
  | Some x, Some y => (x == y)%Q
  | None, None => True
  | _, _ => False
  end.

(** The exact sum of the values [f] takes on a list, [None] when one of
    them is [NaN]. *)
Definition sumQ (f : Order -> number) (l : list Order) : option Q :=
  fold_right
    (fun o acc =>
       match numeric (f o), acc with
       | Some a, Some b => Some (a + b)%Q
       | _, _ => None
       end)
    (Some 0%Q) l.

(** The values [f] takes on [l] are whole numbers, none negative, that
    add up to [sum], at most [2 ** 53]: however they are added, every
    partial sum is a whole number that a [number] holds exactly. *)
Definition whole_sum (f : Order -> number) (l : list Order) (sum : Z) : Prop :=
  exists ns,
    Forall2 (fun o n => same_value (f o) (of_Z n) /\ 0 <= n) l ns
    /\ sum = fold_right Z.add 0 ns
    /\ sum <= MAX_SAFE.

Definition opt_Qeq (x y : option Q) : Prop :=
  match x, y with
  | Some a, Some b => (a == b)%Q
  | None, None => True
  | _, _ => False
  end.

(** [m'] is [m] with some pending orders requoted, and nothing else
    changed: same ids at the same places. *)
Definition requoted (m m' : Map Order) : Prop :=
  Forall2
    (fun kv kv' =>
       fst kv' = fst kv
       /\ (snd kv' = snd kv
           \/ ((snd kv).(status) = PENDING
               /\ exists q, snd kv' = requote q (snd kv))))
    m m'.

(** What a sweep of quote refreshes under [w] makes of an order: a pending
    order whose quote request succeeds takes the new quote, any other
    order stays as it is. *)
Definition refreshed_by (w : World) (mgr : Manager) (o : Order) : Order :=
  if OrderStatus_eqb o.(status) PENDING
  then match JupiterService.getQuote w o.(inputToken) o.(outputToken)
               o.(inputAmount) (of_Z 50) (Some mgr.(protocolFeeBps)) with
       | Ok q => requote q o
       | Throw _ => o
       end
  else o.

(** The collection once the order stored under [k], if any, has gone
    through [f]. *)
Definition Map_adjust (f : Order -> Order) (k : string) (m : Map Order)
    : Map Order :=
  match Map_get k m with
  | Some o => Map_set k (f o) m
  | None => m
  end.

(** Every order is stored under its own id. *)
Definition keyed_by_id (m : Map Order) : Prop :=
  forall k o, In (k, o) m -> o.(id) = k.

(** The largest count below which every integer is a JavaScript number:
    [2 ** 53]. *)
Definition MAX_EXACT : N := 9007199254740992.

(** A connection reporting five units of the native token and a token
    account of one and a half million base units. *)
Definition ledger : Balances.Connection :=
  Balances.mkConnection (fun _ => Ok (of_Z 5000000000))
    (fun _ => Ok "1500000").

(** A connection that cannot be reached. *)
Definition offline : Balances.Connection :=
  Balances.mkConnection (fun _ => throw_new_Error "failed to fetch")
    (fun _ => throw_new_Error "failed to fetch").

(** A world whose clock starts at the given time. *)
Definition at_time (t : Z) (w : World) : World :=
  mkWorld w.(CONFIG) (fun n => t + Z.of_nat n) w.(new_PublicKey)
    w.(getAssociatedTokenAddress) w.(fetch_quote) w.(fetch_swap)
    w.(deserialize) w.(sendTransaction) w.(confirmTransaction).

(** Three orders of two accounts, created a minute apart; the first has
    been executed, the last cancelled. *)
Definition busy : State :=
  calls
    [Create Samples.calm (Samples.params_of 1000000) (Some Samples.alice);
     Create (at_time 1700000060000 Samples.calm) (Samples.params_of 42)
       (Some Samples.bob);
     Create (at_time 1700000120000 Samples.calm) (Samples.params_of 7)
       (Some Samples.alice);
     Mutate (ExecuteOrder Samples.calm Samples.first_id Samples.wallet);
     Mutate (CancelOrder "order_1700000120000_0003" Samples.alice)]
    Samples.fresh.

End Terms.

(* ===================================================================== *)
(** * Facts about the runtime                                             *)
(* ===================================================================== *)

Import OrderManager.
Import Spec.
Local Open Scope method_scope.

Section MapFacts.

Context {V : Type}.
Implicit Types (m : Map V) (k : string) (v : V).

Lemma Map_get_set_same k v m : Map_get k (Map_set k v m) = Some v.
Proof.
  induction m as [|[k' v'] m IH]; simpl.
  - now rewrite String.eqb_refl.
  - destruct (String.eqb k k') eqn:E; simpl.
    + now rewrite String.eqb_refl.
    + now rewrite E.
Qed.

Lemma Map_get_set_other k k' v m :
  k' <> k -> Map_get k' (Map_set k v m) = Map_get k' m.
Proof.
  intros Hne. induction m as [|[k0 v0] m IH]; simpl.
  - destruct (String.eqb_spec k' k); [contradiction | reflexivity].
  - destruct (String.eqb_spec k k0) as [->|Hk]; simpl.
    + destruct (String.eqb_spec k' k0); [contradiction | reflexivity].
    + now rewrite IH.
Qed.

Lemma Map_set_set k v1 v2 m : Map_set k v2 (Map_set k v1 m) = Map_set k v2 m.
Proof.
  induction m as [|[k' v'] m IH]; simpl.
  - now rewrite String.eqb_refl.
  - destruct (String.eqb k k') eqn:E; simpl.
    + now rewrite String.eqb_refl.
    + now rewrite E, IH.
Qed.

Lemma Map_set_get_id k v m : Map_get k m = Some v -> Map_set k v m = m.
Proof.
  induction m as [|[k' v'] m IH]; simpl; [discriminate|].
  destruct (String.eqb_spec k k') as [->|Hk].
  - now intros [= ->].
  - intros H. now rewrite IH.
Qed.

Lemma Map_get_In k v m : Map_get k m = Some v -> In v (Map_values m).
Proof.
  induction m as [|[k' v'] m IH]; simpl; [discriminate|].
  destruct (String.eqb k k'); [intros [= ->]; now left | right; auto].
Qed.

Lemma Map_get_None k m : Map_get k m = None <-> ~ In k (Map_keys m).
Proof.
  induction m as [|[k' v'] m IH]; simpl.
  - tauto.
  - destruct (String.eqb_spec k k') as [->|Hk].
    + split; [discriminate | intros H; exfalso; apply H; now left].
    + rewrite IH. split.
      * intros H [E|E]; [congruence | tauto].
      * tauto.
Qed.

Lemma Map_keys_set_found k v v0 m :
  Map_get k m = Some v0 -> Map_keys (Map_set k v m) = Map_keys m.
Proof.
  induction m as [|[k' v'] m IH]; simpl; [discriminate|].
  destruct (String.eqb_spec k k') as [->|Hk]; intros H.
  - reflexivity.
  - unfold Map_keys in *. simpl. f_equal. exact (IH H).
Qed.

Lemma Map_keys_set_new k v m :
  Map_get k m = None -> Map_set k v m = (m ++ [(k, v)])%list.
Proof.
  induction m as [|[k' v'] m IH]; simpl; [reflexivity|].
  destruct (String.eqb k k'); [discriminate|].
  intros H. now rewrite IH.
Qed.

Lemma Map_keys_set_incl k v m k' :
  In k' (Map_keys m) -> In k' (Map_keys (Map_set k v m)).
Proof.
  induction m as [|[k0 v0] m IH]; simpl; [tauto|].
  destruct (String.eqb_spec k k0) as [->|Hk]; simpl; tauto.
Qed.

Lemma Map_keys_set_inv k v m k' :
  In k' (Map_keys (Map_set k v m)) -> k' = k \/ In k' (Map_keys m).
Proof.
  induction m as [|[k0 v0] m IH]; simpl.
  - intros [E|[]]; now left.
  - destruct (String.eqb_spec k k0) as [->|Hk]; simpl.
    + intros [E|E]; [now left | now right; right].
    + intros [E|E]; [now right; left |].
      destruct (IH E); [now left | now right; right].
Qed.

(** Entries with distinct keys are stored as they come. *)
Lemma fold_set_app (es : list (string * V)) m :
  NoDup (Map_keys (m ++ es)%list) ->
  fold_left (fun acc kv => Map_set (fst kv) (snd kv) acc) es m = (m ++ es)%list.
Proof.
  revert m. induction es as [|[k v] es IH]; intros m Hnd; simpl.
  - now rewrite app_nil_r.
  - assert (Hk : Map_get k m = None).
    { apply Map_get_None. unfold Map_keys in *. rewrite map_app in Hnd.
      simpl in Hnd. apply NoDup_remove_2 in Hnd.
      intros Hin. apply Hnd. apply in_or_app. now left. }
    rewrite (Map_keys_set_new k v m Hk).
    rewrite IH; rewrite <- app_assoc; simpl; auto.
Qed.

Lemma Map_of_entries_entries m :
  NoDup (Map_keys m) -> Map_of_entries (Map_entries m) = m.
Proof.
  intros H. unfold Map_of_entries, Map_entries, Map_empty.
  now rewrite fold_set_app.
Qed.

End MapFacts.

(* ===================================================================== *)
(** * Facts about the order manager                                       *)
(* ===================================================================== *)

Lemma OrderStatus_eqb_spec a b : reflect (a = b) (OrderStatus_eqb a b).
Proof. destruct a, b; simpl; constructor; congruence. Qed.

Lemma with_orders_with_orders m1 m2 mgr :
  with_orders m2 (with_orders m1 mgr) = with_orders m2 mgr.
Proof. reflexivity. Qed.

Lemma with_orders_same mgr : with_orders mgr.(orders) mgr = mgr.
Proof. now destruct mgr. Qed.

Lemma assign_found orderId f o s :
  Map_get orderId (fst s).(orders) = Some o ->
  assign orderId f s = (Ok tt, updated orderId (f o) s).
Proof.
  intros H. unfold assign, OrderManager.bind, this. simpl. now rewrite H.
Qed.

Lemma updated_get orderId o s :
  Map_get orderId (fst (updated orderId o s)).(orders) = Some o.
Proof. apply Map_get_set_same. Qed.

Lemma updated_updated orderId o1 o2 s :
  updated orderId o2 (updated orderId o1 s) = updated orderId o2 s.
Proof.
  unfold updated. simpl. now rewrite Map_set_set.
Qed.

Lemma updated_same orderId o s :
  Map_get orderId (fst s).(orders) = Some o -> updated orderId o s = s.
Proof.
  intros H. unfold updated. rewrite (Map_set_get_id _ _ _ H).
  rewrite with_orders_same. now destruct s.
Qed.

Lemma updated_get_other orderId other o s :
  other <> orderId ->
  Map_get other (fst (updated orderId o s)).(orders)
  = Map_get other (fst s).(orders).
Proof. intros H. apply Map_get_set_other, H. Qed.

(** A chain of assignments to the same stored order. *)
Lemma assign_updated orderId f o s :
  assign orderId f (updated orderId o s) = (Ok tt, updated orderId (f o) s).
Proof.
  rewrite (assign_found orderId f o) by apply updated_get.
  now rewrite updated_updated.
Qed.

Lemma store_back_updated orderId o s :
  store_back orderId (updated orderId o s) = (Ok tt, updated orderId o s).
Proof. unfold store_back. now rewrite assign_updated. Qed.

Lemma persistOrders_eq s : persistOrders s = (Ok tt, persisted s).
Proof.
  unfold persistOrders, persisted, try_catchM, ret.
  destruct (window_defined (snd s)); [|reflexivity].
  now destruct (setItem (snd s) _).
Qed.

Lemma persisted_manager s : fst (persisted s) = fst s.
Proof.
  unfold persisted. destruct (window_defined (snd s)); [|reflexivity].
  now destruct (setItem (snd s) _).
Qed.

Lemma persisted_window s :
  (snd s).(window_defined) = true ->
  (snd s).(setItem) (JSON_stringify (Map_entries (fst s).(orders))) = Ok tt ->
  (snd (persisted s)).(jupiter_orders)
  = Some (JSON_stringify (Map_entries (fst s).(orders))).
Proof. intros H Ha. unfold persisted. now rewrite H, Ha. Qed.

(** A write that the storage refuses, or that is not attempted for want
    of a [window], leaves the storage as it was. *)
Lemma persisted_refused s :
  (snd s).(window_defined) = false
  \/ (exists e,
        (snd s).(setItem) (JSON_stringify (Map_entries (fst s).(orders)))
        = Throw e) ->
  persisted s = s.
Proof.
  intros [H|[e H]]; unfold persisted; [now rewrite H|].
  destruct (window_defined (snd s)); [now rewrite H | reflexivity].
Qed.


(** ** [cancelOrder] *)

Lemma cancelOrder_ok orderId pk s order :
  Map_get orderId (fst s).(orders) = Some order ->
  order.(creator) = pk.(toBase58) ->
  order.(status) = PENDING ->
  cancelOrder orderId pk s
  = (Ok tt, persisted (updated orderId (set_status CANCELLED order) s)).
Proof.
  intros Hget Hc Hs. unfold cancelOrder, OrderManager.bind at 1, this.
  simpl. rewrite Hget, Hc, String.eqb_refl, Hs. simpl.
  unfold OrderManager.bind. rewrite (assign_found _ _ _ _ Hget).
  rewrite store_back_updated. apply persistOrders_eq.
Qed.

Lemma cancelOrder_unauthorized orderId pk s order :
  Map_get orderId (fst s).(orders) = Some order ->
  order.(creator) <> pk.(toBase58) ->
  cancelOrder orderId pk s
  = (Throw (mkError "Unauthorized: Only order creator can cancel"), s).
Proof.
  intros Hget Hc. unfold cancelOrder, OrderManager.bind, this. simpl.
  rewrite Hget. destruct (String.eqb_spec order.(creator) pk.(toBase58));
    [contradiction | reflexivity].
Qed.

Lemma cancelOrder_not_pending orderId pk s order :
  Map_get orderId (fst s).(orders) = Some order ->
  order.(creator) = pk.(toBase58) ->
  order.(status) <> PENDING ->
  cancelOrder orderId pk s
  = (Throw (mkError ("Cannot cancel order with status: "
                       ++ OrderStatus_value order.(status))), s).
Proof.
  intros Hget Hc Hs. unfold cancelOrder, OrderManager.bind, this. simpl.
  rewrite Hget, Hc, String.eqb_refl. simpl.
  destruct (OrderStatus_eqb_spec order.(status) PENDING);
    [contradiction | reflexivity].
Qed.

Lemma cancelOrder_refuses orderId pk s order :
  Map_get orderId (fst s).(orders) = Some order ->
  order.(status) <> PENDING ->
  exists e, cancelOrder orderId pk s = (Throw e, s).
Proof.
  intros Hget Hs.
  destruct (string_dec order.(creator) pk.(toBase58)) as [Hc|Hc].
  - eexists. now apply cancelOrder_not_pending with (order := order).
  - eexists. now apply cancelOrder_unauthorized with (order := order).
Qed.

Lemma cancelOrder_missing orderId pk s :
  Map_get orderId (fst s).(orders) = None ->
  cancelOrder orderId pk s = (Throw (mkError "Order not found"), s).
Proof.
  intros Hget. unfold cancelOrder, OrderManager.bind, this. simpl.
  now rewrite Hget.
Qed.

(** ** [updateOrderQuote] *)

Lemma updateOrderQuote_refuses w orderId s order :
  Map_get orderId (fst s).(orders) = Some order ->
  order.(status) <> PENDING ->
  updateOrderQuote w orderId s
  = (Throw (mkError "Cannot update quote for non-pending order"), s).
Proof.
  intros Hget Hs. unfold updateOrderQuote, OrderManager.bind, this. simpl.
  rewrite Hget.
  destruct (OrderStatus_eqb_spec order.(status) PENDING);
    [contradiction | reflexivity].
Qed.

Lemma updateOrderQuote_missing w orderId s :
  Map_get orderId (fst s).(orders) = None ->
  updateOrderQuote w orderId s
  = (Throw (mkError "Cannot update quote for non-pending order"), s).
Proof.
  intros Hget. unfold updateOrderQuote, OrderManager.bind, this. simpl.
  now rewrite Hget.
Qed.

Lemma updateOrderQuote_pending w orderId s order :
  Map_get orderId (fst s).(orders) = Some order ->
  order.(status) = PENDING ->
  updateOrderQuote w orderId s
  = match JupiterService.getQuote w order.(inputToken) order.(outputToken)
            order.(inputAmount) (of_Z 50) (Some (fst s).(protocolFeeBps)) with
    | Ok newQuote => (Ok tt, persisted (updated orderId (requote newQuote order) s))
    | Throw e => (Throw e, s)
    end.
Proof.
  intros Hget Hs. unfold updateOrderQuote, OrderManager.bind at 1, this. simpl.
  rewrite Hget, Hs. simpl. unfold try_catchM, OrderManager.bind, lift.
  destruct (JupiterService.getQuote _ _ _ _ _ _) as [q|e]; [|reflexivity].
  rewrite (assign_found _ _ _ _ Hget). rewrite !assign_updated.
  rewrite store_back_updated. now rewrite persistOrders_eq.
Qed.

(** ** [executeOrder] *)

Lemma executeOrder_refuses w orderId wallet s order :
  Map_get orderId (fst s).(orders) = Some order ->
  order.(status) <> PENDING ->
  executeOrder w orderId wallet s
  = (Throw (mkError ("Order is not in pending status. Current status: "
                       ++ OrderStatus_value order.(status))), s).
Proof.
  intros Hget Hs. unfold executeOrder, OrderManager.bind, this. simpl.
  rewrite Hget.
  destruct (OrderStatus_eqb_spec order.(status) PENDING);
    [contradiction | reflexivity].
Qed.

Lemma executeOrder_missing w orderId wallet s :
  Map_get orderId (fst s).(orders) = None ->
  executeOrder w orderId wallet s = (Throw (mkError "Order not found"), s).
Proof.
  intros Hget. unfold executeOrder, OrderManager.bind, this. simpl.
  now rewrite Hget.
Qed.

Lemma executeOrder_pending w orderId wallet s order :
  Map_get orderId (fst s).(orders) = Some order ->
  order.(status) = PENDING ->
  executeOrder w orderId wallet s
  = match JupiterService.executeOrderSwap w wallet (swap_params (fst s) order) with
    | Ok r =>
        if r.(success)
        then (Ok tt, persisted (updated orderId (fulfilled_by r order) s))
        else
          let msg := or_string r.(error) "Swap execution failed" in
          (Throw (mkError msg), persisted (updated orderId (failed_with msg order) s))
    | Throw e =>
        (Throw e, persisted (updated orderId (failed_with (message e) order) s))
    end.
Proof.
  intros Hget Hs. unfold executeOrder, OrderManager.bind at 1, this. simpl.
  rewrite Hget, Hs. simpl. fold (swap_params (fst s) order).
  unfold try_catchM, OrderManager.bind at 1, lift.
  destruct (JupiterService.executeOrderSwap _ _ _) as [r|e].
  - unfold OrderManager.bind at 1. destruct r.(success) eqn:Hok.
    + unfold OrderManager.bind.
      rewrite (assign_found _ _ _ _ Hget). rewrite !assign_updated.
      rewrite store_back_updated. now rewrite persistOrders_eq.
    + unfold OrderManager.bind, OrderManager.throw.
      rewrite (assign_found _ _ _ _ Hget). rewrite !assign_updated.
      rewrite store_back_updated. now rewrite persistOrders_eq.
  - unfold OrderManager.bind, OrderManager.throw.
    rewrite (assign_found _ _ _ _ Hget). rewrite !assign_updated.
    rewrite store_back_updated. now rewrite persistOrders_eq.
Qed.

(** ** One operation leaves every other order alone *)

(** An operation either leaves the state as it is, or writes its target
    order, which was stored, and persists the collection. *)
Lemma perform_effect op s :
  snd (perform op s) = s
  \/ exists order o',
       Map_get (target op) (fst s).(orders) = Some order
       /\ snd (perform op s) = persisted (updated (target op) o' s).
Proof.
  destruct op as [w orderId wallet | orderId pk | w orderId];
    cbn [perform target];
    (destruct (Map_get orderId (fst s).(orders)) as [order|] eqn:Hget;
     [destruct (OrderStatus_eqb_spec order.(status) PENDING) as [Hs|Hs]|]).
  - rewrite (executeOrder_pending _ _ _ _ _ Hget Hs). right. exists order.
    destruct (JupiterService.executeOrderSwap _ _ _) as [r|e];
      [destruct r.(success)|]; eexists; split; reflexivity.
  - left. now rewrite (executeOrder_refuses _ _ _ _ _ Hget Hs).
  - left. now rewrite (executeOrder_missing _ _ _ _ Hget).
  - destruct (string_dec order.(creator) pk.(toBase58)) as [Hc|Hc].
    + right. exists order. rewrite (cancelOrder_ok _ _ _ _ Hget Hc Hs).
      eexists; split; reflexivity.
    + left. now rewrite (cancelOrder_unauthorized _ _ _ _ Hget Hc).
  - left. destruct (cancelOrder_refuses orderId pk s order Hget Hs) as [e ->].
    reflexivity.
  - left. now rewrite (cancelOrder_missing _ _ _ Hget).
  - rewrite (updateOrderQuote_pending _ _ _ _ Hget Hs).
    destruct (JupiterService.getQuote _ _ _ _ _ _); [right | now left].
    exists order. eexists; split; reflexivity.
  - left. now rewrite (updateOrderQuote_refuses _ _ _ _ Hget Hs).
  - left. now rewrite (updateOrderQuote_missing _ _ _ Hget).
Qed.

Lemma persisted_updated_get orderId other o s :
  other <> orderId ->
  Map_get other (fst (persisted (updated orderId o s))).(orders)
  = Map_get other (fst s).(orders).
Proof.
  intros H. rewrite persisted_manager. now apply updated_get_other.
Qed.

Lemma perform_other op s other :
  other <> target op ->
  Map_get other (fst (snd (perform op s))).(orders)
  = Map_get other (fst s).(orders).
Proof.
  intros Hne. destruct (perform_effect op s) as [->|(order & o' & _ & ->)];
    [reflexivity | now apply persisted_updated_get].
Qed.

Lemma perform_refuses op s order :
  Map_get (target op) (fst s).(orders) = Some order ->
  order.(status) <> PENDING ->
  exists e, perform op s = (Throw e, s).
Proof.
  intros Hget Hs. destruct op as [w orderId wallet | orderId pk | w orderId];
    simpl in *.
  - eexists. now apply executeOrder_refuses with (order := order).
  - now apply cancelOrder_refuses with (order := order).
  - eexists. now apply updateOrderQuote_refuses with (order := order).
Qed.

Lemma perform_keeps_terminal op s orderId order :
  Map_get orderId (fst s).(orders) = Some order ->
  order.(status) <> PENDING ->
  Map_get orderId (fst (snd (perform op s))).(orders) = Some order.
Proof.
  intros Hget Hs. destruct (string_dec orderId (target op)) as [->|Hne].
  - destruct (perform_refuses op s order Hget Hs) as [e ->]. exact Hget.
  - now rewrite perform_other.
Qed.

(** ** Calls that overlap *)

Lemma executeOrder_resumes_found orderId awaited s order :
  Map_get orderId (fst s).(orders) = Some order ->
  executeOrder_resumes orderId awaited s
  = match awaited with
    | Ok r =>
        if r.(success)
        then (Ok tt, persisted (updated orderId (fulfilled_by r order) s))
        else
          let msg := or_string r.(error) "Swap execution failed" in
          (Throw (mkError msg), persisted (updated orderId (failed_with msg order) s))
    | Throw e =>
        (Throw e, persisted (updated orderId (failed_with (message e) order) s))
    end.
Proof.
  intros Hget. unfold executeOrder_resumes, try_catchM, OrderManager.bind at 1,
    lift.
  destruct awaited as [r|e].
  - unfold OrderManager.bind at 1. destruct r.(success) eqn:Hok.
    + unfold OrderManager.bind.
      rewrite (assign_found _ _ _ _ Hget). rewrite !assign_updated.
      rewrite store_back_updated. now rewrite persistOrders_eq.
    + unfold OrderManager.bind, OrderManager.throw.
      rewrite (assign_found _ _ _ _ Hget). rewrite !assign_updated.
      rewrite store_back_updated. now rewrite persistOrders_eq.
  - unfold OrderManager.bind, OrderManager.throw.
    rewrite (assign_found _ _ _ _ Hget). rewrite !assign_updated.
    rewrite store_back_updated. now rewrite persistOrders_eq.
Qed.

Lemma updateOrderQuote_resumes_found orderId awaited s order :
  Map_get orderId (fst s).(orders) = Some order ->
  updateOrderQuote_resumes orderId awaited s
  = match awaited with
    | Ok newQuote =>
        (Ok tt, persisted (updated orderId (requote newQuote order) s))
    | Throw e => (Throw e, s)
    end.
Proof.
  intros Hget. unfold updateOrderQuote_resumes, try_catchM, OrderManager.bind,
    lift.
  destruct awaited as [q|e]; [|reflexivity].
  rewrite (assign_found _ _ _ _ Hget). rewrite !assign_updated.
  rewrite store_back_updated. now rewrite persistOrders_eq.
Qed.

Lemma assign_missing orderId f (s : State) :
  Map_get orderId (fst s).(orders) = None -> assign orderId f s = (Ok tt, s).
Proof.
  intros H. unfold assign, OrderManager.bind, this, ret. simpl. now rewrite H.
Qed.

(** A resumed call whose order is not stored writes no order. *)
Lemma resume_missing c (s : State) :
  Map_get (waiting_on c) (fst s).(orders) = None ->
  fst (snd (resume c s)) = fst s.
Proof.
  intros Hid. destruct c as [id awaited | id awaited];
    cbn [waiting_on] in Hid; cbn [resume].
  - unfold executeOrder_resumes, try_catchM, lift, store_back,
      OrderManager.throw.
    destruct awaited as [r|e]; unfold OrderManager.bind; cbn beta iota;
      [destruct r.(success)|];
      repeat (rewrite (assign_missing id _ s Hid); cbn beta iota);
      rewrite ?persistOrders_eq; cbn [fst snd];
      now rewrite ?persisted_manager.
  - unfold updateOrderQuote_resumes, try_catchM, lift, store_back,
      OrderManager.throw.
    destruct awaited as [q|e]; unfold OrderManager.bind;
      repeat (rewrite (assign_missing id _ s Hid); cbn beta iota);
      rewrite ?persistOrders_eq; cbn [fst snd];
      now rewrite ?persisted_manager.
Qed.

(** A call that nothing interrupts is the method run in one go. *)
Lemma executeOrder_in_two_halves w orderId wallet s :
  executeOrder w orderId wallet s
  = match executeOrder_begins w orderId wallet s with
    | Ok c => resume c s
    | Throw e => (Throw e, s)
    end.
Proof.
  unfold executeOrder_begins.
  destruct (Map_get orderId (fst s).(orders)) as [order|] eqn:Hget;
    [|now rewrite (executeOrder_missing _ _ _ _ Hget)].
  destruct (OrderStatus_eqb_spec order.(status) PENDING) as [Hs|Hs].
  - cbn [negb resume].
    rewrite (executeOrder_pending _ _ _ _ _ Hget Hs).
    now rewrite (executeOrder_resumes_found _ _ _ _ Hget).
  - now rewrite (executeOrder_refuses _ _ _ _ _ Hget Hs).
Qed.

Lemma updateOrderQuote_in_two_halves w orderId s :
  updateOrderQuote w orderId s
  = match updateOrderQuote_begins w orderId s with
    | Ok c => resume c s
    | Throw e => (Throw e, s)
    end.
Proof.
  unfold updateOrderQuote_begins.
  destruct (Map_get orderId (fst s).(orders)) as [order|] eqn:Hget;
    [|now rewrite (updateOrderQuote_missing _ _ _ Hget)].
  destruct (OrderStatus_eqb_spec order.(status) PENDING) as [Hs|Hs].
  - cbn [negb resume].
    rewrite (updateOrderQuote_pending _ _ _ _ Hget Hs).
    now rewrite (updateOrderQuote_resumes_found _ _ _ _ Hget).
  - now rewrite (updateOrderQuote_refuses _ _ _ _ Hget Hs).
Qed.

(** A call on an order that has left [pending] raises at once. *)
Lemma happen_Starts_refuses op (st : Running) order :
  Map_get (target op) (fst (fst st)).(orders) = Some order ->
  order.(status) <> PENDING ->
  exists e, happen (Starts op) st = (Throw e, st).
Proof.
  intros Hget Hs. destruct op as [w orderId wallet | orderId pk | w orderId];
    cbn [target] in Hget; cbn [happen].
  - unfold executeOrder_begins. rewrite Hget.
    destruct (OrderStatus_eqb_spec order.(status) PENDING);
      [contradiction | eexists; reflexivity].
  - destruct (cancelOrder_refuses orderId pk (fst st) order Hget Hs) as [e ->].
    exists e. now destruct st.
  - unfold updateOrderQuote_begins. rewrite Hget.
    destruct (OrderStatus_eqb_spec order.(status) PENDING);
      [contradiction | eexists; reflexivity].
Qed.

Lemma happen_Starts_executeOrder_refuses w orderId wallet (st : Running) order :
  Map_get orderId (fst (fst st)).(orders) = Some order ->
  order.(status) <> PENDING ->
  happen (Starts (ExecuteOrder w orderId wallet)) st
  = (Throw (mkError ("Order is not in pending status. Current status: "
                       ++ OrderStatus_value order.(status))), st).
Proof.
  intros Hget Hs. cbn [happen]. unfold executeOrder_begins. rewrite Hget.
  destruct (OrderStatus_eqb_spec order.(status) PENDING);
    [contradiction | reflexivity].
Qed.

(** What a resumed call does to a stored order: nothing, when it is not
    the call's own; and it never makes it [pending]. *)
Lemma resume_effect c (s : State) orderId order :
  Map_get orderId (fst s).(orders) = Some order ->
  exists order',
    Map_get orderId (fst (snd (resume c s))).(orders) = Some order'
    /\ (order.(status) <> PENDING -> order'.(status) <> PENDING)
    /\ (waiting_on c <> orderId -> order' = order).
Proof.
  intros Hget.
  destruct (string_dec (waiting_on c) orderId) as [E|Hne].
  - destruct c as [id awaited | id awaited]; cbn [waiting_on] in E; subst id;
      cbn [resume].
    + rewrite (executeOrder_resumes_found _ _ _ _ Hget).
      destruct awaited as [r|e]; [destruct r.(success)|]; cbn [snd];
        rewrite persisted_manager, updated_get; eexists;
        (split; [reflexivity|]); (split; [|contradiction]);
        intros _; discriminate.
    + rewrite (updateOrderQuote_resumes_found _ _ _ _ Hget).
      destruct awaited as [q|e]; cbn [snd].
      * rewrite persisted_manager, updated_get. eexists.
        split; [reflexivity|]. split; [|contradiction]. now destruct order.
      * exists order. now repeat split.
  - exists order. split; [|now split].
    destruct c as [id awaited | id awaited]; cbn [waiting_on] in Hne;
      cbn [resume];
      (destruct (Map_get id (fst s).(orders)) as [o|] eqn:Hid).
    + rewrite (executeOrder_resumes_found _ _ _ _ Hid).
      destruct awaited as [r|e]; [destruct r.(success)|]; cbn [snd];
        rewrite persisted_updated_get; auto.
    + change (executeOrder_resumes id awaited)
        with (resume (awaiting_swap id awaited)).
      now rewrite (resume_missing (awaiting_swap id awaited) s Hid).
    + rewrite (updateOrderQuote_resumes_found _ _ _ _ Hid).
      destruct awaited as [q|e]; cbn [snd];
        [rewrite persisted_updated_get; auto | exact Hget].
    + change (updateOrderQuote_resumes id awaited)
        with (resume (awaiting_quote id awaited)).
      now rewrite (resume_missing (awaiting_quote id awaited) s Hid).
Qed.

Lemma without_nth_Forall {A : Type} (P : A -> Prop) n l :
  Forall P l -> Forall P (without_nth n l).
Proof.
  intros H. revert n. induction H as [|x l Hx Hl IH]; intros [|n];
    cbn [without_nth]; auto.
Qed.

(** One event and an order that has left [pending]. *)
Lemma happen_keeps_settled ev (st : Running) orderId order :
  Map_get orderId (fst (fst st)).(orders) = Some order ->
  order.(status) <> PENDING ->
  exists order',
    Map_get orderId (fst (fst (snd (happen ev st)))).(orders) = Some order'
    /\ order'.(status) <> PENDING
    /\ (none_waiting_on orderId (snd st) ->
        order' = order /\ none_waiting_on orderId (snd (snd (happen ev st)))).
Proof.
  intros Hget Hs. destruct ev as [op|n].
  - destruct (string_dec (target op) orderId) as [E|Hne].
    + subst orderId.
      destruct (happen_Starts_refuses op st order Hget Hs) as [e ->].
      exists order. cbn [snd]. now repeat split.
    + exists order.
      destruct op as [w id wallet | id pk | w id]; cbn [target] in Hne;
        cbn [happen].
      * destruct (executeOrder_begins w id wallet (fst st)) as [c|e] eqn:Hb;
          cbn [fst snd]; (split; [exact Hget|]); (split; [exact Hs|]);
          intros Hw; (split; [reflexivity|]); [|exact Hw].
        apply Forall_app. split; [exact Hw|]. constructor; [|constructor].
        unfold executeOrder_begins in Hb.
        destruct (Map_get id _); [|discriminate Hb].
        destruct (negb _); [discriminate Hb|]. now injection Hb as <-.
      * cbn [fst snd]. split.
        -- change (cancelOrder id pk) with (perform (CancelOrder id pk)).
           rewrite perform_other; [exact Hget | cbn [target]; congruence].
        -- split; [exact Hs|]. intros Hw. now split.
      * destruct (updateOrderQuote_begins w id (fst st)) as [c|e] eqn:Hb;
          cbn [fst snd]; (split; [exact Hget|]); (split; [exact Hs|]);
          intros Hw; (split; [reflexivity|]); [|exact Hw].
        apply Forall_app. split; [exact Hw|]. constructor; [|constructor].
        unfold updateOrderQuote_begins in Hb.
        destruct (Map_get id _); [|discriminate Hb].
        destruct (negb _); [discriminate Hb|]. now injection Hb as <-.
  - cbn [happen]. destruct (nth_error (snd st) n) as [c|] eqn:Hn.
    + cbn [fst snd].
      destruct (resume_effect c (fst st) orderId order Hget)
        as (order' & Hget' & Hs' & Hsame).
      exists order'. split; [exact Hget'|]. split; [now apply Hs'|].
      intros Hw. split; [|now apply without_nth_Forall].
      apply Hsame. unfold none_waiting_on in Hw.
      rewrite Forall_forall in Hw. apply Hw. now apply nth_error_In with n.
    + exists order. now repeat split.
Qed.

Lemma happens_keeps_settled evs (st : Running) orderId order :
  Map_get orderId (fst (fst st)).(orders) = Some order ->
  order.(status) <> PENDING ->
  exists order',
    Map_get orderId (fst (fst (happens evs st))).(orders) = Some order'
    /\ order'.(status) <> PENDING
    /\ (none_waiting_on orderId (snd st) ->
        order' = order /\ none_waiting_on orderId (snd (happens evs st))).
Proof.
  revert st order. induction evs as [|ev evs IH]; intros st order Hget Hs.
  - exists order. now repeat split.
  - destruct (happen_keeps_settled ev st orderId order Hget Hs)
      as (o1 & Hget1 & Hs1 & Hw1).
    destruct (IH (snd (happen ev st)) o1 Hget1 Hs1) as (o2 & Hget2 & Hs2 & Hw2).
    exists o2. cbn [happens fold_left]. split; [exact Hget2|].
    split; [exact Hs2|]. intros Hw.
    destruct (Hw1 Hw) as [-> Hw1']. now apply Hw2.
Qed.

(* ===================================================================== *)
(** * Facts about the quote and execution client                          *)
(* ===================================================================== *)

Lemma validateQuote_ok q :
  JupiterService.validateQuote q = Ok tt ->
  truthy_string q.(inputMint) = true /\ truthy_string q.(outputMint) = true
  /\ truthy_string q.(inAmount) = true /\ truthy_string q.(outAmount) = true.
Proof.
  unfold JupiterService.validateQuote.
  destruct (truthy_string q.(inputMint)), (truthy_string q.(outputMint)),
    (truthy_string q.(inAmount)), (truthy_string q.(outAmount));
    simpl; intros H; try discriminate; auto.
Qed.

(** A quote that [getQuote] returns has passed [validateQuote]. *)
Lemma getQuote_validated w i o a sl fee q :
  JupiterService.getQuote w i o a sl fee = Ok q ->
  JupiterService.validateQuote q = Ok tt.
Proof.
  unfold JupiterService.getQuote, try_catch, bind_res, throw_new_Error.
  destruct (JupiterService.toString_defined a); [|discriminate].
  destruct (JupiterService.toString_defined sl); [|discriminate].
  destruct (fetch_quote w _) as [[body|st body]|]; try discriminate.
  - destruct body as [q'|]; [|discriminate].
    destruct (JupiterService.validateQuote q') as [[]|] eqn:Hv; [|discriminate].
    now intros [= <-].
  - destruct body; discriminate.
Qed.

Lemma getQuote_outAmount w i o a sl fee q :
  JupiterService.getQuote w i o a sl fee = Ok q ->
  truthy_opt_string (Some q.(outAmount)) = true.
Proof.
  intros H. apply getQuote_validated, validateQuote_ok in H. simpl. tauto.
Qed.

Lemma executeSwap_confirmed w wallet stx sig :
  swap_confirmed w wallet stx sig ->
  JupiterService.executeSwap w wallet stx
  = Ok (mkTransactionResult sig true None None).
Proof.
  intros (tx & signed & Hd & Hs & Hsend & Hc).
  unfold JupiterService.executeSwap, try_catch_any, bind_settled, settled_of,
    bind_res.
  now rewrite Hd, Hs, Hsend, Hc.
Qed.

Lemma wallet_rejects_functional w wallet stx v1 v2 :
  wallet_rejects w wallet stx v1 -> wallet_rejects w wallet stx v2 -> v1 = v2.
Proof.
  intros (tx1 & A1 & B1) (tx2 & A2 & B2).
  assert (tx1 = tx2) by congruence; subst. congruence.
Qed.

Lemma wallet_rejects_unconfirmed w wallet stx v sig :
  wallet_rejects w wallet stx v -> ~ swap_confirmed w wallet stx sig.
Proof.
  intros (tx1 & A1 & B1) (tx2 & signed & A2 & B2 & _).
  assert (tx1 = tx2) by congruence; subst. congruence.
Qed.

(** [executeSwap] raises exactly when the wallet rejects with [null] or
    [undefined]: its handler then fails to read the message.  In every
    other case it returns: a confirmation exactly when all its stages went
    through, a failure otherwise, with the message of what was raised. *)
Lemma executeSwap_outcomes w wallet stx :
  (wallet_rejects w wallet stx nullish
   /\ JupiterService.executeSwap w wallet stx
      = throw_new_Error
          "Cannot read properties of undefined (reading 'message')")
  \/ (~ wallet_rejects w wallet stx nullish
      /\ exists r,
          JupiterService.executeSwap w wallet stx = Ok r
          /\ ((exists sig, swap_confirmed w wallet stx sig
                           /\ is_confirmation sig r)
              \/ ((forall sig, ~ swap_confirmed w wallet stx sig)
                  /\ is_rejection r
                  /\ (is_failure r
                      \/ (r.(error) = None
                          /\ wallet_rejects w wallet stx without_message))))).
Proof.
  unfold JupiterService.executeSwap, try_catch_any, bind_settled, settled_of,
    bind_res, throw_new_Error, swap_confirmed, wallet_rejects.
  destruct (deserialize w _) as [tx|e1] eqn:Hd.
  2:{ right. split; [intros (tx & H & _); congruence|].
      eexists; split; [reflexivity|]. right. split.
      - intros sig (tx & signed & H & _). congruence.
      - split; [now split|]. left. repeat split; simpl; eauto. }
  destruct (wallet.(signTransaction) tx) as [signed|[e2| |]] eqn:Hs.
  2:{ right. split; [intros (tx' & H1 & H2); congruence|].
      eexists; split; [reflexivity|]. right. split.
      - intros sig (tx' & signed & H1 & H2 & _). congruence.
      - split; [now split|]. left. repeat split; simpl; eauto. }
  2:{ left. split; [now exists tx | reflexivity]. }
  2:{ right. split; [intros (tx' & H1 & H2); congruence|].
      eexists; split; [reflexivity|]. right. split.
      - intros sig (tx' & signed & H1 & H2 & _). congruence.
      - split; [now split|]. right. split; [reflexivity | now exists tx]. }
  right. split; [intros (tx' & H1 & H2); congruence|].
  destruct (sendTransaction w signed _) as [sig|e3] eqn:Hsend.
  2:{ eexists; split; [reflexivity|]. right. split.
      - intros sig (tx' & signed' & H1 & H2 & H3 & _).
        assert (tx' = tx) by congruence; subst.
        assert (signed' = signed) by congruence; subst. congruence.
      - split; [now split|]. left. repeat split; simpl; eauto. }
  destruct (confirmTransaction w _ _) as [[err|]|e4] eqn:Hc.
  - eexists; split; [reflexivity|]. right. split.
    + intros sig' (tx' & signed' & H1 & H2 & H3 & H4).
      assert (tx' = tx) by congruence; subst.
      assert (signed' = signed) by congruence; subst.
      assert (sig' = sig) by congruence; subst. congruence.
    + split; [now split|]. left. repeat split; simpl; eauto.
  - eexists; split; [reflexivity|]. left. exists sig. split.
    + now exists tx, signed.
    + now repeat split.
  - eexists; split; [reflexivity|]. right. split.
    + intros sig' (tx' & signed' & H1 & H2 & H3 & H4).
      assert (tx' = tx) by congruence; subst.
      assert (signed' = signed) by congruence; subst.
      assert (sig' = sig) by congruence; subst. congruence.
    + split; [now split|]. left. repeat split; simpl; eauto.
Qed.

Lemma swap_confirmed_functional w wallet stx sig1 sig2 :
  swap_confirmed w wallet stx sig1 -> swap_confirmed w wallet stx sig2 ->
  sig1 = sig2.
Proof.
  intros (tx1 & s1 & A1 & B1 & C1 & _) (tx2 & s2 & A2 & B2 & C2 & _).
  assert (tx1 = tx2) by congruence; subst.
  assert (s1 = s2) by congruence; subst. congruence.
Qed.

Lemma executeOrderSwap_confirmed w wallet p q sig :
  order_swap_confirmed w wallet p q sig ->
  JupiterService.executeOrderSwap w wallet p
  = Ok (mkTransactionResult sig true None (Some q.(outAmount))).
Proof.
  intros (Hq & inKey & trKey & fee & outKey & lpKey & lp & stx
          & H1 & H2 & H3 & H4 & H5 & H6 & H7 & H8).
  unfold JupiterService.executeOrderSwap, try_catch, bind_res.
  rewrite Hq, H1, H2, H3, H4, H5, H6, H7.
  now rewrite (executeSwap_confirmed _ _ _ _ H8).
Qed.

Lemma order_swap_confirmed_functional w wallet p q1 q2 sig1 sig2 :
  order_swap_confirmed w wallet p q1 sig1 ->
  order_swap_confirmed w wallet p q2 sig2 ->
  q1 = q2 /\ sig1 = sig2.
Proof.
  intros H1 H2.
  pose proof (executeOrderSwap_confirmed _ _ _ _ _ H1) as E1.
  pose proof (executeOrderSwap_confirmed _ _ _ _ _ H2) as E2.
  destruct H1 as [Q1 _], H2 as [Q2 _]. split; congruence.
Qed.

Lemma order_swap_built_functional w wallet p q1 q2 stx1 stx2 :
  order_swap_built w wallet p q1 stx1 -> order_swap_built w wallet p q2 stx2 ->
  q1 = q2 /\ stx1 = stx2.
Proof.
  intros (Q1 & a1 & b1 & c1 & d1 & e1 & f1 & A1 & B1 & C1 & D1 & E1 & F1 & G1)
         (Q2 & a2 & b2 & c2 & d2 & e2 & f2 & A2 & B2 & C2 & D2 & E2 & F2 & G2).
  assert (q1 = q2) by congruence; subst.
  assert (a1 = a2) by congruence; subst.
  assert (b1 = b2) by congruence; subst.
  assert (c1 = c2) by congruence; subst.
  assert (d1 = d2) by congruence; subst.
  assert (e1 = e2) by congruence; subst.
  assert (f1 = f2) by congruence; subst.
  split; congruence.
Qed.

Lemma order_swap_confirmed_built w wallet p q sig :
  order_swap_confirmed w wallet p q sig
  <-> exists stx, order_swap_built w wallet p q stx
                  /\ swap_confirmed w wallet stx sig.
Proof.
  unfold order_swap_confirmed, order_swap_built. split.
  - intros (Q & a & b & c & d & e & f & stx & A & B & C & D & E & F & G & H).
    exists stx. split; [|exact H]. split; [exact Q|].
    now exists a, b, c, d, e, f.
  - intros (stx & (Q & a & b & c & d & e & f & A & B & C & D & E & F & G) & H).
    split; [exact Q|]. now exists a, b, c, d, e, f, stx.
Qed.

(** The stages before [executeSwap]: either the transaction is built, or
    [executeOrderSwap] reports the failure of the stage that raised. *)
Lemma executeOrderSwap_stages w wallet p :
  (exists q stx,
     order_swap_built w wallet p q stx
     /\ JupiterService.executeOrderSwap w wallet p
        = try_catch
            (result <~ JupiterService.executeSwap w wallet stx ;;
             Ok (mkTransactionResult result.(signature) result.(success)
                   result.(error) (Some q.(outAmount))))
            (fun error =>
               Ok (mkTransactionResult EmptyString false
                     (Some (message error)) None)))
  \/ ((forall q stx, ~ order_swap_built w wallet p q stx)
      /\ exists r, JupiterService.executeOrderSwap w wallet p = Ok r
                   /\ is_failure r).
Proof.
  unfold JupiterService.executeOrderSwap, try_catch, bind_res,
    order_swap_built.
  destruct (JupiterService.getQuote w _ _ _ _ _) as [q|e] eqn:Hq.
  2:{ right. split; [intros q' stx (H & _); congruence|].
      eexists; split; [reflexivity|]. repeat split; simpl; eauto. }
  destruct (new_PublicKey w p.(JupiterService.os_inputMint)) as [inKey|e] eqn:H1.
  2:{ right. split.
      - intros q' stx (_ & k1 & k2 & k3 & k4 & k5 & k6 & H & _). congruence.
      - eexists; split; [reflexivity|]. repeat split; simpl; eauto. }
  destruct (new_PublicKey w p.(JupiterService.os_treasuryWallet)) as [trKey|e] eqn:H2.
  2:{ right. split.
      - intros q' stx (_ & k1 & k2 & k3 & k4 & k5 & k6 & _ & H & _). congruence.
      - eexists; split; [reflexivity|]. repeat split; simpl; eauto. }
  destruct (getAssociatedTokenAddress w inKey trKey) as [fee|e] eqn:H3.
  2:{ right. split.
      - intros q' stx (_ & k1 & k2 & k3 & k4 & k5 & k6 & A & B & H & _).
        assert (k1 = inKey) by congruence; subst.
        assert (k2 = trKey) by congruence; subst. congruence.
      - eexists; split; [reflexivity|]. repeat split; simpl; eauto. }
  destruct (new_PublicKey w p.(JupiterService.os_outputMint)) as [outKey|e] eqn:H4.
  2:{ right. split.
      - intros q' stx (_ & k1 & k2 & k3 & k4 & k5 & k6 & _ & _ & _ & H & _).
        congruence.
      - eexists; split; [reflexivity|]. repeat split; simpl; eauto. }
  destruct (new_PublicKey w p.(JupiterService.os_liquidityProvider))
    as [lpKey|e] eqn:H5.
  2:{ right. split.
      - intros q' stx (_ & k1 & k2 & k3 & k4 & k5 & k6
                       & _ & _ & _ & _ & H & _). congruence.
      - eexists; split; [reflexivity|]. repeat split; simpl; eauto. }
  destruct (getAssociatedTokenAddress w outKey lpKey) as [lp|e] eqn:H6.
  2:{ right. split.
      - intros q' stx (_ & k1 & k2 & k3 & k4 & k5 & k6
                       & _ & _ & _ & A & B & H & _).
        assert (k4 = outKey) by congruence; subst.
        assert (k5 = lpKey) by congruence; subst. congruence.
      - eexists; split; [reflexivity|]. repeat split; simpl; eauto. }
  destruct (JupiterService.createSwapTransaction w q _ _) as [stx|e] eqn:H7.
  2:{ right. split.
      - intros q' stx (Q & k1 & k2 & k3 & k4 & k5 & k6
                       & A1 & A2 & A3 & A4 & A5 & A6 & H).
        assert (q' = q) by congruence; subst.
        assert (k1 = inKey) by congruence; subst.
        assert (k2 = trKey) by congruence; subst.
        assert (k3 = fee) by congruence; subst.
        assert (k4 = outKey) by congruence; subst.
        assert (k5 = lpKey) by congruence; subst.
        assert (k6 = lp) by congruence; subst. congruence.
      - eexists; split; [reflexivity|]. repeat split; simpl; eauto. }
  left. exists q, stx. split; [|reflexivity].
  split; [reflexivity|]. now exists inKey, trKey, fee, outKey, lpKey, lp.
Qed.

(** [executeOrderSwap] returns in every case, also when [executeSwap]
    raises: a confirmation exactly when every stage went through, a
    failure otherwise. *)
Lemma executeOrderSwap_returns w wallet p :
  exists r, JupiterService.executeOrderSwap w wallet p = Ok r
    /\ ((exists q sig, order_swap_confirmed w wallet p q sig
                       /\ is_confirmation sig r
                       /\ r.(outputAmount) = Some q.(outAmount))
        \/ ((forall q sig, ~ order_swap_confirmed w wallet p q sig)
            /\ order_swap_failure w wallet p r)).
Proof.
  unfold order_swap_failure.
  destruct (executeOrderSwap_stages w wallet p)
    as [(q & stx & Hb & ->) | (Hno & r & Hr & Hf)].
  2:{ exists r. split; [exact Hr|]. right. split.
      - intros q sig H. apply order_swap_confirmed_built in H as (stx & H & _).
        exact (Hno q stx H).
      - split; [destruct Hf as (A & B & _); now split | now left]. }
  assert (Hnot : (forall sig, ~ swap_confirmed w wallet stx sig) ->
                 forall q' sig', ~ order_swap_confirmed w wallet p q' sig').
  { intros Hn q' sig' H.
    apply order_swap_confirmed_built in H as (stx' & H & Hc).
    destruct (order_swap_built_functional _ _ _ _ _ _ _ Hb H) as [_ <-].
    exact (Hn sig' Hc). }
  unfold try_catch, bind_res.
  destruct (executeSwap_outcomes w wallet stx)
    as [[Hrej ->] | (_ & r & -> & [(sig & Hc & S1 & S2 & S3)
                                  | (Hn & [S1 S2] & Hshape)])].
  - eexists. split; [reflexivity|]. right. split.
    + apply Hnot. intros sig. now apply wallet_rejects_unconfirmed with (v := nullish).
    + split; [now split|]. left. repeat split; simpl; eauto.
  - eexists. split; [reflexivity|]. left. exists q, sig.
    split; [apply order_swap_confirmed_built; now exists stx|].
    now repeat split.
  - eexists. split; [reflexivity|]. right. split; [now apply Hnot|].
    split; [now split|].
    destruct Hshape as [(_ & _ & msg & Hm) | (Hm & Hrej)].
    + left. repeat split; simpl; eauto.
    + right. split; [exact Hm|]. now exists q, stx.
Qed.

(* ===================================================================== *)
(** * Facts about strings: digits, [split], [padStart], [parseInt]        *)
(* ===================================================================== *)

Lemma string_forall_app P a b :
  string_forall P (a ++ b) = string_forall P a && string_forall P b.
Proof.
  induction a as [|c a IH]; simpl; [reflexivity|].
  now rewrite IH, andb_assoc.
Qed.

Lemma string_forall_impl (P Q : ascii -> bool) s :
  (forall c, P c = true -> Q c = true) ->
  string_forall P s = true -> string_forall Q s = true.
Proof.
  intros HPQ. induction s as [|c s IH]; simpl; [reflexivity|].
  intros H. apply andb_true_iff in H as [H1 H2].
  now rewrite (HPQ c H1), IH.
Qed.

Lemma is_digit_cases c :
  is_digit c = true ->
  c = "0"%char \/ c = "1"%char \/ c = "2"%char \/ c = "3"%char \/ c = "4"%char
  \/ c = "5"%char \/ c = "6"%char \/ c = "7"%char \/ c = "8"%char \/ c = "9"%char.
Proof.
  destruct c as [[] [] [] [] [] [] [] []]; intros H;
    try discriminate H; tauto.
Qed.

(** Settle a goal about a digit character on each of the ten digits. *)
Ltac by_digit c H :=
  destruct (is_digit_cases c H) as [E|[E|[E|[E|[E|[E|[E|[E|[E|E]]]]]]]]];
  subst c; try split; reflexivity.

Lemma is_digit_not_underscore c : is_digit c = true -> not_underscore c = true.
Proof. intros H. by_digit c H. Qed.

Lemma digits_uint d : string_forall is_digit (NilEmpty.string_of_uint d) = true.
Proof. induction d; simpl; auto. Qed.

Lemma to_uint_nonnil n : N.to_uint n <> Nil.
Proof.
  destruct n; simpl; [discriminate|]. apply DecimalPos.Unsigned.to_uint_nonnil.
Qed.

Lemma N_toString_eq n : N_toString n = NilEmpty.string_of_uint (N.to_uint n).
Proof.
  unfold N_toString, NilZero.string_of_uint.
  pose proof (to_uint_nonnil n). now destruct (N.to_uint n).
Qed.

Lemma digits_N_toString n : string_forall is_digit (N_toString n) = true.
Proof. rewrite N_toString_eq. apply digits_uint. Qed.

Lemma N_toString_nonempty n : N_toString n <> EmptyString.
Proof.
  rewrite N_toString_eq. pose proof (to_uint_nonnil n).
  destruct (N.to_uint n); simpl; congruence.
Qed.

Lemma digits_repeat_zero k : string_forall is_digit (repeat_char "0" k) = true.
Proof. induction k; simpl; auto. Qed.

Lemma digits_padStart k s :
  string_forall is_digit s = true ->
  string_forall is_digit (padStart k "0" s) = true.
Proof.
  intros H. unfold padStart. now rewrite string_forall_app, digits_repeat_zero.
Qed.

Lemma no_underscore_Z_toString z :
  string_forall not_underscore (Z_toString z) = true.
Proof.
  unfold Z_toString. destruct (z <? 0); simpl;
    apply (string_forall_impl is_digit); auto using is_digit_not_underscore,
      digits_N_toString.
Qed.

(** ** [split] *)

Lemma split_on_nonempty sep s : split_on sep s <> [].
Proof.
  induction s as [|c s IH]; simpl; [discriminate|].
  destruct (Ascii.eqb c sep); [discriminate|].
  destruct (split_on sep s); [contradiction | discriminate].
Qed.

Lemma split_on_none s :
  string_forall not_underscore s = true -> split_on "_" s = [s].
Proof.
  induction s as [|c s IH]; simpl; [reflexivity|].
  intros H. apply andb_true_iff in H as [Hc Hs]. unfold not_underscore in Hc.
  apply negb_true_iff in Hc. rewrite Hc, (IH Hs). reflexivity.
Qed.

Lemma split_on_piece a rest :
  string_forall not_underscore a = true ->
  split_on "_" (a ++ String "_" rest) = a :: split_on "_" rest.
Proof.
  induction a as [|c a IH]; simpl; [reflexivity|].
  intros H. apply andb_true_iff in H as [Hc Hs]. unfold not_underscore in Hc.
  apply negb_true_iff in Hc. rewrite Hc, (IH Hs). reflexivity.
Qed.

(** ** [parseInt] on strings of digits *)

Lemma digit_value_10 c :
  is_digit c = true -> digit_value 10 c = Some (N_of_ascii c - 48)%N.
Proof. intros H. by_digit c H. Qed.

Lemma scan_digits_digit c s acc :
  is_digit c = true ->
  scan_digits 10 (String c s) acc
  = scan_digits 10 s (Some (10 * acc_value acc + (N_of_ascii c - 48))%N).
Proof.
  intros H. cbn [scan_digits]. rewrite (digit_value_10 c H).
  now destruct acc.
Qed.

Lemma scan_digits_uint d acc :
  d <> Nil ->
  scan_digits 10 (NilEmpty.string_of_uint d) acc
  = Some (DecimalPos.Unsigned.of_lu (rev d)
          + acc_value acc * 10 ^ DecimalPos.Unsigned.usize d)%N.
Proof.
  revert acc. induction d; intros acc Hd; [congruence | ..];
    cbn [NilEmpty.string_of_uint];
    rewrite scan_digits_digit by reflexivity;
    match goal with
    | |- context [(N_of_ascii ?c - 48)%N] =>
        let k := eval vm_compute in (N_of_ascii c - 48)%N in
        change (N_of_ascii c - 48)%N with k
    end;
    (destruct (uint_eq_dec d Nil) as [->|Hne];
     [ cbn [NilEmpty.string_of_uint scan_digits]; f_equal;
       unfold rev;
       cbn [revapp DecimalPos.Unsigned.of_lu DecimalPos.Unsigned.usize acc_value];
       rewrite N.pow_succ_r', N.pow_0_r; lia
     | rewrite (IHd _ Hne); f_equal;
       match goal with
       | |- context [rev (?c d)] =>
           change (rev (c d)) with (revapp d (c Nil));
           rewrite (DecimalPos.Unsigned.of_lu_revapp d (c Nil))
       end;
       cbn [acc_value DecimalPos.Unsigned.of_lu DecimalPos.Unsigned.usize];
       rewrite N.pow_succ_r'; ring ]).
Qed.

Lemma scan_digits_N_toString n acc :
  scan_digits 10 (N_toString n) acc
  = Some (n + acc_value acc * 10 ^ DecimalPos.Unsigned.usize (N.to_uint n))%N.
Proof.
  rewrite N_toString_eq, scan_digits_uint by apply to_uint_nonnil.
  rewrite <- DecimalPos.Unsigned.of_uint_alt.
  change (Pos.of_uint (N.to_uint n)) with (N.of_uint (N.to_uint n)).
  now rewrite DecimalN.Unsigned.of_to.
Qed.

Lemma scan_digits_padded k n acc :
  acc_value acc = 0%N ->
  scan_digits 10 (repeat_char "0" k ++ N_toString n) acc = Some n.
Proof.
  revert acc. induction k as [|k IH]; intros acc Hacc.
  - cbn [repeat_char append]. rewrite scan_digits_N_toString, Hacc. f_equal. lia.
  - cbn [repeat_char append]. rewrite scan_digits_digit by reflexivity.
    apply IH. rewrite Hacc. reflexivity.
Qed.

Lemma is_digit_not_space c : is_digit c = true -> is_white_space c = false.
Proof. intros H. by_digit c H. Qed.

Lemma is_digit_not_sign c :
  is_digit c = true -> Ascii.eqb c "-" = false /\ Ascii.eqb c "+" = false.
Proof. intros H. by_digit c H. Qed.

Lemma is_digit_not_x c :
  is_digit c = true -> Ascii.eqb c "x" || Ascii.eqb c "X" = false.
Proof. intros H. by_digit c H. Qed.

(** On a string of decimal digits [parseInt] reads all of it in base 10. *)
Lemma parseIntZ_digits s :
  string_forall is_digit s = true ->
  parseIntZ s = option_map Z.of_N (scan_digits 10 s None).
Proof.
  intros H. unfold parseIntZ.
  destruct s as [|c0 s]; [reflexivity|].
  cbn [string_forall] in H. apply andb_true_iff in H as [H0 Hs].
  cbn [trim_start]. rewrite (is_digit_not_space c0 H0).
  cbn [strip_sign]. destruct (is_digit_not_sign c0 H0) as [-> ->].
  assert (Hx : strip_hex_prefix (String c0 s) = (10%N, String c0 s)).
  { destruct s as [|c1 s]; [reflexivity|].
    cbn [string_forall] in Hs. apply andb_true_iff in Hs as [H1 _].
    cbn [strip_hex_prefix]. rewrite (is_digit_not_x c1 H1).
    now rewrite andb_false_r. }
  rewrite Hx. now destruct (scan_digits 10 (String c0 s) None).
Qed.

(** [parseInt] undoes [toString().padStart(4, '0')]. *)
Lemma parseIntZ_padStart k n :
  parseIntZ (padStart k "0" (N_toString n)) = Some (Z.of_N n).
Proof.
  rewrite parseIntZ_digits by apply digits_padStart, digits_N_toString.
  unfold padStart. now rewrite scan_digits_padded.
Qed.

Lemma Z_toString_nonneg z : 0 <= z -> Z_toString z = N_toString (Z.to_N z).
Proof.
  intros H. unfold Z_toString. destruct (Z.ltb_spec z 0); [lia|].
  f_equal. lia.
Qed.

(** The identifier [generateOrderId] builds, and its third component. *)
Lemma split_order_id now c :
  0 <= c ->
  split_on "_" ("order_" ++ Z_toString now ++ "_" ++ padStart 4 "0" (Z_toString c))
  = ["order"; Z_toString now; padStart 4 "0" (Z_toString c)].
Proof.
  intros Hc.
  change ("order_" ++ Z_toString now ++ "_" ++ padStart 4 "0" (Z_toString c))
    with ("order" ++ String "_"
            (Z_toString now ++ String "_" (padStart 4 "0" (Z_toString c)))).
  rewrite split_on_piece by reflexivity.
  rewrite split_on_piece by apply no_underscore_Z_toString.
  rewrite split_on_none; [reflexivity|].
  apply (string_forall_impl is_digit); [apply is_digit_not_underscore|].
  rewrite Z_toString_nonneg by assumption.
  apply digits_padStart, digits_N_toString.
Qed.

(** Up to [2 ** 53] an integer is a number of its own. *)
Lemma nearest_double_small z : Z.abs z <= 2 ^ 53 -> nearest_double z = z.
Proof.
  intros H. unfold nearest_double. cbv zeta.
  destruct (Z.ltb_spec (Z.abs z) (2 ^ 53)) as [|Hge]; [reflexivity|].
  assert (Hz : z = 2 ^ 53 \/ z = - 2 ^ 53) by lia.
  destruct Hz as [-> | ->]; vm_compute; reflexivity.
Qed.

Lemma incremented_small c : 0 <= c < MAX_SAFE -> incremented c = c + 1.
Proof.
  unfold MAX_SAFE, incremented. intros H. apply nearest_double_small. lia.
Qed.

Lemma id_suffix_order_id now c :
  0 <= c <= MAX_SAFE ->
  id_suffix ("order_" ++ Z_toString now ++ "_" ++ padStart 4 "0" (Z_toString c))
  = c.
Proof.
  unfold MAX_SAFE. intros Hc. unfold id_suffix.
  rewrite split_order_id by apply Hc.
  cbn [nth_error parseInt_or_0].
  rewrite Z_toString_nonneg by apply Hc.
  rewrite parseIntZ_padStart. rewrite nearest_double_small by lia. lia.
Qed.



(* ===================================================================== *)
(** * Facts about creation, identifiers and the restart                   *)
(* ===================================================================== *)

Lemma createOrder_eq w params key s :
  createOrder w params key s
  = match validateOrderParams w params with
    | Throw e => (Throw (mkError ("Failed to create order: " ++ message e)), s)
    | Ok _ =>
        if truthy_string (fst s).(treasuryWallet)
        then match creation_quote w params (fst s) with
             | Ok q =>
                 match key with
                 | Some pk => (Ok (next_id w (fst s)), created w params pk q s)
                 | None =>
                     (Throw (mkError
                        "Failed to create order: Cannot read properties of null (reading 'toString')"),
                      advanced s)
                 end
             | Throw e =>
                 (Throw (mkError ("Failed to create order: " ++ message e)), s)
             end
        else (Throw (mkError
                       "Failed to create order: Treasury wallet not configured"), s)
    end.
Proof.
  unfold createOrder, try_catchM, OrderManager.bind at 1, lift.
  destruct (validateOrderParams w params) as [[]|e]; [|reflexivity].
  unfold OrderManager.bind at 1, this. cbn [fst snd].
  unfold OrderManager.bind at 1.
  destruct (truthy_string (fst s).(treasuryWallet)); cbn [negb];
    [|reflexivity].
  unfold ret at 1, OrderManager.bind at 1, lift, creation_quote.
  destruct (JupiterService.getQuote _ _ _ _ _ _) as [q|e]; [|reflexivity].
  unfold generateOrderId, OrderManager.bind, this, set_orderIdCounter,
    set_orders, ret. cbn [fst snd].
  destruct key as [pk|]; [|reflexivity].
  rewrite persistOrders_eq. reflexivity.
Qed.

Lemma created_counter w params pk q s :
  (fst (created w params pk q s)).(orderIdCounter)
  = incremented (fst s).(orderIdCounter).
Proof. unfold created. now rewrite persisted_manager. Qed.

Lemma created_orders w params pk q s :
  (fst (created w params pk q s)).(orders)
  = Map_set (next_id w (fst s)) (new_order w params pk (fst s) q) (fst s).(orders).
Proof. unfold created. now rewrite persisted_manager. Qed.

Lemma id_suffix_next_id w mgr :
  0 <= mgr.(orderIdCounter) < MAX_SAFE ->
  id_suffix (next_id w mgr) = mgr.(orderIdCounter) + 1.
Proof.
  intros H. unfold next_id. rewrite incremented_small by assumption.
  apply id_suffix_order_id. lia.
Qed.

(** Under the bound, and below [2 ** 53], the next identifier is not in
    the collection. *)
Lemma next_id_fresh w mgr :
  ids_bounded mgr -> mgr.(orderIdCounter) < MAX_SAFE ->
  ~ In (next_id w mgr) (Map_keys mgr.(orders)).
Proof.
  intros [H0 Hb] Hmax Hin. specialize (Hb _ Hin).
  rewrite id_suffix_next_id in Hb by lia. lia.
Qed.

Lemma created_bounded w params pk q s :
  ids_bounded (fst s) -> (fst s).(orderIdCounter) < MAX_SAFE ->
  ids_bounded (fst (created w params pk q s)).
Proof.
  intros [H0 Hb] Hmax. split.
  - rewrite created_counter, incremented_small by lia. lia.
  - intros k Hk. rewrite created_counter, incremented_small by lia.
    rewrite created_orders in Hk.
    apply Map_keys_set_inv in Hk as [->|Hk].
    + rewrite id_suffix_next_id by lia. lia.
    + specialize (Hb _ Hk). lia.
Qed.

Lemma advanced_bounded s :
  ids_bounded (fst s) -> (fst s).(orderIdCounter) < MAX_SAFE ->
  ids_bounded (fst (advanced s)).
Proof.
  intros [H0 Hb] Hmax. unfold advanced.
  split; cbn [fst orderIdCounter orders with_orderIdCounter];
    rewrite incremented_small by lia; [lia|].
  intros k Hk. specialize (Hb _ Hk). lia.
Qed.

(** What a call of [createOrder] does to the counter: it stays, or it
    moves up by one. *)
Lemma createOrder_counter w params key s :
  0 <= (fst s).(orderIdCounter) < MAX_SAFE ->
  (fst (snd (createOrder w params key s))).(orderIdCounter)
  = (fst s).(orderIdCounter)
  \/ (fst (snd (createOrder w params key s))).(orderIdCounter)
     = (fst s).(orderIdCounter) + 1.
Proof.
  intros H. rewrite createOrder_eq.
  destruct (validateOrderParams w params) as [[]|e]; [|now left].
  destruct (truthy_string _); [|now left].
  destruct (creation_quote w params (fst s)); [|now left].
  right. destruct key as [pk|]; cbn [snd].
  - now rewrite created_counter, incremented_small.
  - unfold advanced. cbn [fst orderIdCounter with_orderIdCounter].
    now apply incremented_small.
Qed.

Lemma createOrder_bounded w params key s :
  ids_bounded (fst s) -> (fst s).(orderIdCounter) < MAX_SAFE ->
  ids_bounded (fst (snd (createOrder w params key s))).
Proof.
  intros H Hmax. rewrite createOrder_eq.
  destruct (validateOrderParams w params) as [[]|e]; [|exact H].
  destruct (truthy_string _); [|exact H].
  destruct (creation_quote w params (fst s)); [|exact H].
  destruct key as [pk|]; [now apply created_bounded | now apply advanced_bounded].
Qed.

Lemma createOrder_keeps_keys w params key s k :
  In k (Map_keys (fst s).(orders)) ->
  In k (Map_keys (fst (snd (createOrder w params key s))).(orders)).
Proof.
  intros H. rewrite createOrder_eq.
  destruct (validateOrderParams w params) as [[]|e]; [|exact H].
  destruct (truthy_string _); [|exact H].
  destruct (creation_quote w params (fst s)); [|exact H].
  destruct key as [pk|]; [|exact H].
  cbn [snd]. rewrite created_orders. now apply Map_keys_set_incl.
Qed.

(** The three mutators change neither the keys nor the counter. *)
Lemma persisted_updated_keys orderId o o0 s :
  Map_get orderId (fst s).(orders) = Some o0 ->
  Map_keys (fst (persisted (updated orderId o s))).(orders)
  = Map_keys (fst s).(orders)
  /\ (fst (persisted (updated orderId o s))).(orderIdCounter)
     = (fst s).(orderIdCounter).
Proof.
  intros H. rewrite persisted_manager. split; [|reflexivity].
  unfold updated. cbn [fst orders with_orders].
  now apply Map_keys_set_found with (v0 := o0).
Qed.

Lemma perform_keys_counter op s :
  Map_keys (fst (snd (perform op s))).(orders) = Map_keys (fst s).(orders)
  /\ (fst (snd (perform op s))).(orderIdCounter) = (fst s).(orderIdCounter).
Proof.
  destruct (perform_effect op s) as [->|(order & o' & Hget & ->)];
    [now split | now apply persisted_updated_keys with (o0 := order)].
Qed.

Lemma call_counter c s :
  0 <= (fst s).(orderIdCounter) < MAX_SAFE ->
  (fst s).(orderIdCounter) <= (fst (call c s)).(orderIdCounter)
  <= (fst s).(orderIdCounter) + 1.
Proof.
  intros H. destruct c as [w params key | op]; cbn [call].
  - destruct (createOrder_counter w params key s H) as [-> | ->]; lia.
  - destruct (perform_keys_counter op s) as [_ ->]. lia.
Qed.

Lemma call_bounded c s :
  ids_bounded (fst s) -> (fst s).(orderIdCounter) < MAX_SAFE ->
  ids_bounded (fst (call c s)).
Proof.
  intros H Hmax. destruct c as [w params key | op]; cbn [call].
  - now apply createOrder_bounded.
  - destruct (perform_keys_counter op s) as [Hk Hc].
    destruct H as [H0 Hb]. split; rewrite Hc; [assumption|].
    intros k Hin. rewrite Hk in Hin. auto.
Qed.

Lemma call_keeps_keys c s k :
  In k (Map_keys (fst s).(orders)) -> In k (Map_keys (fst (call c s)).(orders)).
Proof.
  intros H. destruct c as [w params key | op]; cbn [call].
  - now apply createOrder_keeps_keys.
  - destruct (perform_keys_counter op s) as [Hk _]. now rewrite Hk.
Qed.

(** As long as the counter at the start and the number of calls stay
    together below [2 ** 53], the bound holds all along and the counter
    never moves down. *)
Lemma calls_bounded cs s :
  ids_bounded (fst s) ->
  (fst s).(orderIdCounter) + Z.of_nat (List.length cs) < MAX_SAFE ->
  ids_bounded (fst (calls cs s))
  /\ (fst s).(orderIdCounter) <= (fst (calls cs s)).(orderIdCounter)
     <= (fst s).(orderIdCounter) + Z.of_nat (List.length cs).
Proof.
  revert s. induction cs as [|c cs IH]; intros s H Hmax.
  - cbn [calls fold_left List.length] in *. split; [exact H | lia].
  - cbn [List.length] in Hmax. rewrite Nat2Z.inj_succ in Hmax.
    assert (H0 : 0 <= (fst s).(orderIdCounter) < MAX_SAFE)
      by (destruct H as [H0 _]; lia).
    pose proof (call_counter c s H0) as Hc.
    destruct (IH (call c s)) as [Hb Hm];
      [apply call_bounded; [exact H | lia] | lia |].
    change (calls (c :: cs) s) with (calls cs (call c s)).
    split; [exact Hb|]. cbn [List.length]. rewrite Nat2Z.inj_succ. lia.
Qed.

Lemma calls_keep_keys cs s k :
  In k (Map_keys (fst s).(orders)) -> In k (Map_keys (fst (calls cs s)).(orders)).
Proof.
  revert s. induction cs as [|c cs IH]; intros s H; [exact H|].
  apply IH, call_keeps_keys, H.
Qed.

(** ** [loadPersistedOrders] *)



(* ===================================================================== *)
(** * Facts about the JSON text of the collection                         *)
(* ===================================================================== *)

Lemma number_toJSON_number n : is_number n = true -> number_toJSON n = n.
Proof. now destruct n. Qed.

Lemma RouteStep_toJSON_number r :
  is_number r.(percent) = true -> RouteStep_toJSON r = r.
Proof.
  intros H. unfold RouteStep_toJSON. rewrite number_toJSON_number by assumption.
  now destruct r.
Qed.

Lemma JupiterQuote_toJSON_numbers q :
  quote_numbers q = true -> JupiterQuote_toJSON q = q.
Proof.
  unfold quote_numbers. rewrite !andb_true_iff. intros [[[H1 H2] H3] H4].
  unfold JupiterQuote_toJSON. rewrite !number_toJSON_number by assumption.
  assert (Hr : map RouteStep_toJSON q.(routePlan) = q.(routePlan)).
  { induction q.(routePlan) as [|r rs IH]; [reflexivity|].
    cbn [forallb] in H4. apply andb_true_iff in H4 as [Hr Hrs].
    cbn [map]. now rewrite RouteStep_toJSON_number, IH. }
  rewrite Hr. now destruct q.
Qed.

Lemma Order_toJSON_numbers o : order_numbers o = true -> Order_toJSON o = o.
Proof.
  unfold order_numbers. rewrite !andb_true_iff.
  intros [[[[[H1 H2] H3] H4] H5] H6].
  unfold Order_toJSON. rewrite !number_toJSON_number by assumption.
  rewrite JupiterQuote_toJSON_numbers by assumption.
  assert (Ha : option_map number_toJSON o.(actualOutputAmount)
               = o.(actualOutputAmount)).
  { destruct o.(actualOutputAmount); [|reflexivity].
    cbn [option_map]. now rewrite number_toJSON_number. }
  rewrite Ha. now destruct o.
Qed.

Lemma entries_toJSON_numbers (m : Map Order) :
  forallb order_numbers (Map_values m) = true ->
  map (fun kv => (fst kv, Order_toJSON (snd kv))) m = m.
Proof.
  induction m as [|[k o] m IH]; [reflexivity|].
  cbn [Map_values map forallb snd fst]. intros H.
  apply andb_true_iff in H as [Ho Hm].
  rewrite Order_toJSON_numbers by assumption. f_equal. now apply IH.
Qed.

Lemma importOrders_entries es s :
  importOrders (JSONText (DocEntries es)) s
  = (Ok tt, persisted (with_orders (Map_of_entries es) (fst s), snd s)).
Proof.
  unfold importOrders, try_catchM, OrderManager.bind, lift, set_orders.
  cbn [JSON_parse new_Map length_of fst snd]. now rewrite persistOrders_eq.
Qed.

(* ===================================================================== *)
(** * Facts about numbers                                                 *)
(* ===================================================================== *)

Lemma number_gt_integers a t c :
  number_gt (number_sub (of_Z a) (of_Z t)) (of_Z c) = true <-> a - t > c.
Proof.
  unfold number_gt, number_sub, of_Z. cbn [numeric].
  rewrite negb_true_iff, <- not_true_iff_false, Qle_bool_iff.
  unfold Qminus. rewrite <- inject_Z_opp, <- inject_Z_plus, <- Zle_Qle. lia.
Qed.


Lemma Qdiv_10000_integer x :
  (exists k : Z, (x / inject_Z 10000 == inject_Z k)%Q)
  <-> exists k : Z, (x == inject_Z (10000 * k))%Q.
Proof.
  split; intros [k Hk]; exists k.
  - rewrite inject_Z_mult, <- Hk. field.
  - rewrite Hk, inject_Z_mult. field.
Qed.

(* ===================================================================== *)
(** * The properties                                                      *)
(* ===================================================================== *)

Import Samples.

(** ** Fee accounting *)




(** ** The state machine *)

(** C2 does not hold of calls that overlap.  [executeOrder] checks the
    status before its [await] and writes it after, without a second look.
    An order that its creator cancels while the swap is under way is
    [cancelled] when [cancelOrder] returns and [fulfilled] once the swap
    has settled; and of two executions started one on top of the other,
    the second marks [failed] the order that the first has [fulfilled]. *)
Theorem suspended_execution_overwrites_the_status :
  let begun := happens [Starts (ExecuteOrder calm first_id wallet)]
                 (one_pending, []) in
  let cancelled := happens [Starts (CancelOrder first_id alice)] begun in
  let settled := happens [Resumes 0] cancelled in
  let twice := happens [Starts (ExecuteOrder calm first_id wallet);
                        Starts (ExecuteOrder reverting first_id wallet)]
                 (one_pending, []) in
  let first_done := happens [Resumes 0] twice in
  let second_done := happens [Resumes 0] first_done in
  (fst (happen (Starts (CancelOrder first_id alice)) begun) = Ok tt
   /\ option_map status (Map_get first_id (fst (fst cancelled)).(orders))
      = Some CANCELLED
   /\ fst (happen (Resumes 0) cancelled) = Ok tt
   /\ option_map status (Map_get first_id (fst (fst settled)).(orders))
      = Some FULFILLED)
  /\ (option_map status (Map_get first_id (fst (fst first_done)).(orders))
      = Some FULFILLED
      /\ option_map status (Map_get first_id (fst (fst second_done)).(orders))
         = Some FAILED).
Proof.
  cbv zeta. repeat split; vm_compute; reflexivity.
Qed.

(** C5: on a stored order, [cancelOrder] succeeds exactly when the caller
    is its creator and its status is [pending], and then only the status
    changes (to [cancelled]).  A caller who is not the creator gets the
    authorization error; the creator of an order that is not pending gets
    the invalid-state error; whenever the call fails the state, hence
    every field of the order, is unchanged.  (The creator is checked
    first.) *)
Theorem cancelOrder_outcomes (orderId : string) (userPublicKey : PublicKey)
    (s : State) (order : Order) :
  Map_get orderId (fst s).(orders) = Some order ->
  (order.(creator) = userPublicKey.(toBase58) -> order.(status) = PENDING ->
     cancelOrder orderId userPublicKey s
     = (Ok tt, persisted (updated orderId (set_status CANCELLED order) s)))
  /\ (order.(creator) <> userPublicKey.(toBase58) ->
        cancelOrder orderId userPublicKey s
        = (Throw (mkError "Unauthorized: Only order creator can cancel"), s))
  /\ (order.(creator) = userPublicKey.(toBase58) -> order.(status) <> PENDING ->
        cancelOrder orderId userPublicKey s
        = (Throw (mkError ("Cannot cancel order with status: "
                             ++ OrderStatus_value order.(status))), s))
  /\ ((exists s', cancelOrder orderId userPublicKey s = (Ok tt, s'))
      <-> order.(creator) = userPublicKey.(toBase58) /\ order.(status) = PENDING)
  /\ (forall e s', cancelOrder orderId userPublicKey s = (Throw e, s') -> s' = s).
Proof.
  intros Hget. split; [|split; [|split; [|split]]].
  - now apply cancelOrder_ok.
  - now apply cancelOrder_unauthorized.
  - now apply cancelOrder_not_pending.
  - split.
    + intros [s' H].
      destruct (string_dec order.(creator) userPublicKey.(toBase58)) as [Hc|Hc].
      * destruct (OrderStatus_eqb_spec order.(status) PENDING) as [Hs|Hs];
          [now split|].
        rewrite (cancelOrder_not_pending _ _ _ _ Hget Hc Hs) in H. discriminate.
      * rewrite (cancelOrder_unauthorized _ _ _ _ Hget Hc) in H. discriminate.
    + intros [Hc Hs]. eexists. exact (cancelOrder_ok _ _ _ _ Hget Hc Hs).
  - intros e s' H.
    destruct (string_dec order.(creator) userPublicKey.(toBase58)) as [Hc|Hc].
    + destruct (OrderStatus_eqb_spec order.(status) PENDING) as [Hs|Hs].
      * rewrite (cancelOrder_ok _ _ _ _ Hget Hc Hs) in H. discriminate.
      * rewrite (cancelOrder_not_pending _ _ _ _ Hget Hc Hs) in H. congruence.
    + rewrite (cancelOrder_unauthorized _ _ _ _ Hget Hc) in H. congruence.
Qed.

Lemma cancelOrder_outcomes_witness :
  (exists s', cancelOrder first_id alice one_pending = (Ok tt, s')
              /\ option_map status (Map_get first_id (fst s').(orders))
                 = Some CANCELLED)
  /\ cancelOrder first_id bob one_pending
     = (Throw (mkError "Unauthorized: Only order creator can cancel"), one_pending)
  /\ cancelOrder first_id alice one_fulfilled
     = (Throw (mkError "Cannot cancel order with status: fulfilled"), one_fulfilled).
Proof.
  destruct (Map_get first_id (fst one_pending).(orders)) as [o1|] eqn:E1;
    [|vm_compute in E1; discriminate E1].
  destruct (Map_get first_id (fst one_fulfilled).(orders)) as [o2|] eqn:E2;
    [|vm_compute in E2; discriminate E2].
  assert (C1 : o1.(creator) = alice.(toBase58))
    by (vm_compute in E1; injection E1 as <-; reflexivity).
  assert (S1 : o1.(status) = PENDING)
    by (vm_compute in E1; injection E1 as <-; reflexivity).
  assert (C2 : o2.(creator) = alice.(toBase58))
    by (vm_compute in E2; injection E2 as <-; reflexivity).
  assert (S2 : o2.(status) = FULFILLED)
    by (vm_compute in E2; injection E2 as <-; reflexivity).
  destruct (cancelOrder_outcomes first_id alice one_pending o1 E1) as (A & _).
  destruct (cancelOrder_outcomes first_id bob one_pending o1 E1) as (_ & B & _).
  destruct (cancelOrder_outcomes first_id alice one_fulfilled o2 E2)
    as (_ & _ & C & _).
  split; [|split].
  - eexists. split; [apply A; assumption|].
    rewrite persisted_manager, updated_get. reflexivity.
  - apply B. rewrite C1. discriminate.
  - rewrite (C C2); [now rewrite S2 | rewrite S2; discriminate].
Defined.

(** C6: on a pending order for which the quote service delivers a new
    quote, [updateOrderQuote] succeeds and replaces exactly [quote],
    [expectedOutputAmount] and [priceImpact]; every other field of the
    order, [protocolFee] among them, every other order and the other
    fields of the manager stay as they were. *)
Theorem updateOrderQuote_frame (w : World) (orderId : string) (s : State)
    (order : Order) (newQuote : JupiterQuote) :
  Map_get orderId (fst s).(orders) = Some order ->
  order.(status) = PENDING ->
  JupiterService.getQuote w order.(inputToken) order.(outputToken)
    order.(inputAmount) (of_Z 50) (Some (fst s).(protocolFeeBps)) = Ok newQuote ->
  exists s' order',
    updateOrderQuote w orderId s = (Ok tt, s')
    /\ Map_get orderId (fst s').(orders) = Some order'
    /\ order'.(quote) = newQuote
    /\ order'.(expectedOutputAmount) = parseInt newQuote.(outAmount)
    /\ order'.(priceImpact) = newQuote.(priceImpactPct)
    /\ order'.(protocolFee) = order.(protocolFee)
    /\ order'.(id) = order.(id)
    /\ order'.(inputToken) = order.(inputToken)
    /\ order'.(outputToken) = order.(outputToken)
    /\ order'.(inputAmount) = order.(inputAmount)
    /\ order'.(actualOutputAmount) = order.(actualOutputAmount)
    /\ order'.(rate) = order.(rate)
    /\ order'.(creator) = order.(creator)
    /\ order'.(refundAddress) = order.(refundAddress)
    /\ order'.(liquidityProvider) = order.(liquidityProvider)
    /\ order'.(status) = order.(status)
    /\ order'.(timestamp) = order.(timestamp)
    /\ order'.(transactionSignature) = order.(transactionSignature)
    /\ order'.(errorMessage) = order.(errorMessage)
    /\ (forall other, other <> orderId ->
          Map_get other (fst s').(orders) = Map_get other (fst s).(orders))
    /\ (fst s').(protocolFeeBps) = (fst s).(protocolFeeBps)
    /\ (fst s').(treasuryWallet) = (fst s).(treasuryWallet)
    /\ (fst s').(orderIdCounter) = (fst s).(orderIdCounter).
Proof.
  intros Hget Hs Hq.
  exists (persisted (updated orderId (requote newQuote order) s)),
    (requote newQuote order).
  split; [rewrite (updateOrderQuote_pending _ _ _ _ Hget Hs), Hq; reflexivity|].
  split; [rewrite persisted_manager; apply updated_get|].
  repeat (split; [reflexivity|]).
  split; [intros other Hne; now apply persisted_updated_get|].
  rewrite persisted_manager. repeat split.
Qed.

Lemma updateOrderQuote_frame_witness :
  exists s' order order',
    Map_get first_id (fst one_pending).(orders) = Some order
    /\ updateOrderQuote (world "2600000" None) first_id one_pending = (Ok tt, s')
    /\ Map_get first_id (fst s').(orders) = Some order'
    /\ order'.(expectedOutputAmount) = of_Z 2600000
    /\ order'.(protocolFee) = order.(protocolFee).
Proof.
  destruct (Map_get first_id (fst one_pending).(orders)) as [order|] eqn:E;
    [|vm_compute in E; discriminate E].
  destruct (updateOrderQuote_frame (world "2600000" None) first_id one_pending
              order (quote_of "2600000") E)
    as (s' & order' & H1 & H2 & _ & H4 & _ & H6 & _).
  - vm_compute in E. injection E as <-. reflexivity.
  - vm_compute in E. injection E as <-. vm_compute. reflexivity.
  - exists s', order, order'. repeat split; assumption.
Defined.

(** ** Failure handling *)

(** C3 does not hold of [executeSwap].  Its handler reads
    [error.message] of whatever was raised, and the wallet, typed [any],
    may reject the signing request with nothing: the handler then raises a
    [TypeError] itself, and [executeSwap] raises instead of returning a
    failure.  [executeOrderSwap], called with the same wallet, catches
    that error and returns the failure the claim describes. *)
Theorem executeSwap_raises_on_empty_rejection :
  wallet_rejects calm dismissive swap_payload nullish
  /\ JupiterService.executeSwap calm dismissive swap_payload
     = Throw (mkError "Cannot read properties of undefined (reading 'message')")
  /\ JupiterService.executeOrderSwap calm dismissive
       (JupiterService.mkOrderSwapParams SOL USDC (of_Z 1000000) provider
          treasury (of_Z 100))
     = Ok (mkTransactionResult EmptyString false
             (Some "Cannot read properties of undefined (reading 'message')")
             None).
Proof.
  split; [eexists; split; reflexivity|].
  split; vm_compute; reflexivity.
Qed.

(** C4, as stated, fails where it says that the change is persisted:
    [persistOrders] swallows a write that the storage refuses.  With a
    full storage the failed execution leaves the order [failed] in memory,
    [executeOrder] raises, and the storage still holds the text written at
    creation, in which the order is [pending]. *)
Lemma refused_write_is_not_persisted :
  exists s' order' stored,
    executeOrder reverting first_id wallet one_pending_full
    = (Throw (mkError "Transaction failed: {InstructionError:[2,{Custom:6001}]}"),
       s')
    /\ Map_get first_id (fst s').(orders) = Some order'
    /\ order'.(status) = FAILED
    /\ (snd s').(jupiter_orders)
       = Some (JSONText (DocEntries [(first_id, stored)]))
    /\ stored.(status) = PENDING
    /\ (snd s').(jupiter_orders)
       <> Some (JSON_stringify (Map_entries (fst s').(orders))).
Proof.
  eexists _, _, _. split; [vm_compute; reflexivity|].
  split; [vm_compute; reflexivity|].
  split; [reflexivity|]. split; [vm_compute; reflexivity|].
  split; [reflexivity|]. vm_compute. discriminate.
Qed.

(** C4, amended: when [executeOrder] is called on a stored pending order
    and some stage of the swap does not go through, the order becomes
    [failed], the reason reported by the swap (or 'Swap execution failed'
    when the report is empty) is recorded in [errorMessage], and
    [executeOrder] raises an error carrying that same reason.  Nothing
    else of the order changes.  The collection is written to the browser's
    storage when there is a [window] and the storage takes the text; when
    not, the storage is left as it was and the call raises the same
    error. *)
Theorem executeOrder_records_failure (w : World) (orderId : string)
    (wallet : Wallet) (s : State) (order : Order) :
  Map_get orderId (fst s).(orders) = Some order ->
  order.(status) = PENDING ->
  (forall q sig,
     ~ order_swap_confirmed w wallet (swap_params (fst s) order) q sig) ->
  exists r reason s' order',
    JupiterService.executeOrderSwap w wallet (swap_params (fst s) order) = Ok r
    /\ r.(success) = false
    /\ reason = or_string r.(error) "Swap execution failed"
    /\ executeOrder w orderId wallet s = (Throw (mkError reason), s')
    /\ Map_get orderId (fst s').(orders) = Some order'
    /\ order'.(status) = FAILED
    /\ order'.(errorMessage) = Some reason
    /\ order' = failed_with reason order
    /\ s' = persisted (updated orderId order' s)
    /\ ((snd s).(window_defined) = true ->
        (snd s).(setItem) (JSON_stringify (Map_entries (fst s').(orders)))
        = Ok tt ->
        (snd s').(jupiter_orders)
        = Some (JSON_stringify (Map_entries (fst s').(orders))))
    /\ ((snd s).(window_defined) = false
        \/ (exists e,
              (snd s).(setItem) (JSON_stringify (Map_entries (fst s').(orders)))
              = Throw e) ->
        snd s' = snd s).
Proof.
  intros Hget Hs Hfail.
  destruct (executeOrderSwap_returns w wallet (swap_params (fst s) order))
    as (r & Hr & [(q & sig & Hc & _) | (_ & (_ & Hno) & _)]);
    [exfalso; exact (Hfail q sig Hc)|].
  exists r, (or_string r.(error) "Swap execution failed"),
    (persisted (updated orderId
                  (failed_with (or_string r.(error) "Swap execution failed")
                     order) s)),
    (failed_with (or_string r.(error) "Swap execution failed") order).
  split; [exact Hr|]. split; [exact Hno|].
  split; [reflexivity|].
  split.
  { rewrite (executeOrder_pending _ _ _ _ _ Hget Hs), Hr, Hno. reflexivity. }
  split; [rewrite persisted_manager; apply updated_get|].
  repeat (split; [reflexivity|]).
  rewrite persisted_manager. split.
  - intros Hw Ha. now apply persisted_window.
  - intros H. now rewrite persisted_refused.
Qed.

Lemma executeOrder_records_failure_witness :
  exists s' order',
    executeOrder reverting first_id wallet one_pending
    = (Throw (mkError "Transaction failed: {InstructionError:[2,{Custom:6001}]}"), s')
    /\ Map_get first_id (fst s').(orders) = Some order'
    /\ order'.(status) = FAILED
    /\ order'.(errorMessage)
       = Some "Transaction failed: {InstructionError:[2,{Custom:6001}]}".
Proof.
  destruct (Map_get first_id (fst one_pending).(orders)) as [order|] eqn:E;
    [|vm_compute in E; discriminate E].
  destruct (executeOrder_records_failure reverting first_id wallet one_pending
              order E)
    as (r & reason & s' & order' & H1 & _ & H3 & H4 & H5 & H6 & H7 & _).
  - vm_compute in E. injection E as <-. reflexivity.
  - intros q sig (_ & k1 & k2 & k3 & k4 & k5 & k6 & stx & _ & _ & _ & _ & _ & _
                  & _ & tx & signed & _ & _ & _ & Hconf).
    discriminate Hconf.
  - assert (Hreason :
      reason = "Transaction failed: {InstructionError:[2,{Custom:6001}]}").
    { vm_compute in E. injection E as <-. vm_compute in H1.
      injection H1 as <-. exact H3. }
    rewrite Hreason in *. now exists s', order'.
Defined.

(** C10: whenever [executeOrder] succeeds on a stored pending order, the
    swap was quoted afresh inside [executeOrderSwap] (with [CONFIG]'s
    default slippage), the transaction was built from that fresh quote,
    and [actualOutputAmount] is [parseInt] of the fresh quote's
    [outAmount]; the fallback to [expectedOutputAmount] is for a result
    without output amount, which a fresh quote never yields.  The quote,
    expected output and price impact attached to the order play no part:
    with any other quote attached, the call does the same and leaves the
    same order, up to those three fields. *)
Theorem executeOrder_prices_from_fresh_quote (w : World) (orderId : string)
    (wallet : Wallet) (s s' : State) (order : Order) :
  Map_get orderId (fst s).(orders) = Some order ->
  order.(status) = PENDING ->
  executeOrder w orderId wallet s = (Ok tt, s') ->
  exists freshQuote sig order',
    order_swap_confirmed w wallet (swap_params (fst s) order) freshQuote sig
    /\ Map_get orderId (fst s').(orders) = Some order'
    /\ order'.(status) = FULFILLED
    /\ order'.(transactionSignature) = Some sig
    /\ order'.(actualOutputAmount) = Some (parseInt freshQuote.(outAmount))
    /\ order'.(quote) = order.(quote)
    /\ forall attached,
         executeOrder w orderId wallet (updated orderId (requote attached order) s)
         = (Ok tt, persisted (updated orderId (requote attached order') s)).
Proof.
  intros Hget Hs Hex.
  rewrite (executeOrder_pending _ _ _ _ _ Hget Hs) in Hex.
  destruct (executeOrderSwap_returns w wallet (swap_params (fst s) order))
    as (r & Hr & [(q & sig & Hc & (S1 & S2 & S3) & Hout)
                 | (_ & (_ & Hno) & _)]);
    rewrite Hr in Hex; [|rewrite Hno in Hex; discriminate Hex].
  rewrite S2 in Hex. injection Hex as <-.
  pose proof (getQuote_outAmount _ _ _ _ _ _ _ (proj1 Hc)) as Htruthy.
  assert (Hf : forall o, (fulfilled_by r o).(actualOutputAmount)
                         = Some (parseInt q.(outAmount))).
  { intros o. unfold fulfilled_by. cbn [actualOutputAmount set_status
      set_actualOutputAmount]. rewrite Hout, Htruthy. cbn [or_string].
    cbn [truthy_opt_string] in Htruthy. now rewrite Htruthy. }
  exists q, sig, (fulfilled_by r order).
  split; [exact Hc|].
  split; [rewrite persisted_manager; apply updated_get|].
  split; [reflexivity|].
  split; [cbn; now rewrite S1|].
  split; [apply Hf|].
  split; [reflexivity|].
  intros attached.
  rewrite (executeOrder_pending w orderId wallet
             (updated orderId (requote attached order) s)
             (requote attached order)); [|apply updated_get | exact Hs].
  change (swap_params (fst (updated orderId (requote attached order) s))
            (requote attached order))
    with (swap_params (fst s) order).
  rewrite Hr, S2, updated_updated.
  do 3 f_equal. unfold fulfilled_by, requote.
  cbn [set_status set_actualOutputAmount set_transactionSignature
       set_priceImpact set_expectedOutputAmount set_quote
       id inputToken outputToken inputAmount expectedOutputAmount
       actualOutputAmount rate creator refundAddress liquidityProvider status
       timestamp quote transactionSignature errorMessage protocolFee
       priceImpact].
  rewrite Hout, Htruthy. reflexivity.
Qed.

Lemma executeOrder_prices_from_fresh_quote_witness :
  exists s' order',
    executeOrder (world "2400000" None) first_id wallet one_pending = (Ok tt, s')
    /\ Map_get first_id (fst s').(orders) = Some order'
    /\ order'.(expectedOutputAmount) = of_Z 2500000
    /\ order'.(actualOutputAmount) = Some (of_Z 2400000).
Proof.
  destruct (Map_get first_id (fst one_pending).(orders)) as [order|] eqn:E;
    [|vm_compute in E; discriminate E].
  destruct (executeOrder (world "2400000" None) first_id wallet one_pending)
    as [[[]|e] s'] eqn:Hex; [|vm_compute in Hex; discriminate Hex].
  destruct (executeOrder_prices_from_fresh_quote (world "2400000" None)
              first_id wallet one_pending s' order E)
    as (q & sig & order' & Hc & H2 & _ & _ & H5 & _).
  - vm_compute in E. injection E as <-. reflexivity.
  - exact Hex.
  - exists s', order'. split; [reflexivity|]. split; [exact H2|].
    vm_compute in Hex. injection Hex as <-.
    vm_compute in H2. injection H2 as <-. split; reflexivity.
Defined.

(** ** Reading the collection *)

(** C9: an order is in the result of [getOrdersRequiringAttention] if and
    only if it is stored and either its status is [failed], or its status
    is [pending] and [now - timestamp] exceeds the window of five minutes
    ([> 300000] milliseconds).  A pending order created ten minutes ago is
    in the result; one created a minute ago is not. *)
Theorem requiring_attention_iff (w : World) (mgr : Manager) (o : Order) :
  (In o (getOrdersRequiringAttention w mgr)
   <-> In o (Map_values mgr.(orders))
       /\ (o.(status) = FAILED
           \/ (o.(status) = PENDING
               /\ number_gt (number_sub (of_Z (Date_now w 0)) o.(timestamp))
                    QUOTE_EXPIRY_TIME = true)))
  /\ (forall t, o.(timestamp) = of_Z t ->
        (number_gt (number_sub (of_Z (Date_now w 0)) o.(timestamp))
           QUOTE_EXPIRY_TIME = true
         <-> Date_now w 0 - t > 300000))
  /\ (In o (Map_values mgr.(orders)) -> o.(status) = PENDING ->
      o.(timestamp) = of_Z (Date_now w 0 - 10 * 60 * 1000) ->
      In o (getOrdersRequiringAttention w mgr))
  /\ (o.(status) = PENDING ->
      o.(timestamp) = of_Z (Date_now w 0 - 1 * 60 * 1000) ->
      ~ In o (getOrdersRequiringAttention w mgr)).
Proof.
  assert (Hiff :
    In o (getOrdersRequiringAttention w mgr)
    <-> In o (Map_values mgr.(orders))
        /\ (o.(status) = FAILED
            \/ (o.(status) = PENDING
                /\ number_gt (number_sub (of_Z (Date_now w 0)) o.(timestamp))
                     QUOTE_EXPIRY_TIME = true))).
  { unfold getOrdersRequiringAttention. rewrite filter_In.
    unfold requires_attention.
    destruct (OrderStatus_eqb_spec o.(status) FAILED) as [Hf|Hf].
    - intuition.
    - destruct (OrderStatus_eqb_spec o.(status) PENDING) as [Hp|Hp]; cbn [andb].
      + destruct (number_gt _ _); intuition congruence.
      + intuition congruence. }
  assert (Hint : forall t, o.(timestamp) = of_Z t ->
            (number_gt (number_sub (of_Z (Date_now w 0)) o.(timestamp))
               QUOTE_EXPIRY_TIME = true
             <-> Date_now w 0 - t > 300000)).
  { intros t ->. unfold QUOTE_EXPIRY_TIME.
    change (5 * 60 * 1000) with 300000. apply number_gt_integers. }
  split; [exact Hiff|]. split; [exact Hint|]. split.
  - intros Hin Hp Ht. apply Hiff. split; [exact Hin|]. right.
    split; [exact Hp|]. apply (Hint _ Ht). lia.
  - intros Hp Ht Hin. apply Hiff in Hin as [_ [Hf|[_ Hgt]]]; [congruence|].
    apply (Hint _ Ht) in Hgt. lia.
Qed.

Lemma requiring_attention_iff_witness :
  let later minutes :=
    mkWorld config (fun _ => 1700000000001 + minutes * 60 * 1000)
      accept_address (getAssociatedTokenAddress calm) (fetch_quote calm)
      (fetch_swap calm) (deserialize calm) (sendTransaction calm)
      (confirmTransaction calm) in
  List.length (getOrdersRequiringAttention (later 10) (fst one_pending)) = 1%nat
  /\ getOrdersRequiringAttention (later 1) (fst one_pending) = []
  /\ forall o, In o (getOrdersRequiringAttention (later 10) (fst one_pending)) ->
       o.(status) = FAILED \/ o.(status) = PENDING.
Proof.
  cbv zeta. split; [vm_compute; reflexivity|].
  split; [vm_compute; reflexivity|].
  intros o Hin.
  apply (proj1 (requiring_attention_iff _ _ o)) in Hin as [_ [H|[H _]]];
    [now left | now right].
Defined.

(** ** Identifiers and the restart *)



Lemma clearAllOrders_eq s :
  clearAllOrders s
  = (Ok tt,
     persisted (mkManager Map_empty (fst s).(protocolFeeBps)
                  (fst s).(treasuryWallet) 0, snd s)).
Proof.
  unfold clearAllOrders, OrderManager.bind, set_orders, set_orderIdCounter.
  cbn [fst snd]. now rewrite persistOrders_eq.
Qed.






(** Where the two conditions end.  With [2 ** 53] as the highest number
    in storage the counter no longer moves, and [createOrder] returns the
    stored id itself; and after [importOrders] has brought in an id above
    the counter, [createOrder] can return that very id. *)
Lemma createOrder_reissues_an_id :
  (exists s',
     createOrder calm (params_of 42) (Some bob)
       (constructor calm None None stored_last) = (Ok last_id, s')
     /\ Map_keys (fst (constructor calm None None stored_last)).(orders)
        = [last_id]
     /\ Map_keys (fst s').(orders) = [last_id])
  /\ exists s',
       createOrder calm (params_of 42) (Some bob)
         (snd (importOrders (JSONText (DocEntries [(first_id, fifth_order)]))
                 fresh))
       = (Ok first_id, s')
       /\ Map_keys (fst s').(orders) = [first_id].
Proof.
  split; eexists; (split; [vm_compute; reflexivity|]);
    repeat split; vm_compute; reflexivity.
Qed.

(** ** Export and import *)

(** C8, as stated, fails: an order whose expected output is [NaN] (its
    quote came with an output amount that is not a number) is exported
    with [null] in that place, so the imported collection holds [null]
    where the exported one held [NaN]. *)
Lemma import_export_loses_NaN :
  exists s',
    importOrders (exportOrders (fst one_garbled)) one_garbled = (Ok tt, s')
    /\ Map_keys (fst s').(orders) = Map_keys (fst one_garbled).(orders)
    /\ option_map expectedOutputAmount
         (Map_get first_id (fst one_garbled).(orders)) = Some NaN
    /\ option_map expectedOutputAmount
         (Map_get first_id (fst s').(orders)) = Some Null
    /\ (fst s').(orders) <> (fst one_garbled).(orders).
Proof.
  eexists. split; [apply importOrders_entries|].
  rewrite persisted_manager. cbn [fst orders with_orders].
  split; [vm_compute; reflexivity|].
  split; [vm_compute; reflexivity|].
  split; [vm_compute; reflexivity|].
  intros H. apply (f_equal (fun m => option_map expectedOutputAmount
                                       (Map_get first_id m))) in H.
  vm_compute in H. discriminate H.
Qed.

(** C8, amended: for every collection of orders (with distinct ids, as in
    any [Map]) in which no numeric field is [NaN],
    [importOrders(exportOrders())] succeeds and leaves a collection with
    the same ids, in the same order, mapped to orders with the same field
    values, whatever collection the importing manager held before.  The
    storage then holds the exported text, when there is a [window] and the
    storage takes it, and what it held before when not. *)
Theorem import_export_roundtrip (mgr : Manager) (s : State) :
  NoDup (Map_keys mgr.(orders)) ->
  forallb order_numbers (Map_values mgr.(orders)) = true ->
  exists s',
    importOrders (exportOrders mgr) s = (Ok tt, s')
    /\ (fst s').(orders) = mgr.(orders)
    /\ (fst s = mgr -> fst s' = mgr)
    /\ ((snd s).(window_defined) = true ->
        (snd s).(setItem) (exportOrders mgr) = Ok tt ->
        (snd s').(jupiter_orders) = Some (exportOrders mgr))
    /\ ((snd s).(window_defined) = false
        \/ (exists e, (snd s).(setItem) (exportOrders mgr) = Throw e) ->
        snd s' = snd s).
Proof.
  intros Hnd Hnum.
  assert (Hm : Map_of_entries (Map_entries mgr.(orders)) = mgr.(orders))
    by now apply Map_of_entries_entries.
  assert (Hx : exportOrders mgr = JSONText (DocEntries (Map_entries mgr.(orders))))
    by (unfold exportOrders, JSON_stringify;
        now rewrite entries_toJSON_numbers).
  rewrite Hx. eexists. split; [apply importOrders_entries|].
  rewrite persisted_manager. cbn [fst orders with_orders].
  split; [exact Hm|]. split; [|split].
  - intros <-. rewrite Hm. apply with_orders_same.
  - intros Hw Ha. rewrite <- Hx in *. unfold exportOrders in *.
    rewrite persisted_window; cbn [fst snd orders with_orders];
      rewrite ?Hm; [reflexivity | exact Hw | exact Ha].
  - intros Hr. rewrite <- Hx in *. unfold exportOrders in *.
    rewrite persisted_refused; [reflexivity|].
    cbn [fst snd orders with_orders]. now rewrite Hm.
Qed.

Lemma import_export_roundtrip_witness :
  exists s',
    importOrders (exportOrders (fst one_fulfilled)) fresh = (Ok tt, s')
    /\ (fst s').(orders) = (fst one_fulfilled).(orders).
Proof.
  destruct (import_export_roundtrip (fst one_fulfilled) fresh)
    as (s' & H1 & H2 & _).
  - vm_compute. repeat constructor. intros [].
  - vm_compute. reflexivity.
  - now exists s'.
Defined.

(* ===================================================================== *)
(** * Further properties                                                  *)
(* ===================================================================== *)

Import Listings.
Import Balances.
Import Terms.

(** ** Validation and creation *)

Lemma truthy_string_iff s : truthy_string s = true <-> s <> EmptyString.
Proof.
  unfold truthy_string. destruct (String.eqb_spec s EmptyString); simpl;
    split; congruence.
Qed.

Lemma truthy_string_false s : truthy_string s = false <-> s = EmptyString.
Proof.
  unfold truthy_string. destruct (String.eqb_spec s EmptyString); simpl;
    split; congruence.
Qed.

Lemma amount_check n :
  negb (truthy_number n) || number_le n (of_Z 0) = false <-> positive_amount n.
Proof.
  unfold positive_amount. destruct n as [| |a]; cbn.
  - split; [discriminate | intros (a & H & _); discriminate].
  - split; [discriminate | intros (a & H & _); discriminate].
  - rewrite orb_false_iff, negb_false_iff, negb_true_iff.
    rewrite <- !not_true_iff_false, Qeq_bool_iff, Qle_bool_iff.
    split.
    + intros [_ H]. exists a. split; [reflexivity|]. now apply Qnot_le_lt.
    + intros (a' & [= <-] & Hpos). split.
      * intros E. rewrite E in Hpos. now apply Qlt_irrefl in Hpos.
      * now apply Qlt_not_le.
Qed.

Lemma validateOrderParams_cases (w : World) (params : OrderCreationParams) :
  let v := validateOrderParams w params in
  let present :=
    params.(p_inputToken) <> EmptyString /\ params.(p_outputToken) <> EmptyString in
  let different := params.(p_inputToken) <> params.(p_outputToken) in
  let amount := positive_amount params.(p_inputAmount) in
  let named := params.(p_liquidityProvider) <> EmptyString in
  let provider := address_accepted w params.(p_liquidityProvider) in
  let refund :=
    forall r, params.(p_refundAddress) = Some r -> r <> EmptyString ->
              address_accepted w r in
  (~ present /\ v = throw_new_Error "Input and output tokens are required")
  \/ (present /\ ~ different
      /\ v = throw_new_Error "Input and output tokens cannot be the same")
  \/ (present /\ different /\ ~ amount
      /\ v = throw_new_Error "Input amount must be greater than 0")
  \/ (present /\ different /\ amount /\ ~ named
      /\ v = throw_new_Error "Liquidity provider address is required")
  \/ (present /\ different /\ amount /\ named /\ ~ provider
      /\ v = throw_new_Error "Invalid liquidity provider address")
  \/ (present /\ different /\ amount /\ named /\ provider /\ ~ refund
      /\ v = throw_new_Error "Invalid refund address")
  \/ (present /\ different /\ amount /\ named /\ provider /\ refund
      /\ v = Ok tt).
Proof.
  cbv zeta. unfold validateOrderParams, address_accepted.
  destruct (truthy_string params.(p_inputToken)) eqn:Hi;
    [apply truthy_string_iff in Hi
    | apply truthy_string_false in Hi; left; split; [tauto | reflexivity]].
  destruct (truthy_string params.(p_outputToken)) eqn:Ho;
    [apply truthy_string_iff in Ho
    | apply truthy_string_false in Ho; left; split; [tauto | reflexivity]].
  cbn [negb orb]. right.
  destruct (String.eqb_spec params.(p_inputToken) params.(p_outputToken))
    as [Heq|Hne]; [left; tauto|]. right.
  destruct (negb (truthy_number params.(p_inputAmount))
            || number_le params.(p_inputAmount) (of_Z 0)) eqn:Ha.
  { left. repeat split; try assumption.
    intros H. apply amount_check in H. congruence. }
  apply amount_check in Ha. right.
  destruct (truthy_string params.(p_liquidityProvider)) eqn:Hl;
    [apply truthy_string_iff in Hl
    | apply truthy_string_false in Hl; left; tauto].
  cbn [negb]. right. unfold bind_res, try_catch.
  destruct (new_PublicKey w params.(p_liquidityProvider)) as [key|e] eqn:Hk.
  2:{ left. repeat split; try assumption. intros [k H]. discriminate. }
  right. assert (Hp : exists k, Ok key = Ok k) by now exists key.
  destruct params.(p_refundAddress) as [r|] eqn:Hr; cbn [truthy_opt_string].
  2:{ right. repeat split; try assumption. intros r' Hr'. discriminate. }
  destruct (truthy_string r) eqn:Htr.
  2:{ apply truthy_string_false in Htr. right. repeat split; try assumption.
      intros r' Hr' Hne'. congruence. }
  cbn [or_string]. rewrite Htr. apply truthy_string_iff in Htr.
  destruct (new_PublicKey w r) as [key'|e'] eqn:Hk'.
  - right. repeat split; try assumption.
    intros r' Hr' _. assert (r' = r) by congruence. subst r'. now exists key'.
  - left. repeat split; try assumption.
    intros H. destruct (H r eq_refl Htr) as [k Hk'']. congruence.
Qed.

(** X1: [validateOrderParams] accepts exactly the parameters with two
    non-empty, different tokens, an amount that is a number above zero, a
    non-empty liquidity-provider address that [PublicKey] accepts and, when
    a non-empty refund address is given, one that [PublicKey] accepts too.
    Otherwise it raises the message of the first check that fails, in the
    order tokens present, tokens different, amount, provider present,
    provider well-formed, refund well-formed. *)
Theorem validateOrderParams_outcomes (w : World) (params : OrderCreationParams) :
  let present :=
    params.(p_inputToken) <> EmptyString /\ params.(p_outputToken) <> EmptyString in
  let different := params.(p_inputToken) <> params.(p_outputToken) in
  let amount := positive_amount params.(p_inputAmount) in
  let named := params.(p_liquidityProvider) <> EmptyString in
  let provider := address_accepted w params.(p_liquidityProvider) in
  let refund :=
    forall r, params.(p_refundAddress) = Some r -> r <> EmptyString ->
              address_accepted w r in
  (validateOrderParams w params = Ok tt
   <-> present /\ different /\ amount /\ named /\ provider /\ refund)
  /\ (~ present ->
      validateOrderParams w params
      = throw_new_Error "Input and output tokens are required")
  /\ (present -> ~ different ->
      validateOrderParams w params
      = throw_new_Error "Input and output tokens cannot be the same")
  /\ (present -> different -> ~ amount ->
      validateOrderParams w params
      = throw_new_Error "Input amount must be greater than 0")
  /\ (present -> different -> amount -> ~ named ->
      validateOrderParams w params
      = throw_new_Error "Liquidity provider address is required")
  /\ (present -> different -> amount -> named -> ~ provider ->
      validateOrderParams w params
      = throw_new_Error "Invalid liquidity provider address")
  /\ (present -> different -> amount -> named -> provider -> ~ refund ->
      validateOrderParams w params
      = throw_new_Error "Invalid refund address").
Proof.
  pose proof (validateOrderParams_cases w params) as H. cbv zeta in *.
  unfold throw_new_Error in *.
  destruct H as [H|[H|[H|[H|[H|[H|H]]]]]]; decompose [and] H; clear H;
    repeat split; intros; try tauto; try congruence; eauto.
Qed.

(** X2: when [createOrder] raises, the error message is the cause
    prefixed with 'Failed to create order: ', and no order has been added,
    changed or written to storage.  For a caller that passes a key the
    whole state, the counter included, is exactly as before; a caller that
    passes [null] where the key is expected gets the error only after the
    counter has moved: one number is lost. *)
Theorem createOrder_failure_changes_nothing (w : World)
    (params : OrderCreationParams) (userPublicKey : option PublicKey)
    (s s' : State) (e : Error) :
  createOrder w params userPublicKey s = (Throw e, s') ->
  (exists cause, message e = "Failed to create order: " ++ cause)
  /\ (fst s').(orders) = (fst s).(orders)
  /\ (fst s').(protocolFeeBps) = (fst s).(protocolFeeBps)
  /\ (fst s').(treasuryWallet) = (fst s).(treasuryWallet)
  /\ snd s' = snd s
  /\ (userPublicKey <> None -> s' = s)
  /\ (s' = s \/ (userPublicKey = None /\ s' = advanced s)).
Proof.
  rewrite createOrder_eq.
  destruct (validateOrderParams w params) as [[]|e0].
  - destruct (truthy_string (fst s).(treasuryWallet)).
    + destruct (creation_quote w params (fst s)) as [q|e1].
      * destruct userPublicKey as [pk|]; [discriminate|].
        intros [= <- <-]. split; [now eexists|]. repeat split.
        -- intros H. now contradiction H.
        -- now right.
      * intros [= <- <-]. split; [now exists (message e1)|].
        repeat split. now left.
    + intros [= <- <-]. split; [now exists "Treasury wallet not configured"|].
      repeat split. now left.
  - intros [= <- <-]. split; [now exists (message e0)|].
    repeat split. now left.
Qed.

Lemma createOrder_failure_changes_nothing_witness :
  (exists e,
     createOrder calm (params_of 0) (Some alice) one_pending
     = (Throw e, one_pending)
     /\ message e = "Failed to create order: Input amount must be greater than 0")
  /\ exists e s',
       createOrder calm (params_of 42) None one_pending = (Throw e, s')
       /\ (fst s').(orders) = (fst one_pending).(orders)
       /\ (fst s').(orderIdCounter) = 2.
Proof.
  split.
  - destruct (createOrder calm (params_of 0) (Some alice) one_pending)
      as [[id|e] s'] eqn:H; [vm_compute in H; discriminate H|].
    destruct (createOrder_failure_changes_nothing _ _ _ _ _ _ H)
      as (_ & _ & _ & _ & _ & Hs & _).
    rewrite Hs by discriminate.
    exists e. split; [reflexivity|].
    vm_compute in H. injection H as <-. reflexivity.
  - destruct (createOrder calm (params_of 42) None one_pending)
      as [[id|e] s'] eqn:H; [vm_compute in H; discriminate H|].
    destruct (createOrder_failure_changes_nothing _ _ _ _ _ _ H)
      as (_ & Ho & _).
    exists e, s'. split; [reflexivity|]. split; [exact Ho|].
    vm_compute in H. injection H as _ <-. reflexivity.
Defined.

Lemma toString_defined_Num q : JupiterService.toString_defined (Num q) = Ok tt.
Proof. reflexivity. Qed.

(** What [getQuote] makes of an answer of the quote service. *)
Lemma getQuote_eq w i o a sl fee :
  JupiterService.toString_defined a = Ok tt ->
  JupiterService.toString_defined sl = Ok tt ->
  JupiterService.getQuote w i o a sl fee
  = match fetch_quote w
            (mkQuoteQuery i o a sl "true"
               (match fee with
                | Some f => if forwarded_fee f then Some f else None
                | None => None
                end)) with
    | Ok (response_ok (Ok q)) =>
        match JupiterService.validateQuote q with
        | Ok _ => Ok q
        | Throw e => throw_new_Error ("Failed to get quote: " ++ message e)
        end
    | Ok (response_ok (Throw e)) =>
        throw_new_Error ("Failed to get quote: " ++ message e)
    | Ok (response_not_ok status (Ok text)) =>
        throw_new_Error
          ("Failed to get quote: "
             ++ or_string text ("HTTP error! status: " ++ Z_toString status))
    | Ok (response_not_ok status (Throw e)) =>
        throw_new_Error ("Failed to get quote: " ++ message e)
    | Throw e => throw_new_Error ("Failed to get quote: " ++ message e)
    end.
Proof.
  intros Ha Hsl. unfold JupiterService.getQuote, try_catch, bind_res,
    forwarded_fee. rewrite Ha, Hsl.
  destruct (fetch_quote w _) as [[[q|e]|st [text|e]]|e]; try reflexivity.
  now destruct (JupiterService.validateQuote q) as [[]|e].
Qed.

(** X3: the text with which the quote service turns a request down
    reaches the caller of [createOrder] word for word: on a failure status
    whose body carries a non-empty [error], [createOrder] raises 'Failed
    to create order: Failed to get quote: ' followed by that text; without
    such a text the message names the HTTP status instead. *)
Theorem createOrder_reports_service_error (w : World)
    (params : OrderCreationParams) (userPublicKey : option PublicKey)
    (s : State)
    (status : Z) (text : option string) :
  validateOrderParams w params = Ok tt ->
  truthy_string (fst s).(treasuryWallet) = true ->
  fetch_quote w
    (pricing_query params.(p_inputToken) params.(p_outputToken)
       params.(p_inputAmount) (fst s).(protocolFeeBps))
  = Ok (response_not_ok status (Ok text)) ->
  createOrder w params userPublicKey s
  = (Throw (mkError
       ("Failed to create order: Failed to get quote: "
          ++ match text with
             | Some t => if truthy_string t then t
                         else "HTTP error! status: " ++ Z_toString status
             | None => "HTTP error! status: " ++ Z_toString status
             end)), s).
Proof.
  intros Hv Ht Hf. rewrite createOrder_eq, Hv, Ht. unfold creation_quote.
  assert (Ha : positive_amount params.(p_inputAmount)).
  { pose proof (validateOrderParams_cases w params) as H. cbv zeta in H.
    rewrite Hv in H. unfold throw_new_Error in H.
    destruct H as [H|[H|[H|[H|[H|[H|H]]]]]]; decompose [and] H;
      try discriminate; assumption. }
  destruct Ha as (a & Ha & _).
  rewrite getQuote_eq; [|rewrite Ha; reflexivity | reflexivity].
  unfold pricing_query in Hf. rewrite Hf. reflexivity.
Qed.

Lemma createOrder_reports_service_error_witness :
  let refusing :=
    mkWorld config (Date_now calm) accept_address
      (getAssociatedTokenAddress calm)
      (fun _ => Ok (response_not_ok 400 (Ok (Some "Could not find any route"))))
      (fetch_swap calm) (deserialize calm) (sendTransaction calm)
      (confirmTransaction calm) in
  createOrder refusing (params_of 1000000) (Some alice) fresh
  = (Throw (mkError
       "Failed to create order: Failed to get quote: Could not find any route"),
     fresh).
Proof.
  cbv zeta.
  rewrite (createOrder_reports_service_error _ _ _ _ 400
             (Some "Could not find any route"));
    [reflexivity | vm_compute; reflexivity | reflexivity | reflexivity].
Defined.

(** X4: in a state where the counter is at least the number carried by
    every stored id (as after a start and any creations) and below
    [2 ** 53], a successful [createOrder] adds one order under an id that
    was not in use, leaves every order stored before as it was, and moves
    the counter up by one. *)
Theorem createOrder_adds_one_order (w : World) (params : OrderCreationParams)
    (userPublicKey : PublicKey) (s s' : State) (orderId : string) :
  ids_bounded (fst s) ->
  (fst s).(orderIdCounter) < MAX_SAFE ->
  createOrder w params (Some userPublicKey) s = (Ok orderId, s') ->
  Map_get orderId (fst s).(orders) = None
  /\ (exists o, Map_get orderId (fst s').(orders) = Some o
                /\ o.(id) = orderId /\ o.(creator) = userPublicKey.(toBase58))
  /\ (forall other, other <> orderId ->
        Map_get other (fst s').(orders) = Map_get other (fst s).(orders))
  /\ Map_keys (fst s').(orders) = (Map_keys (fst s).(orders) ++ [orderId])%list
  /\ (fst s').(orderIdCounter) = (fst s).(orderIdCounter) + 1.
Proof.
  intros Hb Hmax. rewrite createOrder_eq.
  destruct (validateOrderParams w params) as [[]|e0]; [|discriminate].
  destruct (truthy_string (fst s).(treasuryWallet)); [|discriminate].
  destruct (creation_quote w params (fst s)) as [q|e1]; [|discriminate].
  intros [= <- <-].
  assert (Hnew : Map_get (next_id w (fst s)) (fst s).(orders) = None)
    by (apply Map_get_None; now apply next_id_fresh).
  split; [exact Hnew|]. rewrite created_orders, created_counter.
  split; [eexists; split; [apply Map_get_set_same | split; reflexivity]|].
  split; [intros other Hne; now apply Map_get_set_other|].
  split; [|apply incremented_small; destruct Hb as [H0 _]; lia].
  rewrite (Map_keys_set_new _ _ _ Hnew). unfold Map_keys.
  now rewrite map_app.
Qed.

Lemma createOrder_adds_one_order_witness :
  exists s',
    createOrder calm (params_of 42) (Some bob) one_pending
    = (Ok "order_1700000000000_0002", s')
    /\ Map_keys (fst s').(orders) = [first_id; "order_1700000000000_0002"].
Proof.
  destruct (createOrder calm (params_of 42) (Some bob) one_pending) as [[id|e] s']
    eqn:H; [|vm_compute in H; discriminate H].
  destruct (createOrder_adds_one_order calm (params_of 42) bob one_pending s' id)
    as (_ & _ & _ & Hk & _); [| |exact H|].
  - split; [vm_compute; discriminate|].
    intros k [<-|[]]. vm_compute. discriminate.
  - vm_compute. reflexivity.
  - exists s'. vm_compute in H. injection H as <- <-. split; reflexivity.
Defined.

(** ** The quote client *)

(** X6: whatever the quote service does, [getQuote] either returns a quote
    whose two mints and two amounts are non-empty, or raises an error
    whose message starts with 'Failed to get quote: '; a quote lacking a
    mint or an amount is never returned. *)
Theorem getQuote_returns_checked_quote_or_prefixed_error (w : World)
    (inputMint outputMint : string) (amount slippageBps : number)
    (platformFeeBps : option number) :
  match JupiterService.getQuote w inputMint outputMint amount slippageBps
          platformFeeBps with
  | Ok q =>
      q.(Types.inputMint) <> EmptyString /\ q.(Types.outputMint) <> EmptyString
      /\ q.(inAmount) <> EmptyString /\ q.(outAmount) <> EmptyString
  | Throw e => exists cause, message e = "Failed to get quote: " ++ cause
  end.
Proof.
  destruct (JupiterService.getQuote w inputMint outputMint amount slippageBps
              platformFeeBps) as [q|e] eqn:H.
  - apply getQuote_validated, validateQuote_ok in H.
    rewrite !truthy_string_iff in H. exact H.
  - unfold JupiterService.getQuote, try_catch, throw_new_Error in H.
    destruct (bind_res _ _) as [q|e0]; [discriminate|].
    injection H as <-. now exists (message e0).
Qed.

(** ** Execution *)

Lemma createSwapTransaction_disconnected w q options :
  JupiterService.createSwapTransaction w q None options
  = throw_new_Error
      "Failed to create swap transaction: Cannot read properties of null (reading 'toString')".
Proof. reflexivity. Qed.

Lemma executeOrder_settles_the_order_aux w orderId wallet s order :
  Map_get orderId (fst s).(orders) = Some order ->
  order.(status) = PENDING ->
  exists order',
    Map_get orderId (fst (snd (executeOrder w orderId wallet s))).(orders)
    = Some order'
    /\ order'.(status) <> PENDING.
Proof.
  intros Hget Hs. rewrite (executeOrder_pending _ _ _ _ _ Hget Hs).
  destruct (JupiterService.executeOrderSwap _ _ _) as [r|e];
    [destruct r.(success)|]; cbv zeta; cbn [snd];
    eexists; (split; [rewrite persisted_manager; apply updated_get|]);
    discriminate.
Qed.

(** The fields that [executeOrder] never writes. *)
Lemma executed_order_frame (o o' : Order) :
  (exists r, o' = fulfilled_by r o) \/ (exists msg, o' = failed_with msg o) ->
  o'.(id) = o.(id) /\ o'.(inputToken) = o.(inputToken)
  /\ o'.(outputToken) = o.(outputToken) /\ o'.(inputAmount) = o.(inputAmount)
  /\ o'.(expectedOutputAmount) = o.(expectedOutputAmount)
  /\ o'.(rate) = o.(rate) /\ o'.(creator) = o.(creator)
  /\ o'.(refundAddress) = o.(refundAddress)
  /\ o'.(liquidityProvider) = o.(liquidityProvider)
  /\ o'.(timestamp) = o.(timestamp) /\ o'.(quote) = o.(quote)
  /\ o'.(protocolFee) = o.(protocolFee) /\ o'.(priceImpact) = o.(priceImpact).
Proof. intros [[r ->]|[msg ->]]; repeat split. Qed.

(** X7: [executeOrder] never leaves a pending order pending.  Called on a
    stored pending order it either returns, and the order is [fulfilled]
    with a transaction signature and no error message added, or raises,
    and the order is [failed] with the raised message recorded and no
    signature added; in both cases the tokens, amounts, addresses, quote,
    fee and timestamp of the order are untouched. *)
Theorem executeOrder_settles_the_order (w : World) (orderId : string)
    (wallet : Wallet) (s : State) (order : Order) :
  Map_get orderId (fst s).(orders) = Some order ->
  order.(status) = PENDING ->
  exists s' order',
    snd (executeOrder w orderId wallet s) = s'
    /\ Map_get orderId (fst s').(orders) = Some order'
    /\ ((fst (executeOrder w orderId wallet s) = Ok tt
         /\ order'.(status) = FULFILLED
         /\ (exists sig, order'.(transactionSignature) = Some sig)
         /\ order'.(errorMessage) = order.(errorMessage))
        \/ (exists e,
              fst (executeOrder w orderId wallet s) = Throw e
              /\ order'.(status) = FAILED
              /\ order'.(errorMessage) = Some (message e)
              /\ order'.(transactionSignature) = order.(transactionSignature)
              /\ order'.(actualOutputAmount) = order.(actualOutputAmount)))
    /\ order'.(id) = order.(id) /\ order'.(inputToken) = order.(inputToken)
    /\ order'.(outputToken) = order.(outputToken)
    /\ order'.(inputAmount) = order.(inputAmount)
    /\ order'.(expectedOutputAmount) = order.(expectedOutputAmount)
    /\ order'.(rate) = order.(rate) /\ order'.(creator) = order.(creator)
    /\ order'.(refundAddress) = order.(refundAddress)
    /\ order'.(liquidityProvider) = order.(liquidityProvider)
    /\ order'.(timestamp) = order.(timestamp) /\ order'.(quote) = order.(quote)
    /\ order'.(protocolFee) = order.(protocolFee)
    /\ order'.(priceImpact) = order.(priceImpact).
Proof.
  intros Hget Hs. rewrite (executeOrder_pending _ _ _ _ _ Hget Hs).
  destruct (JupiterService.executeOrderSwap _ _ _) as [r|e];
    [destruct r.(success)|]; cbv zeta; cbn [fst snd].
  - exists (persisted (updated orderId (fulfilled_by r order) s)),
      (fulfilled_by r order).
    split; [reflexivity|]. split; [rewrite persisted_manager; apply updated_get|].
    split; [left; repeat split; now eexists|].
    apply executed_order_frame. left. now exists r.
  - eexists _, (failed_with _ order).
    split; [reflexivity|]. split; [rewrite persisted_manager; apply updated_get|].
    split; [right; eexists; repeat split|].
    apply executed_order_frame. right. now eexists.
  - eexists _, (failed_with _ order).
    split; [reflexivity|]. split; [rewrite persisted_manager; apply updated_get|].
    split; [right; eexists; repeat split|].
    apply executed_order_frame. right. now eexists.
Qed.

Lemma executeOrder_settles_the_order_witness :
  option_map status (Map_get first_id (fst one_fulfilled).(orders))
  = Some FULFILLED
  /\ option_map status
       (Map_get first_id
          (fst (snd (executeOrder reverting first_id wallet one_pending))).(orders))
     = Some FAILED.
Proof.
  destruct (Map_get first_id (fst one_pending).(orders)) as [order|] eqn:E;
    [|vm_compute in E; discriminate E].
  assert (Hs : order.(status) = PENDING)
    by (vm_compute in E; injection E as <-; reflexivity).
  destruct (executeOrder_settles_the_order reverting first_id wallet one_pending
              order E Hs) as (s' & order' & <- & Hget & _).
  split; [vm_compute; reflexivity|].
  rewrite Hget. vm_compute in Hget. injection Hget as <-. reflexivity.
Defined.

(** X8: an order that has left [pending] takes no new call, however the
    calls of [executeOrder], [cancelOrder] and [updateOrderQuote] overlap.
    From a manager with no call under way, let calls start and resume in
    any order.  If by then the order stored under [orderId] is not
    pending, then whatever starts or resumes afterwards it stays stored
    and never is pending again; every call on it that starts afterwards
    raises at once and changes nothing, [executeOrder] with the message
    that names its status; and if no call that is still waiting was
    started on it, the order is never written again.  What a call that was
    already waiting on the order writes when it resumes is not excluded. *)
Theorem settled_order_takes_no_new_call (s : State)
    (before after : list Event) (orderId : string) (order : Order) :
  let st : Running := happens before (s, []) in
  let st' : Running := happens after st in
  Map_get orderId (fst (fst st)).(orders) = Some order ->
  order.(status) <> PENDING ->
  exists order',
    Map_get orderId (fst (fst st')).(orders) = Some order'
    /\ order'.(status) <> PENDING
    /\ (forall w wallet,
          happen (Starts (ExecuteOrder w orderId wallet)) st'
          = (Throw (mkError ("Order is not in pending status. Current status: "
                               ++ OrderStatus_value order'.(status))), st'))
    /\ (forall op, target op = orderId ->
          exists e, happen (Starts op) st' = (Throw e, st'))
    /\ (none_waiting_on orderId (snd st) ->
        order' = order /\ none_waiting_on orderId (snd st')).
Proof.
  intros st st' Hget Hs.
  destruct (happens_keeps_settled after st orderId order Hget Hs)
    as (order' & Hget' & Hs' & Hw).
  exists order'. fold st' in Hget', Hw.
  split; [exact Hget'|]. split; [exact Hs'|]. split.
  - intros w wallet. now apply happen_Starts_executeOrder_refuses.
  - split; [|exact Hw].
    intros op <-. now apply happen_Starts_refuses with (order := order').
Qed.

Lemma settled_order_takes_no_new_call_witness :
  let st := happens [Starts (ExecuteOrder calm first_id wallet);
                     Starts (UpdateOrderQuote calm first_id);
                     Resumes 0]
              (one_pending, []) in
  let st' := happens [Starts (CancelOrder first_id alice); Resumes 0] st in
  option_map status (Map_get first_id (fst (fst st)).(orders)) = Some FULFILLED
  /\ exists order',
       Map_get first_id (fst (fst st')).(orders) = Some order'
       /\ order'.(status) <> PENDING
       /\ (forall w wallet,
             happen (Starts (ExecuteOrder w first_id wallet)) st'
             = (Throw (mkError
                         ("Order is not in pending status. Current status: "
                            ++ OrderStatus_value order'.(status))), st'))
       /\ (forall op, target op = first_id ->
             exists e, happen (Starts op) st' = (Throw e, st')).
Proof.
  intros st st'. split; [vm_compute; reflexivity|].
  destruct (Map_get first_id (fst (fst st)).(orders)) as [order|] eqn:E;
    [|vm_compute in E; discriminate E].
  assert (Hs : order.(status) <> PENDING)
    by (vm_compute in E; injection E as <-; discriminate).
  destruct (settled_order_takes_no_new_call one_pending
              [Starts (ExecuteOrder calm first_id wallet);
               Starts (UpdateOrderQuote calm first_id);
               Resumes 0]
              [Starts (CancelOrder first_id alice); Resumes 0]
              first_id order E Hs) as (order' & H1 & H2 & H3 & H4 & _).
  exists order'. repeat split; assumption.
Defined.

(** X9: with a wallet that is not connected (its [publicKey] is [null])
    no swap is executed: [executeOrderSwap] returns a failure result, and
    [executeOrder] on a stored pending order raises and marks the order
    [failed]. *)
Theorem disconnected_wallet_fails_the_order (w : World) (orderId : string)
    (wallet : Wallet) (s : State) (order : Order) :
  wallet.(publicKey) = None ->
  Map_get orderId (fst s).(orders) = Some order ->
  order.(status) = PENDING ->
  (exists r,
     JupiterService.executeOrderSwap w wallet (swap_params (fst s) order) = Ok r
     /\ is_failure r)
  /\ exists e s',
       executeOrder w orderId wallet s = (Throw e, s')
       /\ Map_get orderId (fst s').(orders) = Some (failed_with (message e) order).
Proof.
  intros Hpk Hget Hs.
  assert (Hno : forall q sig,
            ~ order_swap_confirmed w wallet (swap_params (fst s) order) q sig).
  { intros q sig (_ & k1 & k2 & k3 & k4 & k5 & k6 & stx & _ & _ & _ & _ & _ & _
                  & Hc & _).
    rewrite Hpk, createSwapTransaction_disconnected in Hc. discriminate Hc. }
  destruct (executeOrderSwap_returns w wallet (swap_params (fst s) order))
    as (r & Hr & [(q & sig & Hc & _)
                 | (_ & _ & [Hfail | (_ & q & stx & Hb & _)])]);
    [exfalso; exact (Hno q sig Hc) | |].
  2:{ exfalso.
      destruct Hb as (_ & k1 & k2 & k3 & k4 & k5 & k6 & _ & _ & _ & _ & _ & _
                      & Hc).
      rewrite Hpk, createSwapTransaction_disconnected in Hc. discriminate Hc. }
  split; [now exists r|].
  rewrite (executeOrder_pending _ _ _ _ _ Hget Hs), Hr.
  destruct Hfail as (_ & -> & _). cbv zeta.
  eexists _, _. split; [reflexivity|].
  rewrite persisted_manager. apply updated_get.
Qed.

Lemma disconnected_wallet_fails_the_order_witness :
  exists s',
    executeOrder calm first_id (mkWallet None (fun tx => resolves tx)) one_pending
    = (Throw (mkError
         "Failed to create swap transaction: Cannot read properties of null (reading 'toString')"),
       s')
    /\ option_map status (Map_get first_id (fst s').(orders)) = Some FAILED.
Proof.
  destruct (Map_get first_id (fst one_pending).(orders)) as [order|] eqn:E;
    [|vm_compute in E; discriminate E].
  destruct (disconnected_wallet_fails_the_order calm first_id
              (mkWallet None (fun tx => resolves tx)) one_pending order eq_refl E)
    as (_ & e & s' & Hex & Hget).
  - vm_compute in E. injection E as <-. reflexivity.
  - exists s'. rewrite Hget. split; [|reflexivity].
    rewrite Hex. f_equal. f_equal.
    vm_compute in Hex. injection Hex as <- _. reflexivity.
Defined.

(** X10: [executeOrder], [cancelOrder] and [updateOrderQuote] touch the
    order they are called on and nothing else: every other stored order,
    the set and the sequence of ids, the counter, the fee rate and the
    treasury wallet are the same after the call, whether it returns or
    raises. *)
Theorem operations_touch_their_order_only (op : Operation) (s : State) :
  (forall other, other <> target op ->
     Map_get other (fst (snd (perform op s))).(orders)
     = Map_get other (fst s).(orders))
  /\ Map_keys (fst (snd (perform op s))).(orders) = Map_keys (fst s).(orders)
  /\ (fst (snd (perform op s))).(orderIdCounter) = (fst s).(orderIdCounter)
  /\ (fst (snd (perform op s))).(protocolFeeBps) = (fst s).(protocolFeeBps)
  /\ (fst (snd (perform op s))).(treasuryWallet) = (fst s).(treasuryWallet).
Proof.
  split; [intros other H; now apply perform_other|].
  destruct (perform_keys_counter op s) as [Hk Hc].
  split; [exact Hk|]. split; [exact Hc|].
  destruct (perform_effect op s) as [->|(order & o' & _ & ->)];
    [now split | rewrite persisted_manager; now split].
Qed.

(** X11: a quote refresh that fails changes nothing: when the quote
    service does not deliver a quote for a stored pending order,
    [updateOrderQuote] raises the very error of [getQuote] and the order,
    with its previous quote, the manager and the storage stay as they
    were. *)
Theorem updateOrderQuote_failure_changes_nothing (w : World)
    (orderId : string) (s : State) (order : Order) (e : Error) :
  Map_get orderId (fst s).(orders) = Some order ->
  order.(status) = PENDING ->
  JupiterService.getQuote w order.(inputToken) order.(outputToken)
    order.(inputAmount) (of_Z 50) (Some (fst s).(protocolFeeBps)) = Throw e ->
  updateOrderQuote w orderId s = (Throw e, s)
  /\ exists cause, message e = "Failed to get quote: " ++ cause.
Proof.
  intros Hget Hs Hq. rewrite (updateOrderQuote_pending _ _ _ _ Hget Hs), Hq.
  split; [reflexivity|].
  unfold JupiterService.getQuote, try_catch, throw_new_Error in Hq.
  destruct (bind_res _ _) as [q|e0]; [discriminate|].
  injection Hq as <-. now exists (message e0).
Qed.

Lemma updateOrderQuote_failure_changes_nothing_witness :
  let silent :=
    mkWorld config (Date_now calm) accept_address
      (getAssociatedTokenAddress calm)
      (fun _ => throw_new_Error "fetch failed")
      (fetch_swap calm) (deserialize calm) (sendTransaction calm)
      (confirmTransaction calm) in
  updateOrderQuote silent first_id one_pending
  = (Throw (mkError "Failed to get quote: fetch failed"), one_pending).
Proof.
  cbv zeta.
  destruct (Map_get first_id (fst one_pending).(orders)) as [order|] eqn:E;
    [|vm_compute in E; discriminate E].
  refine (proj1 (updateOrderQuote_failure_changes_nothing _ first_id one_pending
                   order _ E _ _)).
  - vm_compute in E. injection E as <-. reflexivity.
  - vm_compute in E. injection E as <-. reflexivity.
Defined.

(** ** Storage and restart *)

Lemma Map_set_NoDup {V : Type} k (v : V) m :
  NoDup (Map_keys m) -> NoDup (Map_keys (Map_set k v m)).
Proof.
  intros H. destruct (Map_get k m) as [v0|] eqn:E.
  - now rewrite (Map_keys_set_found k v v0 m E).
  - rewrite (Map_keys_set_new k v m E). unfold Map_keys in *.
    rewrite map_app. cbn [map fst].
    apply NoDup_app; [exact H | repeat constructor; intros [] |].
    intros x Hin [<-|[]]. apply Map_get_None in E. contradiction.
Qed.

Lemma fold_set_NoDup {V : Type} (es : list (string * V)) m :
  NoDup (Map_keys m) ->
  NoDup (Map_keys (fold_left (fun acc kv => Map_set (fst kv) (snd kv) acc) es m)).
Proof.
  revert m. induction es as [|[k v] es IH]; intros m H; [exact H|].
  cbn [fold_left fst snd]. now apply IH, Map_set_NoDup.
Qed.

Lemma Map_of_entries_NoDup {V : Type} (es : list (string * V)) :
  NoDup (Map_keys (Map_of_entries es)).
Proof. apply fold_set_NoDup. constructor. Qed.





(** A start from a storage in step with a manager gives that manager. *)
Lemma restart_in_sync w s :
  in_sync s -> NoDup (Map_keys (fst s).(orders)) -> counter_tight (fst s) ->
  forallb order_numbers (Map_values (fst s).(orders)) = true ->
  restart w s = s.
Proof.
  destruct s as [[m f t c] [wd stored put]].
  unfold in_sync, counter_tight, restart.
  cbn [fst snd orders orderIdCounter protocolFeeBps treasuryWallet
       window_defined jupiter_orders].
  intros [-> ->] Hnd -> Hnum.
  unfold constructor, loadPersistedOrders, try_catchM, JSON_stringify.
  cbn. rewrite entries_toJSON_numbers by assumption.
  now rewrite (Map_of_entries_entries m Hnd).
Qed.

(** A call changes nothing, or ends by persisting the collection, or,
    made without a key, only moves the counter. *)
Lemma call_effect c s :
  call c s = s
  \/ (exists mgr, call c s = persisted (mgr, snd s))
  \/ (~ has_key c /\ call c s = advanced s).
Proof.
  destruct c as [w params key | op]; cbn [call].
  - rewrite createOrder_eq.
    destruct (validateOrderParams w params) as [[]|e]; [|now left].
    destruct (truthy_string _); [|now left].
    destruct (creation_quote w params (fst s)); [|now left].
    destruct key as [pk|]; right; [left; eexists; reflexivity|].
    right. split; [intros H; exact H | reflexivity].
  - destruct (perform_effect op s) as [->|(order & o' & _ & ->)];
      [now left | right; left; eexists; reflexivity].
Qed.


Lemma persisted_in_sync mgr b :
  window_defined b = true ->
  setItem b (JSON_stringify (Map_entries mgr.(orders))) = Ok tt ->
  in_sync (persisted (mgr, b)).
Proof.
  intros H Ha. unfold in_sync, persisted. cbn [snd fst].
  rewrite H, Ha. now split.
Qed.




(** X13: a storage that cannot be used is treated as empty and never makes
    the start fail: without [window], with no stored item, with an empty
    or unparseable text, or with a document that is no array of pairs, the
    manager starts with no orders and a counter of 0, and the storage is
    left as found. *)
Theorem unusable_storage_starts_empty (w : World) (fee : option number)
    (tw : option string) (b : Browser) :
  window_defined b = false
  \/ jupiter_orders b = None
  \/ jupiter_orders b = Some EmptyText
  \/ jupiter_orders b = Some Unparseable
  \/ jupiter_orders b = Some (JSONText DocNull)
  \/ jupiter_orders b = Some (JSONText DocOther) ->
  (fst (constructor w fee tw b)).(orders) = Map_empty
  /\ (fst (constructor w fee tw b)).(orderIdCounter) = 0
  /\ snd (constructor w fee tw b) = b.
Proof.
  unfold constructor, loadPersistedOrders, try_catchM. cbn [snd fst].
  intros [H|[H|[H|[H|[H|H]]]]]; rewrite H;
    try (destruct (window_defined b)); repeat split.
Qed.

Lemma unusable_storage_starts_empty_witness :
  constructor calm None None (mkBrowser true (Some Unparseable) (fun _ => Ok tt))
  = (mkManager Map_empty (of_Z 100) treasury 0,
     mkBrowser true (Some Unparseable) (fun _ => Ok tt)).
Proof.
  destruct (unusable_storage_starts_empty calm None None
              (mkBrowser true (Some Unparseable) (fun _ => Ok tt))) as (H1 & H2 & H3);
    [right; right; right; left; reflexivity|].
  destruct (constructor calm None None (mkBrowser true (Some Unparseable) (fun _ => Ok tt)))
    as [[m f t c] b'] eqn:E.
  cbn in H1, H2, H3. subst m c b'.
  vm_compute in E. injection E as <- <-. reflexivity.
Defined.

(** X14: outside a browser nothing is ever written: when [window] is not
    defined, no call of [createOrder], [executeOrder], [cancelOrder],
    [updateOrderQuote], [importOrders] or [clearAllOrders] changes the
    storage.  The orders then live in memory only. *)
Theorem without_window_nothing_is_stored (s : State) :
  window_defined (snd s) = false ->
  (forall c, snd (call c s) = snd s)
  /\ (forall text, snd (snd (importOrders text s)) = snd s)
  /\ snd (snd (clearAllOrders s)) = snd s.
Proof.
  intros H.
  assert (Hp : forall mgr, snd (persisted (mgr, snd s)) = snd s)
    by (intros mgr; unfold persisted; cbn [snd fst]; now rewrite H).
  split; [|split].
  - intros c.
    destruct (call_effect c s) as [->|[[mgr ->]|[_ ->]]];
      [reflexivity | apply Hp | reflexivity].
  - intros text. unfold importOrders, try_catchM, OrderManager.bind, lift,
      set_orders, OrderManager.throw.
    destruct text as [| |[|es|]]; cbn [JSON_parse new_Map length_of fst snd];
      try reflexivity; rewrite persistOrders_eq; cbn [fst snd]; apply Hp.
  - unfold clearAllOrders, OrderManager.bind, set_orders, set_orderIdCounter.
    cbn [fst snd]. rewrite persistOrders_eq. cbn [snd]. apply Hp.
Qed.

Lemma without_window_nothing_is_stored_witness :
  let offline : State :=
    (mkManager Map_empty (of_Z 100) treasury 0, mkBrowser false None (fun _ => Ok tt)) in
  (exists orderId s',
     createOrder calm (params_of 1000000) (Some alice) offline = (Ok orderId, s')
     /\ snd s' = mkBrowser false None (fun _ => Ok tt))
  /\ snd (snd (clearAllOrders offline)) = mkBrowser false None (fun _ => Ok tt).
Proof.
  cbv zeta.
  destruct (without_window_nothing_is_stored
              (mkManager Map_empty (of_Z 100) treasury 0, mkBrowser false None (fun _ => Ok tt))
              eq_refl) as (Hc & _ & Hclear).
  split; [|exact Hclear].
  specialize (Hc (Create calm (params_of 1000000) (Some alice))). cbn [call] in Hc.
  destruct (createOrder calm (params_of 1000000) (Some alice) _) as [[orderId|e] s']
    eqn:E; [|vm_compute in E; discriminate E].
  now exists orderId, s'.
Defined.

(** ** Import *)

Lemma fold_set_get {V : Type} (es : list (string * V)) m k :
  Map_get k (fold_left (fun acc kv => Map_set (fst kv) (snd kv) acc) es m)
  = match Map_get k (List.rev es) with
    | Some v => Some v
    | None => Map_get k m
    end.
Proof.
  revert m. induction es as [|[k0 v0] es IH]; intros m; [reflexivity|].
  cbn [fold_left fst snd List.rev]. rewrite IH.
  assert (Happ : forall l : Map V,
            Map_get k (l ++ [(k0, v0)])%list
            = match Map_get k l with
              | Some v => Some v
              | None => if String.eqb k k0 then Some v0 else None
              end).
  { induction l as [|[k1 v1] l IHl]; cbn; [reflexivity|].
    destruct (String.eqb k k1); [reflexivity | exact IHl]. }
  rewrite Happ. destruct (Map_get k (List.rev es)); [reflexivity|].
  destruct (String.eqb_spec k k0) as [->|Hne].
  - apply Map_get_set_same.
  - now apply Map_get_set_other.
Qed.

(** X15: [importOrders] replaces the collection by what the text holds
    and nothing else.  For a text that is an array of [[id, order]] pairs
    it returns; the ids of the new collection are distinct; each id maps
    to the last record the text gives for it ([NaN] apart, which the text
    cannot hold); no order of the previous collection survives unless the
    text names it; the counter, fee rate and treasury stay as they were.
    The new collection is written to storage when there is a [window] and
    the storage takes it; when not, the call returns all the same and the
    storage is left as it was. *)
Theorem importOrders_replaces_the_collection (es : list (string * Order))
    (s : State) :
  exists s',
    importOrders (JSONText (DocEntries es)) s = (Ok tt, s')
    /\ NoDup (Map_keys (fst s').(orders))
    /\ (forall k, Map_get k (fst s').(orders) = Map_get k (List.rev es))
    /\ (forall k, In k (Map_keys (fst s').(orders)) <-> In k (map fst es))
    /\ (fst s').(orderIdCounter) = (fst s).(orderIdCounter)
    /\ (fst s').(protocolFeeBps) = (fst s).(protocolFeeBps)
    /\ (fst s').(treasuryWallet) = (fst s).(treasuryWallet)
    /\ ((snd s).(window_defined) = true ->
        (snd s).(setItem) (JSON_stringify (Map_entries (fst s').(orders)))
        = Ok tt ->
        (snd s').(jupiter_orders)
        = Some (JSON_stringify (Map_entries (fst s').(orders))))
    /\ ((snd s).(window_defined) = false
        \/ (exists e,
              (snd s).(setItem) (JSON_stringify (Map_entries (fst s').(orders)))
              = Throw e) ->
        snd s' = snd s).
Proof.
  eexists. split; [apply importOrders_entries|].
  rewrite persisted_manager. cbn [fst orders with_orders].
  assert (Hget : forall k, Map_get k (Map_of_entries es) = Map_get k (List.rev es)).
  { intros k. unfold Map_of_entries. rewrite fold_set_get.
    now destruct (Map_get k (List.rev es)). }
  split; [apply Map_of_entries_NoDup|]. split; [exact Hget|]. split.
  - intros k. split; intros H.
    + destruct (Map_get k (Map_of_entries es)) as [v|] eqn:E.
      * rewrite Hget in E.
        assert (Hin : In k (Map_keys (List.rev es))).
        { destruct (in_dec string_dec k (Map_keys (List.rev es))) as [Hi|Hi];
            [exact Hi|]. apply Map_get_None in Hi. congruence. }
        unfold Map_keys in Hin. rewrite map_rev in Hin. now apply in_rev.
      * apply Map_get_None in E. contradiction.
    + destruct (in_dec string_dec k (Map_keys (Map_of_entries es)))
        as [Hi|Hi]; [exact Hi|].
      apply Map_get_None in Hi. rewrite Hget in Hi. apply Map_get_None in Hi.
      exfalso. apply Hi. unfold Map_keys. rewrite map_rev. now apply in_rev in H.
  - repeat split.
    + intros Hw Ha. now rewrite persisted_window.
    + intros H. now rewrite persisted_refused.
Qed.

(** X16: [importOrders] refuses a text that cannot be parsed, and a
    document that is not iterable, with 'Invalid orders data format' and
    leaves the manager and the storage untouched.  The text [null] gets
    the same error, but only after the collection has been replaced by an
    empty one: the orders held before are lost, from memory in every case
    and from the storage too when there is a [window] and the storage
    takes the write. *)
Theorem importOrders_rejections (s : State) :
  importOrders EmptyText s
  = (Throw (mkError "Invalid orders data format"), s)
  /\ importOrders Unparseable s
     = (Throw (mkError "Invalid orders data format"), s)
  /\ importOrders (JSONText DocOther) s
     = (Throw (mkError "Invalid orders data format"), s)
  /\ exists s',
       importOrders (JSONText DocNull) s
       = (Throw (mkError "Invalid orders data format"), s')
       /\ fst s' = with_orders Map_empty (fst s)
       /\ ((snd s).(window_defined) = true ->
           (snd s).(setItem) (JSONText (DocEntries [])) = Ok tt ->
           (snd s').(jupiter_orders) = Some (JSONText (DocEntries [])))
       /\ ((snd s).(window_defined) = false
           \/ (exists e, (snd s).(setItem) (JSONText (DocEntries [])) = Throw e) ->
           snd s' = snd s).
Proof.
  unfold importOrders, try_catchM, OrderManager.bind, lift, set_orders,
    OrderManager.throw.
  cbn [JSON_parse new_Map length_of fst snd]. rewrite persistOrders_eq.
  repeat (split; [reflexivity|]).
  eexists. split; [reflexivity|]. split; [apply persisted_manager|]. split.
  - intros Hw Ha.
    now rewrite (persisted_window (with_orders Map_empty (fst s), snd s) Hw Ha).
  - intros H.
    now rewrite (persisted_refused (with_orders Map_empty (fst s), snd s) H).
Qed.

(** X17: after [clearAllOrders] no order is left in the manager and the
    counter is back at 0.  When there is a [window] and the storage takes
    the write, the storage then holds the empty collection and a manager
    started over it is empty as well; when not, the storage is left as it
    was, with the orders it held. *)
Theorem clearAllOrders_empties_everything (w : World) (s : State) :
  exists s',
    clearAllOrders s = (Ok tt, s')
    /\ (fst s').(orders) = Map_empty
    /\ (forall orderId, getOrder orderId (fst s') = None)
    /\ (fst s').(orderIdCounter) = 0
    /\ ((snd s).(window_defined) = true ->
        (snd s).(setItem) (JSONText (DocEntries [])) = Ok tt ->
        (snd s').(jupiter_orders) = Some (JSONText (DocEntries []))
        /\ restart w s' = s')
    /\ ((snd s).(window_defined) = false
        \/ (exists e, (snd s).(setItem) (JSONText (DocEntries [])) = Throw e) ->
        snd s' = snd s).
Proof.
  rewrite clearAllOrders_eq. eexists. split; [reflexivity|].
  rewrite persisted_manager. cbn [fst orders orderIdCounter].
  set (cleared := (mkManager Map_empty (fst s).(protocolFeeBps)
                     (fst s).(treasuryWallet) 0, snd s)).
  repeat split.
  - intros. now apply (persisted_window cleared).
  - apply restart_in_sync.
    + now apply persisted_in_sync.
    + rewrite persisted_manager. constructor.
    + rewrite persisted_manager. reflexivity.
    + rewrite persisted_manager. reflexivity.
  - intros H. now rewrite (persisted_refused cleared H).
Qed.

Lemma clearAllOrders_empties_everything_witness :
  (exists s',
     clearAllOrders one_pending = (Ok tt, s')
     /\ (snd s').(jupiter_orders) = Some (JSONText (DocEntries []))
     /\ restart calm s' = s')
  /\ snd (snd (clearAllOrders one_pending_full)) = snd one_pending_full.
Proof.
  split.
  - destruct (clearAllOrders_empties_everything calm one_pending)
      as (s' & H1 & _ & _ & _ & H5 & _).
    exists s'. split; [exact H1|]. apply H5; reflexivity.
  - destruct (clearAllOrders_empties_everything calm one_pending_full)
      as (s' & H1 & _ & _ & _ & _ & H6).
    rewrite H1. apply H6. right. now eexists.
Defined.

(** ** Listings *)

Section SortFacts.

Context {A : Type} (compare : A -> A -> number).

Lemma insert_sorted_perm x l :
  Permutation (insert_sorted compare x l) (x :: l).
Proof.
  induction l as [|y l IH]; cbn [insert_sorted]; [reflexivity|].
  destruct (number_gt (compare x y) (of_Z 0)); [|reflexivity].
  rewrite IH. apply perm_swap.
Qed.

Lemma Array_sort_perm l : Permutation (Array_sort compare l) l.
Proof.
  induction l as [|x l IH]; cbn [Array_sort fold_right]; [reflexivity|].
  fold (Array_sort compare l). rewrite insert_sorted_perm. now constructor.
Qed.

Lemma Array_sort_In x l : In x (Array_sort compare l) <-> In x l.
Proof.
  split; apply Permutation_in; [|symmetry]; apply Array_sort_perm.
Qed.

Lemma Array_sort_length l : List.length (Array_sort compare l) = List.length l.
Proof. apply Permutation_length, Array_sort_perm. Qed.

(** An element that compares greater than all of [l] goes last. *)
Lemma insert_sorted_last x l :
  Forall (fun y => number_gt (compare x y) (of_Z 0) = true) l ->
  insert_sorted compare x l = (l ++ [x])%list.
Proof.
  induction 1 as [|y l Hy _ IH]; cbn [insert_sorted]; [reflexivity|].
  now rewrite Hy, IH.
Qed.

End SortFacts.

Lemma number_gt_sub x y :
  is_number x = true -> is_number y = true ->
  number_gt (number_sub y x) (of_Z 0) = negb (number_le y x).
Proof.
  unfold number_gt, number_sub, number_le, of_Z.
  destruct x as [| |p], y as [| |q]; try discriminate; intros _ _;
    cbn [numeric]; f_equal; apply eq_true_iff_eq;
    rewrite !Qle_bool_iff; unfold inject_Z; split; intros H; lra.
Qed.

Lemma newest_first_gt a b :
  is_number a.(timestamp) = true -> is_number b.(timestamp) = true ->
  number_gt (newest_first a b) (of_Z 0) = false <-> not_newer a b.
Proof.
  intros Ha Hb. unfold newest_first, not_newer.
  rewrite (number_gt_sub _ _ Ha Hb). apply negb_false_iff.
Qed.

Lemma not_newer_trans a b c :
  not_newer a b -> not_newer b c -> not_newer a c.
Proof.
  unfold not_newer, number_le.
  destruct (numeric a.(timestamp)) as [p|], (numeric b.(timestamp)) as [q|],
    (numeric c.(timestamp)) as [r|]; try discriminate.
  rewrite !Qle_bool_iff. intros; lra.
Qed.

Lemma insert_sorted_newest_first x l :
  is_number x.(timestamp) = true ->
  Forall (fun o => is_number o.(timestamp) = true) l ->
  StronglySorted not_newer l ->
  StronglySorted not_newer (insert_sorted newest_first x l).
Proof.
  intros Hx Hl Hs. induction Hs as [|y l Hs IH Hy]; cbn [insert_sorted].
  - repeat constructor.
  - apply Forall_cons_iff in Hl as [Hny Hl].
    destruct (number_gt (newest_first x y) (of_Z 0)) eqn:E.
    + constructor; [now apply IH|].
      eapply Permutation_Forall; [symmetry; apply insert_sorted_perm|].
      constructor; [|exact Hy].
      unfold not_newer. unfold newest_first in E.
      rewrite (number_gt_sub _ _ Hx Hny) in E. apply negb_true_iff in E.
      unfold number_le in *.
      destruct x.(timestamp) as [| |p], y.(timestamp) as [| |q];
        try discriminate; cbn [numeric] in *; apply Qle_bool_iff;
        apply not_true_iff_false in E; rewrite Qle_bool_iff in E; lra.
    + apply (newest_first_gt _ _ Hx Hny) in E.
      constructor; [now constructor|].
      constructor; [exact E|].
      eapply Forall_impl; [|exact Hy].
      intros z Hz. now apply not_newer_trans with (b := y).
Qed.

Lemma Array_sort_newest_first l :
  Forall (fun o => is_number o.(timestamp) = true) l ->
  StronglySorted not_newer (Array_sort newest_first l).
Proof.
  induction 1 as [|x l Hx Hl IH]; cbn [Array_sort fold_right]; [constructor|].
  apply insert_sorted_newest_first; [exact Hx | | exact IH].
  eapply Permutation_Forall; [symmetry; apply Array_sort_perm|].
  exact Hl.
Qed.

(** X18: [getUserOrders] returns the orders of the given creator, all of
    them, each as often as it is stored, and no one else's: an order
    created by one account never shows in the list of another.  The list
    runs from the newest to the oldest when the timestamps are numbers. *)
Theorem getUserOrders_lists_the_creators_orders (userPublicKey : PublicKey)
    (mgr : Manager) :
  (forall o, In o (getUserOrders userPublicKey mgr)
             <-> In o (Map_values mgr.(orders))
                 /\ o.(creator) = userPublicKey.(toBase58))
  /\ Permutation (getUserOrders userPublicKey mgr)
       (filter (fun o => String.eqb o.(creator) userPublicKey.(toBase58))
          (Map_values mgr.(orders)))
  /\ (forall other o,
        other.(toBase58) <> userPublicKey.(toBase58) ->
        In o (getUserOrders userPublicKey mgr) ->
        ~ In o (getUserOrders other mgr))
  /\ (Forall (fun o => is_number o.(timestamp) = true) (Map_values mgr.(orders)) ->
      StronglySorted not_newer (getUserOrders userPublicKey mgr)).
Proof.
  assert (Hin : forall pk o,
            In o (getUserOrders pk mgr)
            <-> In o (Map_values mgr.(orders)) /\ o.(creator) = pk.(toBase58)).
  { intros pk o. unfold getUserOrders. rewrite Array_sort_In, filter_In.
    now destruct (String.eqb_spec o.(creator) pk.(toBase58)); intuition. }
  split; [apply Hin|]. split; [apply Array_sort_perm|]. split.
  - intros other o Hne H1 H2. apply Hin in H1 as [_ H1], H2 as [_ H2].
    congruence.
  - intros Hnum. apply Array_sort_newest_first.
    apply Forall_forall. intros o Ho. apply filter_In in Ho as [Ho _].
    revert o Ho. now apply Forall_forall.
Qed.

(** X19: [getAllOrders] and [getOrdersByStatus] neither drop nor invent
    orders: the first is a rearrangement of the whole collection, the
    second holds exactly the stored orders of the given status; the
    listings by status are pairwise disjoint.  Both run from the newest
    to the oldest when the timestamps are numbers, and when the orders
    were stored with strictly increasing timestamps [getAllOrders] is the
    collection in reverse. *)
Theorem listings_rearrange_the_collection (mgr : Manager) :
  Permutation (getAllOrders mgr) (Map_values mgr.(orders))
  /\ (forall st o, In o (getOrdersByStatus st mgr)
                   <-> In o (Map_values mgr.(orders)) /\ o.(status) = st)
  /\ (forall st st' o, st <> st' -> In o (getOrdersByStatus st mgr) ->
                       ~ In o (getOrdersByStatus st' mgr))
  /\ (Forall (fun o => is_number o.(timestamp) = true) (Map_values mgr.(orders)) ->
      StronglySorted not_newer (getAllOrders mgr)
      /\ forall st, StronglySorted not_newer (getOrdersByStatus st mgr))
  /\ (StronglySorted
        (fun a b => number_gt (newest_first a b) (of_Z 0) = true)
        (Map_values mgr.(orders)) ->
      getAllOrders mgr = List.rev (Map_values mgr.(orders))).
Proof.
  assert (Hin : forall st o,
            In o (getOrdersByStatus st mgr)
            <-> In o (Map_values mgr.(orders)) /\ o.(status) = st).
  { intros st o. unfold getOrdersByStatus. rewrite Array_sort_In, filter_In.
    now destruct (OrderStatus_eqb_spec o.(status) st); intuition. }
  split; [apply Array_sort_perm|]. split; [exact Hin|]. split; [|split].
  - intros st st' o Hne H1 H2. apply Hin in H1 as [_ H1], H2 as [_ H2].
    congruence.
  - intros Hnum. split; [now apply Array_sort_newest_first|].
    intros st. apply Array_sort_newest_first.
    apply Forall_forall. intros o Ho. apply filter_In in Ho as [Ho _].
    revert o Ho. now apply Forall_forall.
  - clear Hin. unfold getAllOrders. induction 1 as [|x l Hs IH Hx];
      cbn [Array_sort fold_right List.rev]; [reflexivity|].
    fold (Array_sort newest_first l). rewrite IH.
    apply insert_sorted_last. apply Forall_forall. intros y Hy.
    apply in_rev in Hy. revert y Hy. now apply Forall_forall.
Qed.

Lemma getUserOrders_lists_the_creators_orders_witness :
  map id (getUserOrders alice (fst busy))
  = ["order_1700000120000_0003"; first_id]
  /\ map id (getUserOrders bob (fst busy)) = ["order_1700000060000_0002"]
  /\ StronglySorted not_newer (getUserOrders alice (fst busy)).
Proof.
  split; [vm_compute; reflexivity|]. split; [vm_compute; reflexivity|].
  apply (getUserOrders_lists_the_creators_orders alice (fst busy)).
  vm_compute. repeat constructor.
Defined.

Lemma listings_rearrange_the_collection_witness :
  map id (getAllOrders (fst busy))
  = ["order_1700000120000_0003"; "order_1700000060000_0002"; first_id]
  /\ getAllOrders (fst busy) = List.rev (Map_values (fst busy).(orders))
  /\ map id (getOrdersByStatus FULFILLED (fst busy)) = [first_id].
Proof.
  split; [vm_compute; reflexivity|]. split; [|vm_compute; reflexivity].
  apply (listings_rearrange_the_collection (fst busy)).
  vm_compute. repeat constructor.
Defined.

(** ** Statistics *)

Lemma Map_set_split {V : Type} k (v v0 : V) m :
  Map_get k m = Some v0 ->
  exists l1 l2,
    Map_values m = (l1 ++ v0 :: l2)%list
    /\ Map_values (Map_set k v m) = (l1 ++ v :: l2)%list.
Proof.
  induction m as [|[k' v'] m IH]; [discriminate|]. cbn [Map_get Map_set].
  destruct (String.eqb k k').
  - intros [= ->]. now exists [], (Map_values m).
  - intros H. destruct (IH H) as (l1 & l2 & E1 & E2).
    exists (v' :: l1), l2. unfold Map_values in *. cbn [map Datatypes.app].
    now rewrite E1, E2.
Qed.

Lemma Map_values_set_new {V : Type} k (v : V) m :
  Map_get k m = None -> Map_values (Map_set k v m) = (Map_values m ++ [v])%list.
Proof.
  induction m as [|[k' v'] m IH]; [reflexivity|]. cbn [Map_get Map_set].
  destruct (String.eqb k k'); [discriminate|].
  intros H. unfold Map_values in *. cbn [map Datatypes.app].
  now rewrite (IH H).
Qed.

Lemma has_status_iff st o : has_status st o = true <-> o.(status) = st.
Proof.
  unfold has_status. destruct (OrderStatus_eqb_spec o.(status) st);
    split; congruence.
Qed.

Lemma has_status_eq st o : has_status st o = OrderStatus_eqb o.(status) st.
Proof. reflexivity. Qed.

Lemma has_status_other st st' o :
  o.(status) = st' -> st' <> st -> has_status st o = false.
Proof.
  intros H Hne. destruct (has_status st o) eqn:E; [|reflexivity].
  apply has_status_iff in E. congruence.
Qed.

Lemma has_status_same st o : o.(status) = st -> has_status st o = true.
Proof. apply has_status_iff. Qed.

(** Replacing one order moves one unit between the counts of its old and
    its new status. *)
Lemma count_replace st (l1 l2 : list Order) o o' :
  (List.length (filter (has_status st) (l1 ++ o' :: l2))
   + (if has_status st o then 1 else 0)
   = List.length (filter (has_status st) (l1 ++ o :: l2))
     + (if has_status st o' then 1 else 0))%nat.
Proof.
  rewrite !filter_app, !length_app. cbn [filter].
  destruct (has_status st o), (has_status st o'); cbn [List.length]; lia.
Qed.

Lemma opt_Qeq_refl x : opt_Qeq x x.
Proof. destruct x; simpl; [reflexivity | exact I]. Qed.

Lemma opt_Qeq_sym x y : opt_Qeq x y -> opt_Qeq y x.
Proof. destruct x, y; simpl; auto. intros H. now symmetry. Qed.

Lemma opt_Qeq_trans x y z : opt_Qeq x y -> opt_Qeq y z -> opt_Qeq x z.
Proof.
  destruct x, y, z; simpl; try tauto. intros H1 H2. now rewrite H1.
Qed.

Lemma numeric_number_add a b :
  numeric (number_add a b)
  = match numeric a, numeric b with
    | Some x, Some y => Some (x + y)%Q
    | _, _ => None
    end.
Proof. unfold number_add. now destruct (numeric a), (numeric b). Qed.

Lemma fold_sum_numeric f (l : list Order) acc :
  opt_Qeq
    (numeric (fold_left (fun sum x => number_add sum (f x)) l acc))
    (match numeric acc, sumQ f l with
     | Some a, Some t => Some (a + t)%Q
     | _, _ => None
     end).
Proof.
  revert acc. induction l as [|x l IH]; intros acc; cbn [fold_left sumQ fold_right].
  - destruct (numeric acc); simpl; [ring | exact I].
  - eapply opt_Qeq_trans; [apply IH|]. rewrite numeric_number_add.
    fold (sumQ f l).
    destruct (numeric acc), (numeric (f x)), (sumQ f l); simpl; try exact I.
    ring.
Qed.

Lemma reduce_sum_numeric f (l : list Order) :
  opt_Qeq (numeric (reduce_sum f l)) (sumQ f l).
Proof.
  unfold reduce_sum. eapply opt_Qeq_trans; [apply fold_sum_numeric|].
  cbn [numeric of_Z]. destruct (sumQ f l); simpl; [ring | exact I].
Qed.

Lemma sumQ_insert f (l1 l2 : list Order) o :
  opt_Qeq (sumQ f (l1 ++ o :: l2))
    (match sumQ f (l1 ++ l2), numeric (f o) with
     | Some t, Some a => Some (t + a)%Q
     | _, _ => None
     end).
Proof.
  induction l1 as [|x l1 IH]; cbn [Datatypes.app sumQ fold_right].
  - fold (sumQ f l2). destruct (numeric (f o)), (sumQ f l2); simpl;
      try exact I. ring.
  - fold (sumQ f (l1 ++ o :: l2)) (sumQ f (l1 ++ l2)).
    destruct (sumQ f (l1 ++ o :: l2)), (sumQ f (l1 ++ l2)), (numeric (f o)),
      (numeric (f x)); simpl in *; try tauto. rewrite IH. ring.
Qed.

(** In exact arithmetic a sum over the list with one more element is the
    sum over the list plus the value at that element. *)
Lemma reduce_sum_insert f (l1 l2 : list Order) o :
  same_value (reduce_sum f (l1 ++ o :: l2))
    (number_add (reduce_sum f (l1 ++ l2)) (f o)).
Proof.
  unfold same_value.
  change (opt_Qeq (numeric (reduce_sum f (l1 ++ o :: l2)))
            (numeric (number_add (reduce_sum f (l1 ++ l2)) (f o)))).
  eapply opt_Qeq_trans; [apply reduce_sum_numeric|].
  eapply opt_Qeq_trans; [apply sumQ_insert|].
  rewrite numeric_number_add.
  pose proof (reduce_sum_numeric f (l1 ++ l2)) as H.
  destruct (numeric (reduce_sum f (l1 ++ l2))), (sumQ f (l1 ++ l2)),
    (numeric (f o)); simpl in *; try tauto. now rewrite H.
Qed.

(** The statistics and the fee total once the stored order [o] has become
    [o']: the total stands, one unit moves between the counts, and the two
    sums stand unless the order has become fulfilled. *)
Lemma stats_after_update orderId (o o' : Order) (s : State) :
  Map_get orderId (fst s).(orders) = Some o ->
  o.(status) <> FULFILLED ->
  let before := getOrderStats (fst s) in
  let after := getOrderStats (fst (persisted (updated orderId o' s))) in
  let fees := getTotalFeesCollected (fst s) in
  let fees' := getTotalFeesCollected (fst (persisted (updated orderId o' s))) in
  after.(total) = before.(total)
  /\ (forall st,
        (List.length
           (filter (has_status st)
              (Map_values (fst (persisted (updated orderId o' s))).(orders)))
         + (if has_status st o then 1 else 0)
         = List.length (filter (has_status st) (Map_values (fst s).(orders)))
           + (if has_status st o' then 1 else 0))%nat)
  /\ (o'.(status) <> FULFILLED ->
      after.(totalVolume) = before.(totalVolume) /\ fees' = fees)
  /\ (o'.(status) = FULFILLED ->
      same_value after.(totalVolume)
        (number_add before.(totalVolume) o'.(inputAmount))
      /\ same_value fees' (number_add fees o'.(protocolFee))).
Proof.
  intros Hget Hs. cbv zeta. rewrite persisted_manager.
  unfold getOrderStats, getTotalFeesCollected, updated.
  cbn [fst orders with_orders total totalVolume].
  destruct (Map_set_split orderId o' o _ Hget) as (l1 & l2 & -> & ->).
  split; [rewrite !length_app; reflexivity|].
  split; [intros st; apply count_replace|].
  rewrite !filter_app. cbn [filter].
  rewrite (has_status_other FULFILLED o.(status) o eq_refl Hs).
  split; intros Hs'.
  - now rewrite (has_status_other FULFILLED o'.(status) o' eq_refl Hs').
  - rewrite (has_status_same _ _ Hs'). split; apply reduce_sum_insert.
Qed.

Lemma count_by_status (l : list Order) :
  List.length l
  = (List.length (filter (has_status PENDING) l)
     + List.length (filter (has_status FULFILLED) l)
     + List.length (filter (has_status FAILED) l)
     + List.length (filter (has_status CANCELLED) l)
     + List.length (filter (has_status REFUNDED) l))%nat.
Proof.
  induction l as [|o l IH]; [reflexivity|]. cbn [filter List.length].
  assert (E : forall st, has_status st o = OrderStatus_eqb o.(status) st)
    by reflexivity.
  rewrite !E. destruct o.(status); cbn [OrderStatus_eqb List.length]; lia.
Qed.

(** X20: the statistics count the listings: [total] is the length of
    [getAllOrders], each of the four counts is the length of
    [getOrdersByStatus] for its status, and the orders the four counts
    leave out of [total] are exactly the [refunded] ones. *)
Theorem getOrderStats_counts_the_listings (mgr : Manager) :
  let stats := getOrderStats mgr in
  stats.(total) = List.length (getAllOrders mgr)
  /\ stats.(pending) = List.length (getOrdersByStatus PENDING mgr)
  /\ stats.(fulfilled) = List.length (getOrdersByStatus FULFILLED mgr)
  /\ stats.(failed) = List.length (getOrdersByStatus FAILED mgr)
  /\ stats.(cancelled) = List.length (getOrdersByStatus CANCELLED mgr)
  /\ stats.(total)
     = (stats.(pending) + stats.(fulfilled) + stats.(failed)
        + stats.(cancelled)
        + List.length (getOrdersByStatus REFUNDED mgr))%nat.
Proof.
  cbv zeta. unfold getOrderStats, getAllOrders, getOrdersByStatus.
  cbn [total pending fulfilled failed cancelled].
  rewrite !Array_sort_length. repeat split. apply count_by_status.
Qed.

Lemma whole_sum_sumQ f (l : list Order) sum :
  whole_sum f l sum -> opt_Qeq (sumQ f l) (Some (inject_Z sum)).
Proof.
  intros (ns & HF & -> & _). induction HF as [|o n l ns [Ho _] _ IH];
    cbn [sumQ fold_right]; [reflexivity|].
  fold (sumQ f l). unfold same_value in Ho. cbn [numeric of_Z] in Ho.
  destruct (numeric (f o)); [|contradiction].
  destruct (sumQ f l); [|contradiction]. simpl in *.
  rewrite Ho, IH. now rewrite inject_Z_plus.
Qed.

Lemma reduce_sum_whole f (l : list Order) sum :
  whole_sum f l sum -> same_value (reduce_sum f l) (of_Z sum).
Proof.
  intros H. apply whole_sum_sumQ in H.
  exact (opt_Qeq_trans _ _ _ (reduce_sum_numeric f l) H).
Qed.

Lemma whole_sum_In f (l : list Order) sum o :
  whole_sum f l sum -> In o l ->
  exists n, 0 <= n /\ same_value (f o) (of_Z n).
Proof.
  intros (ns & HF & _) Hin. induction HF as [|x n l ns [Hx Hn] _ IH];
    [contradiction|].
  destruct Hin as [->|Hin]; [now exists n | now apply IH].
Qed.

(** A sum that has grown by [a] from a value and has arrived at [sum]
    has grown from [sum - a]. *)
Lemma same_value_before (after before amount : number) (sum a : Z) :
  same_value after (number_add before amount) ->
  same_value after (of_Z sum) ->
  same_value amount (of_Z a) ->
  same_value before (of_Z (sum - a)).
Proof.
  unfold same_value. rewrite numeric_number_add. cbn [numeric of_Z].
  destruct (numeric after), (numeric before), (numeric amount);
    try contradiction.
  intros H1 H2 H3. unfold Z.sub. rewrite inject_Z_plus, inject_Z_opp.
  rewrite <- H2, <- H3, H1. ring.
Qed.

(** X21: what an execution does to the statistics.  Executing a stored
    pending order leaves [total] and [cancelled] as they were and takes
    one from [pending].  When the call returns, [fulfilled] grows by one;
    and where the amounts of the orders then fulfilled are whole numbers,
    none negative, that add up to at most [2 ** 53], [totalVolume] is
    their sum and has grown by the order's input amount; so for the
    protocol fees and the fees collected.  When the call raises, [failed]
    grows by one and neither sum changes. *)
Theorem executeOrder_statistics (w : World) (orderId : string)
    (wallet : Wallet) (s : State) (order : Order) :
  Map_get orderId (fst s).(orders) = Some order ->
  order.(status) = PENDING ->
  let s' := snd (executeOrder w orderId wallet s) in
  let before := getOrderStats (fst s) in
  let after := getOrderStats (fst s') in
  let fees := getTotalFeesCollected (fst s) in
  let fees' := getTotalFeesCollected (fst s') in
  let fulfilled_orders :=
    filter (has_status FULFILLED) (Map_values (fst s').(orders)) in
  after.(total) = before.(total)
  /\ before.(pending) = S after.(pending)
  /\ after.(cancelled) = before.(cancelled)
  /\ (fst (executeOrder w orderId wallet s) = Ok tt ->
      after.(fulfilled) = S before.(fulfilled)
      /\ after.(failed) = before.(failed)
      /\ (forall volume, whole_sum inputAmount fulfilled_orders volume ->
            exists a,
              0 <= a
              /\ same_value order.(inputAmount) (of_Z a)
              /\ same_value before.(totalVolume) (of_Z (volume - a))
              /\ same_value after.(totalVolume) (of_Z volume))
      /\ (forall collected, whole_sum protocolFee fulfilled_orders collected ->
            exists k,
              0 <= k
              /\ same_value order.(protocolFee) (of_Z k)
              /\ same_value fees (of_Z (collected - k))
              /\ same_value fees' (of_Z collected)))
  /\ (forall e, fst (executeOrder w orderId wallet s) = Throw e ->
      after.(failed) = S before.(failed)
      /\ after.(fulfilled) = before.(fulfilled)
      /\ after.(totalVolume) = before.(totalVolume)
      /\ fees' = fees).
Proof.
  intros Hget Hs. cbv zeta.
  assert (Hnf : order.(status) <> FULFILLED) by (rewrite Hs; discriminate).
  assert (Hreach :
    (exists r, fst (executeOrder w orderId wallet s) = Ok tt
       /\ snd (executeOrder w orderId wallet s)
          = persisted (updated orderId (fulfilled_by r order) s))
    \/ (exists e msg, fst (executeOrder w orderId wallet s) = Throw e
          /\ snd (executeOrder w orderId wallet s)
             = persisted (updated orderId (failed_with msg order) s))).
  { rewrite (executeOrder_pending _ _ _ _ _ Hget Hs).
    destruct (JupiterService.executeOrderSwap _ _ _) as [r|e];
      [destruct r.(success)|]; cbv zeta.
    - left. now exists r.
    - right. now eexists _, _. 
    - right. now eexists _, _. }
  destruct Hreach as [(r & Hr & Hs')|(e & msg & Hr & Hs')]; rewrite Hr, Hs';
    [destruct (stats_after_update orderId order (fulfilled_by r order) s
                 Hget Hnf) as (Ht & Hc & _ & Hf)
    |destruct (stats_after_update orderId order (failed_with msg order) s
                 Hget Hnf) as (Ht & Hc & Hf & _)];
    cbv zeta in *;
    pose proof (Hc PENDING) as Hp; pose proof (Hc FULFILLED) as Hfu;
    pose proof (Hc FAILED) as Hfa; pose proof (Hc CANCELLED) as Hca;
    clear Hc; rewrite !has_status_eq in Hp, Hfu, Hfa, Hca;
    cbn [fulfilled_by failed_with set_status set_errorMessage
         set_actualOutputAmount set_transactionSignature status inputAmount
         protocolFee] in *;
    rewrite Hs in *; cbn [OrderStatus_eqb] in *.
  - assert (Hin : In (fulfilled_by r order)
                    (filter (has_status FULFILLED)
                       (Map_values
                          (fst (persisted
                                  (updated orderId (fulfilled_by r order) s))).(orders)))).
    { apply filter_In. split; [|reflexivity].
      apply Map_get_In with orderId. rewrite persisted_manager.
      apply updated_get. }
    destruct (Hf eq_refl) as [Hv Hfee].
    unfold getOrderStats in Ht, Hp, Hfu, Hfa, Hca |- *;
      cbn [total pending fulfilled failed cancelled] in *.
    split; [exact Ht|]. split; [lia|]. split; [lia|].
    split; [|intros e; discriminate]. intros _.
    split; [lia|]. split; [lia|]. split.
    + intros volume Hw.
      destruct (whole_sum_In _ _ _ _ Hw Hin) as (a & Ha & Hoa).
      exists a. split; [exact Ha|]. split; [exact Hoa|].
      pose proof (reduce_sum_whole _ _ _ Hw) as Hafter.
      split; [|exact Hafter].
      exact (same_value_before _ _ _ _ _ Hv Hafter Hoa).
    + intros collected Hw.
      destruct (whole_sum_In _ _ _ _ Hw Hin) as (k & Hk & Hok).
      exists k. split; [exact Hk|]. split; [exact Hok|].
      pose proof (reduce_sum_whole _ _ _ Hw) as Hafter.
      split; [|exact Hafter].
      exact (same_value_before _ _ _ _ _ Hfee Hafter Hok).
  - unfold getOrderStats in *; cbn [total pending fulfilled failed cancelled
                                    totalVolume] in *.
    split; [exact Ht|]. split; [lia|]. split; [lia|].
    split; [discriminate|]. intros e' _.
    destruct Hf as [Hv Hfee]; [discriminate|]. repeat split; try lia;
      assumption.
Qed.

Lemma executeOrder_statistics_witness :
  (getOrderStats (fst one_pending)).(pending) = 1%nat
  /\ (getOrderStats (fst one_fulfilled)).(pending) = 0%nat
  /\ (getOrderStats (fst one_fulfilled)).(fulfilled) = 1%nat
  /\ (exists a,
        0 <= a
        /\ same_value (getOrderStats (fst one_pending)).(totalVolume)
             (of_Z (1000000 - a))
        /\ same_value (getOrderStats (fst one_fulfilled)).(totalVolume)
             (of_Z 1000000))
  /\ (exists k,
        0 <= k
        /\ same_value (getTotalFeesCollected (fst one_pending))
             (of_Z (10000 - k))
        /\ same_value (getTotalFeesCollected (fst one_fulfilled))
             (of_Z 10000)).
Proof.
  destruct (Map_get first_id (fst one_pending).(orders)) as [order|] eqn:E;
    [|vm_compute in E; discriminate E].
  assert (Hs : order.(status) = PENDING)
    by (vm_compute in E; injection E as <-; reflexivity).
  destruct (executeOrder_statistics calm first_id wallet one_pending order E Hs)
    as (_ & Hp & _ & Hok & _).
  fold one_fulfilled in Hp, Hok.
  destruct Hok as (Hf & _ & Hv & Hfee); [vm_compute; reflexivity|].
  split; [vm_compute; reflexivity|].
  split; [assert (P : (getOrderStats (fst one_pending)).(pending) = 1%nat)
            by (vm_compute; reflexivity); rewrite P in Hp; congruence|].
  split; [rewrite Hf; vm_compute; reflexivity|].
  split.
  - destruct (Hv 1000000) as (a & Ha & _ & Hb & Hafter).
    + exists [1000000]. split; [|split; [reflexivity | vm_compute; discriminate]].
      vm_compute. repeat constructor; discriminate.
    + now exists a.
  - destruct (Hfee 10000) as (k & Hk & _ & Hb & Hafter).
    + exists [10000]. split; [|split; [reflexivity | vm_compute; discriminate]].
      vm_compute. repeat constructor; discriminate.
    + now exists k.
Defined.

Lemma cancelOrder_succeeds orderId pk s s' :
  cancelOrder orderId pk s = (Ok tt, s') ->
  exists order,
    Map_get orderId (fst s).(orders) = Some order
    /\ order.(status) = PENDING
    /\ order.(creator) = pk.(toBase58)
    /\ s' = persisted (updated orderId (set_status CANCELLED order) s).
Proof.
  intros H. destruct (Map_get orderId (fst s).(orders)) as [order|] eqn:Hget;
    [|rewrite (cancelOrder_missing _ _ _ Hget) in H; discriminate].
  destruct (OrderStatus_eqb_spec order.(status) PENDING) as [Hs|Hs];
    [|destruct (cancelOrder_refuses orderId pk s order Hget Hs) as [e He];
      rewrite He in H; discriminate].
  destruct (string_dec order.(creator) pk.(toBase58)) as [Hc|Hc];
    [|rewrite (cancelOrder_unauthorized _ _ _ _ Hget Hc) in H; discriminate].
  rewrite (cancelOrder_ok _ _ _ _ Hget Hc Hs) in H. injection H as <-.
  now exists order.
Qed.

(** X22: what a cancellation does to the statistics.  A [cancelOrder]
    that returns moves one order from [pending] to [cancelled]; [total],
    [fulfilled], [failed], [totalVolume] and the fees collected stand. *)
Theorem cancelOrder_statistics (orderId : string) (userPublicKey : PublicKey)
    (s s' : State) :
  cancelOrder orderId userPublicKey s = (Ok tt, s') ->
  let before := getOrderStats (fst s) in
  let after := getOrderStats (fst s') in
  after.(total) = before.(total)
  /\ before.(pending) = S after.(pending)
  /\ after.(cancelled) = S before.(cancelled)
  /\ after.(fulfilled) = before.(fulfilled)
  /\ after.(failed) = before.(failed)
  /\ after.(totalVolume) = before.(totalVolume)
  /\ getTotalFeesCollected (fst s') = getTotalFeesCollected (fst s).
Proof.
  intros H. destruct (cancelOrder_succeeds _ _ _ _ H)
    as (order & Hget & Hs & _ & ->). cbv zeta.
  assert (Hnf : order.(status) <> FULFILLED) by (rewrite Hs; discriminate).
  destruct (stats_after_update orderId order (set_status CANCELLED order) s
              Hget Hnf) as (Ht & Hc & Hf & _).
  cbv zeta in *.
  pose proof (Hc PENDING) as Hp; pose proof (Hc FULFILLED) as Hfu;
    pose proof (Hc FAILED) as Hfa; pose proof (Hc CANCELLED) as Hca;
    clear Hc; rewrite !has_status_eq in Hp, Hfu, Hfa, Hca;
    cbn [set_status status] in *; rewrite Hs in *;
    cbn [OrderStatus_eqb] in *;
    unfold getOrderStats in *;
    cbn [total pending fulfilled failed cancelled totalVolume] in *.
  destruct Hf as [Hv Hfee]; [discriminate|].
  repeat split; try lia; assumption.
Qed.

Lemma cancelOrder_statistics_witness :
  (getOrderStats (fst (snd (cancelOrder first_id alice one_pending)))).(cancelled)
  = 1%nat
  /\ (getOrderStats (fst (snd (cancelOrder first_id alice one_pending)))).(pending)
     = 0%nat.
Proof.
  destruct (cancelOrder first_id alice one_pending) as [[[]|e] s'] eqn:H;
    [|vm_compute in H; discriminate H].
  destruct (cancelOrder_statistics first_id alice one_pending s' H)
    as (_ & Hp & Hc & _).
  cbn [snd]. split.
  - rewrite Hc. vm_compute. reflexivity.
  - assert (P : (getOrderStats (fst one_pending)).(pending) = 1%nat)
      by (vm_compute; reflexivity).
    rewrite P in Hp. congruence.
Defined.

(** X23: what a creation does to the statistics.  In a state where the
    counter is at least the number carried by every stored id and below
    [2 ** 53], a [createOrder] that returns adds one to [total] and to
    [pending] and changes no other count, nor [totalVolume], nor the fees
    collected. *)
Theorem createOrder_statistics (w : World) (params : OrderCreationParams)
    (userPublicKey : option PublicKey) (s s' : State) (orderId : string) :
  ids_bounded (fst s) ->
  (fst s).(orderIdCounter) < MAX_SAFE ->
  createOrder w params userPublicKey s = (Ok orderId, s') ->
  let before := getOrderStats (fst s) in
  let after := getOrderStats (fst s') in
  after.(total) = S before.(total)
  /\ after.(pending) = S before.(pending)
  /\ after.(fulfilled) = before.(fulfilled)
  /\ after.(failed) = before.(failed)
  /\ after.(cancelled) = before.(cancelled)
  /\ after.(totalVolume) = before.(totalVolume)
  /\ getTotalFeesCollected (fst s') = getTotalFeesCollected (fst s).
Proof.
  intros Hb Hmax. rewrite createOrder_eq.
  destruct (validateOrderParams w params) as [[]|e0]; [|discriminate].
  destruct (truthy_string (fst s).(treasuryWallet)); [|discriminate].
  destruct (creation_quote w params (fst s)) as [q|e1]; [|discriminate].
  destruct userPublicKey as [pk|]; [|discriminate].
  intros [= <- <-]. cbv zeta.
  assert (Hnew : Map_get (next_id w (fst s)) (fst s).(orders) = None)
    by (apply Map_get_None; now apply next_id_fresh).
  unfold getOrderStats, getTotalFeesCollected. rewrite created_orders.
  rewrite (Map_values_set_new _ _ _ Hnew).
  cbn [total pending fulfilled failed cancelled totalVolume].
  rewrite !filter_app, !length_app. cbn [filter].
  rewrite !has_status_eq. cbn [new_order status OrderStatus_eqb List.length].
  rewrite !app_nil_r. repeat split; lia.
Qed.

Lemma createOrder_statistics_witness :
  (getOrderStats
     (fst (snd (createOrder calm (params_of 42) (Some bob) one_fulfilled)))).(total)
  = 2%nat.
Proof.
  destruct (createOrder calm (params_of 42) (Some bob) one_fulfilled) as [[id|e] s']
    eqn:H; [|vm_compute in H; discriminate H].
  destruct (createOrder_statistics calm (params_of 42) (Some bob)
              one_fulfilled s' id)
    as (Ht & _); [| |exact H|].
  - split; [vm_compute; discriminate|].
    intros k [<-|[]]. vm_compute. discriminate.
  - vm_compute. reflexivity.
  - cbn [snd]. rewrite Ht. vm_compute. reflexivity.
Defined.

(** ** The sweep of quote refreshes *)

Lemma requote_requote q1 q2 o : requote q2 (requote q1 o) = requote q2 o.
Proof. reflexivity. Qed.

Lemma requoted_refl m : requoted m m.
Proof.
  unfold requoted. induction m; constructor; [split; [reflexivity | now left] | assumption].
Qed.

Lemma requoted_trans m1 m2 m3 :
  requoted m1 m2 -> requoted m2 m3 -> requoted m1 m3.
Proof.
  unfold requoted. intros H. revert m3.
  induction H as [|kv kv' m1 m2 [Hk Ho] _ IH]; intros m3 H3;
    inversion H3 as [|? kv'' ? m3' [Hk' Ho'] H3']; subst; constructor;
    [|now apply IH].
  split; [congruence|].
  destruct Ho as [Ho|[Hs [q Ho]]], Ho' as [Ho'|[Hs' [q' Ho']]].
  - left. congruence.
  - right. rewrite Ho in Hs'. split; [exact Hs'|]. exists q'. congruence.
  - right. split; [exact Hs|]. exists q. congruence.
  - right. split; [exact Hs|]. exists q'. rewrite Ho', Ho.
    apply requote_requote.
Qed.

Lemma requoted_set k o q m :
  Map_get k m = Some o -> o.(status) = PENDING ->
  requoted m (Map_set k (requote q o) m).
Proof.
  intros Hget Hs. unfold requoted.
  induction m as [|[k' v'] m IH]; [discriminate|].
  cbn [Map_get Map_set] in *. destruct (String.eqb_spec k k') as [->|Hne].
  - injection Hget as ->. constructor; [|apply requoted_refl].
    split; [reflexivity|]. right. split; [exact Hs | now exists q].
  - constructor; [split; [reflexivity | now left] | now apply IH].
Qed.

Lemma requoted_get m m' k o :
  requoted m m' -> Map_get k m = Some o ->
  exists o', Map_get k m' = Some o'
    /\ (o' = o \/ (o.(status) = PENDING /\ exists q, o' = requote q o)).
Proof.
  unfold requoted.
  induction 1 as [|[k1 v1] [k2 v2] m m' [Hk Ho] _ IH]; [discriminate|].
  cbn [fst snd] in *. subst k2. cbn [Map_get].
  destruct (String.eqb k k1); [|exact IH].
  intros [= ->]. now exists v2.
Qed.

Lemma requoted_keys m m' : requoted m m' -> Map_keys m' = Map_keys m.
Proof.
  unfold requoted, Map_keys.
  induction 1 as [|kv kv' m m' [Hk _] _ IH]; [reflexivity|].
  cbn [map]. now rewrite Hk, IH.
Qed.

Lemma status_requote q o : (requote q o).(status) = o.(status).
Proof. reflexivity. Qed.

Lemma requoted_filter m m' st :
  requoted m m' -> st <> PENDING ->
  filter (has_status st) (Map_values m') = filter (has_status st) (Map_values m).
Proof.
  unfold requoted, Map_values. intros H Hst.
  induction H as [|kv kv' m m' [_ Ho] _ IH]; [reflexivity|].
  cbn [map filter]. rewrite IH. destruct Ho as [->|[Hs [q ->]]];
    [reflexivity|].
  rewrite !has_status_eq, status_requote, Hs.
  destruct st; try contradiction; reflexivity.
Qed.

Lemma requoted_count m m' st :
  requoted m m' ->
  List.length (filter (has_status st) (Map_values m'))
  = List.length (filter (has_status st) (Map_values m)).
Proof.
  unfold requoted, Map_values. intros H.
  induction H as [|kv kv' m m' [_ Ho] _ IH]; [reflexivity|].
  cbn [map filter].
  assert (E : has_status st (snd kv') = has_status st (snd kv))
    by (destruct Ho as [->|[Hs [q ->]]]; reflexivity).
  rewrite E. destruct (has_status st (snd kv)); cbn [List.length];
    now rewrite IH.
Qed.

Lemma requoted_length m m' :
  requoted m m' -> List.length (Map_values m') = List.length (Map_values m).
Proof.
  unfold requoted, Map_values. intros H. rewrite !length_map.
  symmetry. now apply Forall2_length in H.
Qed.

Lemma requoted_stats mgr mgr' :
  requoted mgr.(orders) mgr'.(orders) ->
  getOrderStats mgr' = getOrderStats mgr
  /\ getTotalFeesCollected mgr' = getTotalFeesCollected mgr.
Proof.
  intros H. unfold getOrderStats, getTotalFeesCollected.
  rewrite (requoted_length _ _ H), !(requoted_count _ _ _ H).
  rewrite (requoted_filter _ _ FULFILLED H) by discriminate. now split.
Qed.

(** One guarded call of [updateOrderQuote]: it returns, and at most
    requotes one pending order. *)
Lemma guarded_refresh w orderId s :
  exists s',
    try_catchM (updateOrderQuote w orderId) (fun _ => ret tt) s = (Ok tt, s')
    /\ (fst s').(orders)
       = Map_adjust (refreshed_by w (fst s)) orderId (fst s).(orders)
    /\ requoted (fst s).(orders) (fst s').(orders)
    /\ (fst s').(orderIdCounter) = (fst s).(orderIdCounter)
    /\ (fst s').(protocolFeeBps) = (fst s).(protocolFeeBps)
    /\ (fst s').(treasuryWallet) = (fst s).(treasuryWallet).
Proof.
  unfold try_catchM, Map_adjust, refreshed_by.
  destruct (Map_get orderId (fst s).(orders)) as [order|] eqn:Hget.
  - destruct (OrderStatus_eqb_spec order.(status) PENDING) as [Hs|Hs].
    + rewrite (updateOrderQuote_pending _ _ _ _ Hget Hs).
      destruct (JupiterService.getQuote _ _ _ _ _ _) as [q|e].
      * eexists. split; [reflexivity|]. rewrite persisted_manager.
        repeat split. now apply requoted_set.
      * exists s. split; [reflexivity|].
        rewrite (Map_set_get_id _ _ _ Hget). repeat split.
        apply requoted_refl.
    + rewrite (updateOrderQuote_refuses _ _ _ _ Hget Hs). exists s.
      split; [reflexivity|]. rewrite (Map_set_get_id _ _ _ Hget).
      repeat split. apply requoted_refl.
  - rewrite (updateOrderQuote_missing _ _ _ Hget). exists s.
    split; [reflexivity|]. repeat split. apply requoted_refl.
Qed.

Lemma refresh_each_effect ws pendingOrders : forall k s,
  exists s',
    refresh_each ws k pendingOrders s = (Ok tt, s')
    /\ requoted (fst s).(orders) (fst s').(orders)
    /\ (fst s').(orderIdCounter) = (fst s).(orderIdCounter)
    /\ (fst s').(protocolFeeBps) = (fst s).(protocolFeeBps)
    /\ (fst s').(treasuryWallet) = (fst s).(treasuryWallet).
Proof.
  induction pendingOrders as [|order rest IH]; intros k s;
    cbn [refresh_each].
  - exists s. split; [reflexivity|]. repeat split. apply requoted_refl.
  - destruct (guarded_refresh (ws k) order.(id) s)
      as (s1 & E1 & _ & R1 & C1 & F1 & T1).
    destruct (IH (S k) s1) as (s2 & E2 & R2 & C2 & F2 & T2).
    exists s2. unfold OrderManager.bind at 1. rewrite E1.
    split; [exact E2|]. split; [eapply requoted_trans; eassumption|].
    repeat split; congruence.
Qed.

(** X24: a sweep of quote refreshes never raises, whatever the quote
    service does at each request, and only requotes: the ids stay at
    their places, every stored order is afterwards either exactly as it
    was or, if it was pending, the same order with a new quote, expected
    output amount and price impact; the counter, the fee setting, the
    treasury, the statistics and the fees collected are unchanged. *)
Theorem refreshPendingQuotes_only_requotes (ws : nat -> World) (s : State) :
  exists s',
    refreshPendingQuotes ws s = (Ok tt, s')
    /\ Map_keys (fst s').(orders) = Map_keys (fst s).(orders)
    /\ (forall orderId order,
          Map_get orderId (fst s).(orders) = Some order ->
          exists order',
            Map_get orderId (fst s').(orders) = Some order'
            /\ (order' = order
                \/ (order.(status) = PENDING
                    /\ exists q, order' = requote q order)))
    /\ (fst s').(orderIdCounter) = (fst s).(orderIdCounter)
    /\ (fst s').(protocolFeeBps) = (fst s).(protocolFeeBps)
    /\ (fst s').(treasuryWallet) = (fst s).(treasuryWallet)
    /\ getOrderStats (fst s') = getOrderStats (fst s)
    /\ getTotalFeesCollected (fst s') = getTotalFeesCollected (fst s).
Proof.
  unfold refreshPendingQuotes, OrderManager.bind, this.
  destruct (refresh_each_effect ws (getOrdersByStatus PENDING (fst s)) O s)
    as (s' & E & R & C & F & T).
  exists s'. split; [exact E|]. split; [now apply requoted_keys|].
  split; [intros orderId order; now apply requoted_get|].
  destruct (requoted_stats _ _ R) as [Hst Hfee]. now repeat split.
Qed.

Lemma refreshed_by_fee w mgr mgr' :
  mgr'.(protocolFeeBps) = mgr.(protocolFeeBps) ->
  refreshed_by w mgr' = refreshed_by w mgr.
Proof. intros H. unfold refreshed_by. now rewrite H. Qed.

Lemma refreshed_by_twice w mgr o :
  refreshed_by w mgr (refreshed_by w mgr o) = refreshed_by w mgr o.
Proof.
  unfold refreshed_by at 2.
  destruct (OrderStatus_eqb o.(status) PENDING) eqn:Hs.
  - destruct (JupiterService.getQuote _ _ _ _ _ _) as [q|e] eqn:Hq.
    + unfold refreshed_by. cbn [requote set_priceImpact
        set_expectedOutputAmount set_quote status inputToken outputToken
        inputAmount]. now rewrite Hs, Hq.
    + unfold refreshed_by. now rewrite Hs, Hq.
  - unfold refreshed_by. now rewrite Hs.
Qed.

Lemma Map_get_adjust f k k' m :
  Map_get k (Map_adjust f k' m)
  = if String.eqb k k' then option_map f (Map_get k m) else Map_get k m.
Proof.
  unfold Map_adjust. destruct (String.eqb_spec k k') as [->|Hne].
  - destruct (Map_get k' m) as [o|] eqn:E; cbn [option_map];
      [apply Map_get_set_same | exact E].
  - destruct (Map_get k' m) as [o|]; [now apply Map_get_set_other | reflexivity].
Qed.

(** Adjusting the orders under a list of ids, with a function that does
    nothing the second time. *)
Lemma fold_adjust_get f (l : list Order) k :
  (forall o, f (f o) = f o) ->
  forall m,
    Map_get k (fold_left (fun m o => Map_adjust f o.(id) m) l m)
    = if in_dec string_dec k (map id l) then option_map f (Map_get k m)
      else Map_get k m.
Proof.
  intros Hf. induction l as [|x l IH]; intros m; [reflexivity|].
  cbn [fold_left map]. rewrite IH, Map_get_adjust.
  destruct (in_dec string_dec k (id x :: map id l)) as [Hin|Hin],
    (in_dec string_dec k (map id l)) as [Hin'|Hin'],
    (String.eqb_spec k x.(id)) as [He|He]; try reflexivity.
  - destruct (Map_get k m); cbn [option_map]; now rewrite ?Hf.
  - destruct Hin as [Hin|Hin]; [now symmetry in Hin | contradiction].
  - exfalso. apply Hin. now right.
  - exfalso. apply Hin. now right.
  - exfalso. apply Hin. now left.
Qed.

Lemma refresh_each_steady w pendingOrders : forall k s,
  (fst (snd (refresh_each (fun _ => w) k pendingOrders s))).(orders)
  = fold_left (fun m o => Map_adjust (refreshed_by w (fst s)) o.(id) m)
      pendingOrders (fst s).(orders).
Proof.
  induction pendingOrders as [|order rest IH]; intros k s;
    cbn [refresh_each fold_left]; [reflexivity|].
  destruct (guarded_refresh w order.(id) s) as (s1 & E1 & M1 & _ & _ & F1 & _).
  unfold OrderManager.bind at 1. rewrite E1.
  rewrite IH, M1. now rewrite (refreshed_by_fee w (fst s) (fst s1) F1).
Qed.

Lemma Map_get_entry {V : Type} k (v : V) m : Map_get k m = Some v -> In (k, v) m.
Proof.
  induction m as [|[k' v'] m IH]; [discriminate|]. cbn [Map_get].
  destruct (String.eqb_spec k k') as [->|Hne].
  - intros [= ->]. now left.
  - intros H. right. now apply IH.
Qed.

(** X25: while the quote service answers consistently, a sweep of quote
    refreshes reaches every pending order.  In a collection where each
    order is stored under its own id, after [refreshPendingQuotes] every
    pending order for which the quote request succeeds carries the new
    quote, every pending order for which it fails is as it was, and
    every order that was not pending is as it was. *)
Theorem refreshPendingQuotes_reaches_every_pending_order (w : World)
    (s : State) (orderId : string) (order : Order) :
  keyed_by_id (fst s).(orders) ->
  Map_get orderId (fst s).(orders) = Some order ->
  let s' := snd (refreshPendingQuotes (fun _ => w) s) in
  let request :=
    JupiterService.getQuote w order.(inputToken) order.(outputToken)
      order.(inputAmount) (of_Z 50) (Some (fst s).(protocolFeeBps)) in
  (order.(status) <> PENDING ->
   Map_get orderId (fst s').(orders) = Some order)
  /\ (forall q, order.(status) = PENDING -> request = Ok q ->
      Map_get orderId (fst s').(orders) = Some (requote q order))
  /\ (forall e, order.(status) = PENDING -> request = Throw e ->
      Map_get orderId (fst s').(orders) = Some order).
Proof.
  intros Hkeyed Hget. cbv zeta.
  assert (E : Map_get orderId
                (fst (snd (refreshPendingQuotes (fun _ => w) s))).(orders)
              = Some (refreshed_by w (fst s) order)).
  { unfold refreshPendingQuotes, OrderManager.bind at 1, this.
    rewrite refresh_each_steady.
    rewrite fold_adjust_get by (intros o; apply refreshed_by_twice).
    rewrite Hget. cbn [option_map].
    destruct (in_dec string_dec orderId _) as [Hin|Hin]; [reflexivity|].
    f_equal. unfold refreshed_by.
    destruct (OrderStatus_eqb_spec order.(status) PENDING) as [Hs|Hs];
      [|reflexivity].
    exfalso. apply Hin. apply in_map_iff. exists order.
    split; [apply Hkeyed; now apply Map_get_entry|].
    unfold getOrdersByStatus. apply Array_sort_In. apply filter_In.
    split; [now apply Map_get_In with (k := orderId)|].
    rewrite Hs. reflexivity. }
  rewrite E. unfold refreshed_by.
  destruct (OrderStatus_eqb_spec order.(status) PENDING) as [Hs|Hs].
  - split; [contradiction|].
    split; [intros q _ ->; reflexivity | intros e _ ->; reflexivity].
  - split; [reflexivity|]. split; intros; contradiction.
Qed.

Lemma refreshPendingQuotes_reaches_every_pending_order_witness :
  option_map expectedOutputAmount
    (Map_get "order_1700000060000_0002"
       (fst (snd (refreshPendingQuotes (fun _ => world "2600000" None) busy))).(orders))
  = Some (of_Z 2600000).
Proof.
  destruct (Map_get "order_1700000060000_0002" (fst busy).(orders))
    as [order|] eqn:E; [|vm_compute in E; discriminate E].
  assert (K : keyed_by_id (fst busy).(orders)).
  { intros k o H. vm_compute in H.
    destruct H as [H|[H|[H|[]]]]; injection H as <- <-; reflexivity. }
  destruct (refreshPendingQuotes_reaches_every_pending_order
              (world "2600000" None) busy _ order K E) as (_ & Hq & _).
  rewrite (Hq (quote_of "2600000")).
  - vm_compute. reflexivity.
  - vm_compute in E. injection E as <-. reflexivity.
  - vm_compute in E. injection E as <-. vm_compute. reflexivity.
Defined.

(** ** Balances *)

Lemma parseInt_N_toString n :
  (n <= MAX_EXACT)%N -> parseInt (N_toString n) = of_Z (Z.of_N n).
Proof.
  intros Hn. unfold parseInt. pose proof (parseIntZ_padStart 0 n) as H.
  unfold padStart in H. cbn [Nat.sub repeat_char String.append] in H.
  rewrite H, nearest_double_small; [reflexivity|].
  unfold MAX_EXACT in Hn. lia.
Qed.

(** X5: [getTokenBalance] always answers.  It never raises; for the
    native mint it returns what [getBalance] reports; for any other mint
    whose associated account holds [units] base units, written in
    decimal and not above [2 ** 53], it returns [units]; and whenever a
    look-up raises it returns [0]. *)
Theorem getTokenBalance_always_answers (w : World) (connection : Connection)
    (walletAddress tokenMint : PublicKey) :
  let balance := getTokenBalance w connection walletAddress tokenMint in
  (exists n, balance = Ok n)
  /\ (tokenMint.(toBase58) = NATIVE_MINT ->
      (forall b, getBalance connection walletAddress = Ok b -> balance = Ok b)
      /\ (forall e, getBalance connection walletAddress = Throw e ->
          balance = Ok (of_Z 0)))
  /\ (tokenMint.(toBase58) <> NATIVE_MINT ->
      (forall e, getAssociatedTokenAddress w tokenMint walletAddress = Throw e ->
         balance = Ok (of_Z 0))
      /\ (forall account,
            getAssociatedTokenAddress w tokenMint walletAddress = Ok account ->
            (forall e, getTokenAccountBalance connection account = Throw e ->
               balance = Ok (of_Z 0))
            /\ (forall units, (units <= MAX_EXACT)%N ->
                  getTokenAccountBalance connection account
                  = Ok (N_toString units) ->
                  balance = Ok (of_Z (Z.of_N units))))).
Proof.
  cbv zeta. unfold getTokenBalance, try_catch.
  destruct (String.eqb_spec tokenMint.(toBase58) NATIVE_MINT) as [Hn|Hn].
  - split; [destruct (getBalance connection walletAddress); now eexists|].
    split; [|contradiction]. intros _.
    split; [intros b ->; reflexivity | intros e ->; reflexivity].
  - unfold bind_res.
    split; [destruct (getAssociatedTokenAddress w tokenMint walletAddress)
              as [account|e];
            [destruct (getTokenAccountBalance connection account)|];
            now eexists|].
    split; [contradiction|]. intros _.
    split; [intros e ->; reflexivity|]. intros account ->.
    split; [intros e ->; reflexivity|]. intros units Hu ->.
    now rewrite parseInt_N_toString.
Qed.

Lemma getTokenBalance_always_answers_witness :
  getTokenBalance calm ledger alice (mkPublicKey SOL) = Ok (of_Z 5000000000)
  /\ getTokenBalance calm ledger alice (mkPublicKey USDC) = Ok (of_Z 1500000)
  /\ getTokenBalance calm offline alice (mkPublicKey USDC) = Ok (of_Z 0).
Proof.
  destruct (getTokenBalance_always_answers calm ledger alice (mkPublicKey SOL))
    as (_ & Hnative & _).
  destruct (getTokenBalance_always_answers calm ledger alice (mkPublicKey USDC))
    as (_ & _ & Htoken).
  destruct (getTokenBalance_always_answers calm offline alice (mkPublicKey USDC))
    as (_ & _ & Hoff).
  split; [apply Hnative; reflexivity|].
  split.
  - destruct Htoken as [_ Hacc]; [vm_compute; discriminate|].
    destruct (Hacc (mkPublicKey (alice.(toBase58) ++ "/" ++ USDC)) eq_refl)
      as [_ Hunits].
    apply (Hunits 1500000%N); [vm_compute; discriminate | reflexivity].
  - destruct Hoff as [_ Hacc]; [vm_compute; discriminate|].
    destruct (Hacc (mkPublicKey (alice.(toBase58) ++ "/" ++ USDC)) eq_refl)
      as [Hthrow _].
    eapply Hthrow. reflexivity.
Defined.
